(** * LightCompress: the VQA evaluation wrapper ([llmc/eval/eval_vqa.py])

    A shallow embedding of [VQAEval]: the constructor, the timing hooks
    installed by [set_statistics_modules], the closure [_adjust_config]
    and the orchestrating method [eval].

    Python objects that the code mutates in place (task objects of the
    evaluation harness, the hooked torch module) live in a store indexed by
    object identity, so that two entries of a task tree may alias one
    object.  Calls into the external collaborators (seeding, the task
    registry, the model registry, the evaluator, the logger) are recorded
    in a chronological trace.  [eval] catches no exception: what a
    collaborator raises ends the run, and which calls raise is a parameter
    of the model, next to what the collaborators return.  The logger, the
    methods of the task objects and [torch.cuda.synchronize] are taken to
    return. *)

From Stdlib Require Import ZArith QArith Lqa Qround Qpower Ascii String List
  Bool Lia.
From stdpp Require Import base option functions gmap strings list.

Import ListNotations.
Local Open Scope string_scope.
Local Open Scope Z_scope.
Local Open Scope list_scope.

(** ** Python values and insertion-ordered dictionaries *)

Module Py.

(** An object is known by its identity ([id(obj)]), a [positive]. *)

(** The values stored in keyword arguments, generation kwargs and the
    results mapping.  A float is the rational it stands for; [PyObj] is an
    opaque object (a tensor, for instance) known by its identity. *)
#[local] Unset Elimination Schemes.
Inductive pyval :=
| PyNone
| PyBool (b : bool)
| PyInt (z : Z)
| PyFloat (q : Q)
| PyStr (s : string)
| PyObj (o : positive)
| PyList (l : list pyval)
| PyDict (d : list (string * pyval)).
#[local] Set Elimination Schemes.

(** A Python [dict] keeps its keys in insertion order and holds each key
    once. *)
Abbreviation dict V := (list (string * V)).

Section Dict.
Context {V : Type}.

(** [d.get(k)], and [d[k]] when the result is [Some]. *)
Fixpoint dict_get (k : string) (d : dict V) : option V :=
  match d with
  | [] => None
  | (k', v) :: d' => if String.eqb k k' then Some v else dict_get k d'
  end.

(** [d[k] = v]: an existing key keeps its position and takes the new
    value, a new key goes to the end. *)
Fixpoint dict_set (k : string) (v : V) (d : dict V) : dict V :=
  match d with
  | [] => [(k, v)]
  | (k', v') :: d' =>
      if String.eqb k k' then (k', v) :: d' else (k', v') :: dict_set k v d'
  end.

(** [d.update(other)], also the value of [{**d, **other}]. *)
Definition dict_update (d other : dict V) : dict V :=
  fold_left (fun acc kv => dict_set (fst kv) (snd kv) acc) other d.

Definition keys (d : dict V) : list string := map fst d.
End Dict.

(** [needle in s] on two [str]: substring test. *)
Fixpoint str_contains (needle s : string) : bool :=
  String.prefix needle s
  || match s with
     | EmptyString => false
     | String _ s' => str_contains needle s'
     end.

(** *** Floats

    A Python [float] is an IEEE 754 double.  A double that is neither an
    infinity nor a NaN is a rational, and an operation on doubles returns
    the double nearest to the exact result, a tie going to the even
    significand.  [round64] is that rounding.  Its exponent has no upper
    bound: a result beyond the largest double, which Python turns into an
    infinity, stays a rational here. *)

(** The nearest integer, a tie going to the even one. *)
Definition rint (q : Q) : Z :=
  let f := Qfloor q in
  match (q - inject_Z f ?= 1 # 2)%Q with
  | Lt => f
  | Gt => f + 1
  | Eq => if Z.even f then f else f + 1
  end.

(** The integer part of the binary logarithm of [q > 0]. *)
Definition ilog2 (q : Q) : Z :=
  let k := Z.log2 (Qnum q) - Z.log2 (Zpos (Qden q)) in
  if Qle_bool (2 ^ k) q then k else k - 1.

(** The exponent of the last place of the doubles around [q > 0]: 53
    significant bits, and no exponent below that of the subnormals. *)
Definition ulp_exp (q : Q) : Z := Z.max (ilog2 q - 52) (-1074).

(** The multiple of [2 ^ e] nearest to [q]. *)
Definition round_to (e : Z) (q : Q) : Q :=
  (inject_Z (rint (q * 2 ^ (- e))) * 2 ^ e)%Q.

Definition round_pos (q : Q) : Q := round_to (ulp_exp q) q.

Definition round64 (q : Q) : Q :=
  match Qnum q with
  | Z0 => 0
  | Zpos _ => round_pos q
  | Zneg _ => - round_pos (- q)
  end.

(** Python numbers held in object attributes: [int] or [float]. *)
Inductive num :=
| Int (z : Z)
| Float (q : Q).

(** The value of a number. *)
Definition num_to_Q (n : num) : Q :=
  match n with
  | Int z => inject_Z z
  | Float q => q
  end.

(** The operand a number is in an operation with a [float]: an [int] is
    converted, [float(z)]. *)
Definition num_to_float (n : num) : Q :=
  match n with
  | Int z => round64 (inject_Z z)
  | Float q => q
  end.

(** [a + b]: [int + int] is an [int], anything else a [float]. *)
Definition num_add (a b : num) : num :=
  match a, b with
  | Int x, Int y => Int (x + y)
  | _, _ => Float (round64 (num_to_float a + num_to_float b))
  end.

(** [a - b] *)
Definition num_sub (a b : num) : num :=
  match a, b with
  | Int x, Int y => Int (x - y)
  | _, _ => Float (round64 (num_to_float a - num_to_float b))
  end.

(** [a * b] *)
Definition num_mul (a b : num) : num :=
  match a, b with
  | Int x, Int y => Int (x * y)
  | _, _ => Float (round64 (num_to_float a * num_to_float b))
  end.

(** [a / b] when [b] is not zero: always a [float]; the quotient of two
    [int] is rounded once. *)
Definition num_quot (a b : num) : num :=
  match a, b with
  | Int x, Int y => Float (round64 (inject_Z x / inject_Z y))
  | _, _ => Float (round64 (num_to_float a / num_to_float b))
  end.

Definition num_is_zero (n : num) : bool :=
  match n with
  | Int z => Z.eqb z 0
  | Float q => Qeq_bool q 0
  end.

End Py.
Import Py.

(** ** Task objects of the evaluation harness

    A leaf of the task tree is a task object of [lmms_eval].  The code
    reads and writes three keys of its configuration ([output_type],
    [num_fewshot], [generation_kwargs]), reads its [dataset], overrides its
    metric and sets its few-shot seed. *)

Module Task.

Record t := mk {
  dataset : positive;                   (* task_obj.dataset *)
  output_type : string;                 (* config key 'output_type' *)
  num_fewshot : option Z;               (* config key 'num_fewshot'; None is Python's None *)
  generation_kwargs : dict pyval;       (* config key 'generation_kwargs' *)
  metric_list : list string;            (* the metrics the task computes *)
  fewshot_seed : option Z               (* seed of the few-shot sampler, once set *)
}.

(** [task_obj.set_config(key='num_fewshot', value=v)] *)
Definition set_num_fewshot (v : Z) (x : t) : t :=
  mk (dataset x) (output_type x) (Some v) (generation_kwargs x)
     (metric_list x) (fewshot_seed x).

(** [task_obj.set_config(key='generation_kwargs', value=v, update=True)]:
    with [update=True] the harness updates the dictionary already stored
    under the key with the entries of [v] ([current.update(v)]); without
    it the value would be replaced. *)
Definition update_generation_kwargs (v : dict pyval) (x : t) : t :=
  mk (dataset x) (output_type x) (num_fewshot x)
     (dict_update (generation_kwargs x) v)
     (metric_list x) (fewshot_seed x).

(** [task_obj.override_metric(metric_name=m)]: the task computes the one
    metric [m] from now on. *)
Definition override_metric (m : string) (x : t) : t :=
  mk (dataset x) (output_type x) (num_fewshot x) (generation_kwargs x)
     [m] (fewshot_seed x).

(** [task_obj.set_fewshot_seed(seed=s)] *)
Definition set_fewshot_seed (s : Z) (x : t) : t :=
  mk (dataset x) (output_type x) (num_fewshot x) (generation_kwargs x)
     (metric_list x) (Some s).

End Task.

(** ** The task tree

    [get_task_dict] returns a nested [dict]: a task name maps to a [dict]
    (a named group), to a tuple [(group, task)] whose task may be [None],
    or to a task object. *)

#[local] Unset Elimination Schemes.
Inductive node :=
| Group (children : list (string * node))        (* isinstance(task_obj, dict) *)
| Pair (group : string) (task : option positive) (* isinstance(task_obj, tuple) *)
| Leaf (task : positive).                        (* a task object *)
#[local] Set Elimination Schemes.

Abbreviation tree := (dict node).

(** ** Messages, events and the world *)

Inductive level := INFO | WARNING.

(** The texts handed to the logger, by the values interpolated in them. *)
Inductive message :=
| Msg_output_only (task_name : string)
    (* 'Processing {task_name} in output-only mode. Metrics will not be calculated!' *)
| Msg_fewshot_zero (task_name : string)
    (* 'num_fewshot has been set to 0 for {task_name} in its config.
        Manual configuration will be ignored.' *)
| Msg_fewshot_overwrite (task_name : string) (default : option Z) (value : Z)
    (* 'Overwriting default num_fewshot of {task_name} from {default} to {value}' *)
| Msg_seeds (parts : list (string * Z))
    (* ' | '.join(seed_message), each part 'Setting <what> to <seed>' *)
| Msg_gen_kwargs_cli
    (* 'generation_kwargs specified through cli.' *)
| Msg_peak_memory (mb : Q)
    (* 'peak memory: {mb:.1f} MB.', by the value the line formats *)
| Msg_prefill_average (ms : Q)
    (* 'prefill average time: {ms:.1f} ms.' *)
| Msg_decode_average (ms : Q).
    (* 'decode average time: {ms:.1f} ms.' *)

(** [llmc_model.eval_name], the key of the model registry.  [eval] tests
    [isinstance(model, str)] and falls back on the object's
    [config._name_or_path] or on the name of its type. *)
Inductive model_ref :=
| Model_str (s : string)
| Model_obj (name_or_path : option string) (type_name : string).

(** The task manager handed to [get_task_dict]: the caller's, or a new
    [TaskManager(verbosity, model_name=model)]. *)
Inductive task_manager_ref :=
| TM_given (o : positive)
| TM_new (verbosity : string) (model_name : model_ref).

(** What [eval] reads of the adapter built by the model registry. *)
Record Lm := mkLm {
  rank : Z;                              (* lm.rank *)
  has_model : bool;                      (* hasattr(lm, '_model') *)
  batch_sizes : option (dict pyval);     (* lm.batch_sizes, when it has the attribute *)
  chat_template : pyval;                 (* lm.chat_template *)
  init_task_dict : dict positive         (* lm.task_dict as constructed *)
}.

(** The keyword arguments of the call of the external [evaluate]. *)
Record evaluate_args := mkEvaluateArgs {
  ea_lm : Lm;
  ea_task_dict : tree;
  ea_limit : option pyval;
  ea_cache_requests : bool;
  ea_rewrite_requests_cache : bool;
  ea_bootstrap_iters : Z;
  ea_write_out : bool;
  ea_log_samples : bool;
  ea_system_instruction : option string;
  ea_apply_chat_template : bool;
  ea_fewshot_as_multiturn : bool;
  ea_verbosity : string;
  ea_cli_args : option pyval
}.

(** The keyword arguments of [log_experiment_args]. *)
Record experiment_args := mkExperimentArgs {
  xa_model_source : model_ref;
  xa_model_args : string;
  xa_system_instruction : option string;
  xa_chat_template : pyval;
  xa_fewshot_as_multiturn : bool
}.

(** Calls into the collaborators, in the order they happen. *)
Inductive event :=
| Ev_random_seed (seed : Z)                       (* random.seed *)
| Ev_numpy_seed (seed : Z)                        (* np.random.seed *)
| Ev_torch_seed (seed : Z)                        (* torch.manual_seed *)
| Ev_log (l : level) (m : message)                (* logger.info / logger.warning *)
| Ev_simple_parse_args_string (args_string : string)
| Ev_task_manager (verbosity : string) (model_name : model_ref)
| Ev_get_task_dict (tasks : list string) (tm : task_manager_ref)
| Ev_reset_peak_memory_stats
| Ev_create_lm (model : model_ref) (model_args : string)
    (llmc_model : positive) (batch_size : pyval) (device : option string)
| Ev_update_generation_kwargs (task : positive) (value : dict pyval)
| Ev_override_metric (task : positive) (metric_name : string)
| Ev_set_num_fewshot (task : positive) (value : Z)
| Ev_set_fewshot_seed (task : positive) (seed : Z)
| Ev_run_task_tests (task_list : list string)
| Ev_log_experiment_args (tracker : positive) (a : experiment_args)
| Ev_evaluate (a : evaluate_args)
| Ev_cuda_synchronize
| Ev_max_memory_allocated
| Ev_del_model
| Ev_empty_cache
| Ev_make_table (results : dict pyval).

(** The hooks [set_statistics_modules] defines.  [end_time_hook] is a
    closure over the [model] it was defined for. *)
Inductive pre_hook := start_time_hook_of.
Inductive post_hook := end_time_hook_of (model : positive).

Record World := mkWorld {
  task_objs : positive -> Task.t;                 (* the task objects *)
  attrs : gmap (positive * string) num;       (* attributes set on modules *)
  forward_pre_hooks : list (positive * pre_hook);
  forward_hooks : list (positive * post_hook);
  lm_task_dict : dict positive;               (* lm.task_dict *)
  trace : list event
}.

Definition emit (e : event) (w : World) : World :=
  mkWorld (task_objs w) (attrs w) (forward_pre_hooks w) (forward_hooks w)
          (lm_task_dict w) (trace w ++ [e]).

Definition set_lm_task_dict (d : dict positive) (w : World) : World :=
  mkWorld (task_objs w) (attrs w) (forward_pre_hooks w) (forward_hooks w)
          d (trace w).

(** A method call that mutates the task object [o]. *)
Definition on_task (o : positive) (f : Task.t -> Task.t) (w : World) : World :=
  mkWorld (<[o := f (task_objs w o)]> (task_objs w)) (attrs w)
          (forward_pre_hooks w) (forward_hooks w) (lm_task_dict w) (trace w).

Definition log (l : level) (m : message) : World -> World := emit (Ev_log l m).

(** [for k, v in d.items(): body], threading the variables the body
    assigns. *)
Definition for_items {S V : Type} (body : S -> string -> V -> S)
    (d : dict V) (s : S) : S :=
  fold_left (fun s kv => body s (fst kv) (snd kv)) d s.

(** ** The Config Adjuster: [_adjust_config] *)

(** The value of [gen_kwargs] once [eval] has parsed it: [None], the empty
    string (which is falsy, hence never parsed) or the parsed [dict]. *)
Inductive gen_kwargs_val :=
| GK_none
| GK_empty_str
| GK_dict (d : dict pyval).

Section AdjustConfig.
(** The variables of [eval] the closure reads. *)
Variable gen_kwargs : gen_kwargs_val.
Variable predict_only : bool.
Variable num_fewshot : option Z.
Variable fewshot_random_seed : Z.

(** Lines 169-174: the dataset is entered in [lm.task_dict], and a
    generating task takes the generation kwargs. *)
Definition set_generation (task_name : string) (task_obj : positive)
    (w : World) : World :=
  let w := set_lm_task_dict
             (dict_set task_name (Task.dataset (task_objs w task_obj))
                (lm_task_dict w)) w in
  if str_contains "generate_until" (Task.output_type (task_objs w task_obj)) then
    match gen_kwargs with
    | GK_none => w
    | GK_empty_str =>
        (* dict.update('') adds no entry *)
        on_task task_obj (Task.update_generation_kwargs [])
          (emit (Ev_update_generation_kwargs task_obj []) w)
    | GK_dict d =>
        on_task task_obj (Task.update_generation_kwargs d)
          (emit (Ev_update_generation_kwargs task_obj d) w)
    end
  else w.

(** Lines 176-182 *)
Definition set_predict_only (task_name : string) (task_obj : positive)
    (w : World) : World :=
  if predict_only then
    let w := log INFO (Msg_output_only task_name) w in
    on_task task_obj (Task.override_metric "bypass")
      (emit (Ev_override_metric task_obj "bypass") w)
  else w.

(** Lines 188-208 *)
Definition set_fewshot (task_name : string) (task_obj : positive)
    (w : World) : World :=
  match num_fewshot with
  | Some n =>
      let default_num_fewshot := Task.num_fewshot (task_objs w task_obj) in
      match default_num_fewshot with
      | Some 0 => log INFO (Msg_fewshot_zero task_name) w
      | _ =>
          let w := log WARNING
                     (Msg_fewshot_overwrite task_name default_num_fewshot n) w in
          on_task task_obj (Task.set_num_fewshot n)
            (emit (Ev_set_num_fewshot task_obj n) w)
      end
  | None =>
      let default_num_fewshot := Task.num_fewshot (task_objs w task_obj) in
      match default_num_fewshot with
      | None =>
          on_task task_obj (Task.set_num_fewshot 0)
            (emit (Ev_set_num_fewshot task_obj 0) w)
      | Some _ => w
      end
  end.

(** Line 211 *)
Definition set_seed (task_obj : positive) (w : World) : World :=
  on_task task_obj (Task.set_fewshot_seed fewshot_random_seed)
    (emit (Ev_set_fewshot_seed task_obj fewshot_random_seed) w).

(** Lines 169-214, for a task object: the work done on one leaf. *)
Definition adjust_leaf (task_name : string) (task_obj : positive)
    (w : World) : World :=
  let w := set_generation task_name task_obj w in
  let w := set_predict_only task_name task_obj w in
  let w := set_fewshot task_name task_obj w in
  set_seed task_obj w.

(** The body of the loop of [_adjust_config] on the entry
    [task_name: task_obj]; the state is [adjusted_task_dict] and the
    world.  ([task_dict[task_name]] on line 164 reads back the value the
    loop is at.) *)
Fixpoint adjust_entry (s : tree * World) (task_name : string)
    (task_obj : node) {struct task_obj} : tree * World :=
  let '(adjusted_task_dict, w) := s in
  match task_obj with
  | Group sub =>
      let '(r, w) := for_items adjust_entry sub ([], w) in
      (dict_update adjusted_task_dict [(task_name, Group r)], w)
  | Pair group None => (adjusted_task_dict, w)          (* continue *)
  | Pair group (Some task_obj) =>
      let w := adjust_leaf task_name task_obj w in
      (dict_set task_name (Leaf task_obj) adjusted_task_dict, w)
  | Leaf task_obj =>
      let w := adjust_leaf task_name task_obj w in
      (dict_set task_name (Leaf task_obj) adjusted_task_dict, w)
  end.

Definition _adjust_config (task_dict : tree) (w : World) : tree * World :=
  for_items adjust_entry task_dict ([], w).

End AdjustConfig.

(** ** The shape of task trees *)

(** The task objects an entry [task_name: task_obj] leads to, with the
    name each is entered under, in the order of the traversal.  A tuple
    whose task is [None] leads to none. *)
Fixpoint entry_leaves (task_name : string) (task_obj : node)
    : list (string * positive) :=
  match task_obj with
  | Group sub => flat_map (fun kv => entry_leaves (fst kv) (snd kv)) sub
  | Pair _ None => []
  | Pair _ (Some o) => [(task_name, o)]
  | Leaf o => [(task_name, o)]
  end.

Definition leaf_entries (task_dict : tree) : list (string * positive) :=
  flat_map (fun kv => entry_leaves (fst kv) (snd kv)) task_dict.

(** The task objects of a tree. *)
Definition leaves (task_dict : tree) : list positive :=
  map snd (leaf_entries task_dict).

(** Every [dict] of the tree holds each of its keys once, as a Python
    [dict] does. *)
Fixpoint node_wf (n : node) : Prop :=
  match n with
  | Group sub =>
      NoDup (keys sub) /\ fold_right (fun kv acc => node_wf (snd kv) /\ acc) True sub
  | _ => True
  end.

Definition tree_wf (task_dict : tree) : Prop := node_wf (Group task_dict).

(** The tree the spec describes: every group again under its name, the
    entries without a task left out, the others in their order. *)
Fixpoint rebuilt_entry (task_name : string) (task_obj : node)
    : list (string * node) :=
  match task_obj with
  | Group sub =>
      [(task_name, Group (flat_map (fun kv => rebuilt_entry (fst kv) (snd kv)) sub))]
  | Pair _ None => []
  | Pair _ (Some o) => [(task_name, Leaf o)]
  | Leaf o => [(task_name, Leaf o)]
  end.

Definition rebuilt (task_dict : tree) : tree :=
  flat_map (fun kv => rebuilt_entry (fst kv) (snd kv)) task_dict.

(** The events recorded between the world [w] and a later world [w']. *)
Definition events_since (w w' : World) : list event :=
  drop (length (trace w)) (trace w').

(** The task objects whose few-shot seed a run of events sets, in order:
    [_adjust_config] sets it once each time it works on a leaf. *)
Definition seeded (evs : list event) : list positive :=
  flat_map (fun e => match e with
                     | Ev_set_fewshot_seed o _ => [o]
                     | _ => []
                     end) evs.

(** What the four steps of [adjust_leaf] make of the task object they
    work on. *)
Section AdjustedTask.
Variable gen_kwargs : gen_kwargs_val.
Variable predict_only : bool.
Variable num_fewshot : option Z.
Variable fewshot_random_seed : Z.

Definition with_generation (x : Task.t) : Task.t :=
  if str_contains "generate_until" (Task.output_type x) then
    match gen_kwargs with
    | GK_none => x
    | GK_empty_str => Task.update_generation_kwargs [] x
    | GK_dict d => Task.update_generation_kwargs d x
    end
  else x.

Definition with_predict_only (x : Task.t) : Task.t :=
  if predict_only then Task.override_metric "bypass" x else x.

Definition with_fewshot (x : Task.t) : Task.t :=
  match num_fewshot, Task.num_fewshot x with
  | Some n, Some 0 => x
  | Some n, _ => Task.set_num_fewshot n x
  | None, None => Task.set_num_fewshot 0 x
  | None, Some _ => x
  end.

Definition adjusted_task (x : Task.t) : Task.t :=
  Task.set_fewshot_seed fewshot_random_seed
    (with_fewshot (with_predict_only (with_generation x))).
End AdjustedTask.

(** The events of the four steps of [adjust_leaf] on the entry
    [task_name: task_obj], whose task object is [x] beforehand. *)
Section LeafEvents.
Variable gen_kwargs : gen_kwargs_val.
Variable predict_only : bool.
Variable num_fewshot : option Z.
Variable fewshot_random_seed : Z.

Definition generation_events (task_obj : positive) (x : Task.t) : list event :=
  if str_contains "generate_until" (Task.output_type x) then
    match gen_kwargs with
    | GK_none => []
    | GK_empty_str => [Ev_update_generation_kwargs task_obj []]
    | GK_dict d => [Ev_update_generation_kwargs task_obj d]
    end
  else [].

Definition predict_only_events (task_name : string) (task_obj : positive)
    : list event :=
  if predict_only then
    [Ev_log INFO (Msg_output_only task_name); Ev_override_metric task_obj "bypass"]
  else [].

Definition fewshot_events (task_name : string) (task_obj : positive)
    (x : Task.t) : list event :=
  match num_fewshot, Task.num_fewshot x with
  | Some n, Some 0 => [Ev_log INFO (Msg_fewshot_zero task_name)]
  | Some n, default =>
      [Ev_log WARNING (Msg_fewshot_overwrite task_name default n);
       Ev_set_num_fewshot task_obj n]
  | None, None => [Ev_set_num_fewshot task_obj 0]
  | None, Some _ => []
  end.

Definition leaf_events (task_name : string) (task_obj : positive)
    (x : Task.t) : list event :=
  generation_events task_obj x ++ predict_only_events task_name task_obj
  ++ fewshot_events task_name task_obj x
  ++ [Ev_set_fewshot_seed task_obj fewshot_random_seed].
End LeafEvents.

(** [adjust_leaf] on the entries of a list, one after the other. *)
Definition adjust_leaves (gen_kwargs : gen_kwargs_val) (predict_only : bool)
    (num_fewshot : option Z) (fewshot_random_seed : Z)
    (l : list (string * positive)) (w : World) : World :=
  fold_left
    (fun w e => adjust_leaf gen_kwargs predict_only num_fewshot
                  fewshot_random_seed (fst e) (snd e) w)
    l w.

(** An entry that resolves to no task: a tuple whose task is [None]. *)
Definition tombstoned (n : node) : bool :=
  match n with
  | Pair _ None => true
  | _ => false
  end.

(** ** Exceptions and the monad of [eval] *)

Inductive exn :=
| AssertionError (msg : string)
| KeyError (key : string)
| RegistryKeyError (model : model_ref)        (* MODEL_REGISTRY[model] *)
| AttributeError (o : positive) (name : string)
| ZeroDivisionError
| Upstream (call : event) (cls : string).
    (* an exception of class [cls] raised inside the collaborator during [call] *)

(** A computation ends with a value or with a raised exception, and in
    both cases with the world it leaves behind. *)
Inductive result (A : Type) :=
| Ok (a : A) (w : World)
| Raise (e : exn) (w : World).
Arguments Ok {A} a w.
Arguments Raise {A} e w.

Definition M (A : Type) : Type := World -> result A.

Definition ret {A} (a : A) : M A := fun w => Ok a w.

Definition bind {A B} (m : M A) (k : A -> M B) : M B :=
  fun w => match m w with
           | Ok a w' => k a w'
           | Raise e w' => Raise e w'
           end.

Definition raise {A} (e : exn) : M A := fun w => Raise e w.

(** A step that cannot fail. *)
Definition act (f : World -> World) : M unit := fun w => Ok tt (f w).

Declare Scope eval_scope.
Delimit Scope eval_scope with eval.
Notation "x <- m ;; k" := (bind m (fun x => k))
  (at level 100, m at next level, right associativity) : eval_scope.
Notation "m ;; k" := (bind m (fun _ => k))
  (at level 100, right associativity) : eval_scope.

Definition world_of {A} (r : result A) : World :=
  match r with
  | Ok _ w => w
  | Raise _ w => w
  end.

(** ** The Timing Instrumentor: [set_statistics_modules] *)

Local Open Scope eval_scope.

(** [o.name], raising when the attribute was never set. *)
Definition getattr (o : positive) (name : string) : M num :=
  fun w => match attrs w !! (o, name) with
           | Some v => Ok v w
           | None => Raise (AttributeError o name) w
           end.

(** [o.name = v] *)
Definition setattr (o : positive) (name : string) (v : num) : M unit :=
  act (fun w => mkWorld (task_objs w) (<[(o, name) := v]> (attrs w))
                        (forward_pre_hooks w) (forward_hooks w)
                        (lm_task_dict w) (trace w)).

(** [x is not None] *)
Definition is_not_None (v : pyval) : bool :=
  match v with
  | PyNone => false
  | _ => true
  end.

(** Lines 34-37; [now] is the reading of [time.time()]. *)
Definition start_time_hook (module : positive) (now : Q) : M unit :=
  act (emit Ev_cuda_synchronize) ;;
  setattr module "start_time" (Float now).

(** Lines 39-47; [model] is the variable of the enclosing
    [set_statistics_modules], [now] the reading of [time.time()]. *)
Definition end_time_hook (model : positive)
    (module : positive) (kwargs : dict pyval) (now : Q) : M unit :=
  act (emit Ev_cuda_synchronize) ;;
  start_time <- getattr module "start_time" ;;
  let elapsed_prefill := num_sub (Float now) start_time in
  match dict_get "inputs_embeds" kwargs with
  | None => raise (KeyError "inputs_embeds")
  | Some inputs_embeds =>
      if is_not_None inputs_embeds then
        c <- getattr module "prefill_count" ;;
        setattr module "prefill_count" (num_add c (Int 1)) ;;
        t <- getattr module "prefill_time" ;;
        setattr module "prefill_time" (num_add t elapsed_prefill)
      else
        c <- getattr model "decode_count" ;;
        setattr model "decode_count" (num_add c (Int 1)) ;;
        t <- getattr model "decode_time" ;;
        setattr model "decode_time" (num_add t elapsed_prefill)
  end.

Definition register_forward_pre_hook (m : positive) (h : pre_hook) : M unit :=
  act (fun w => mkWorld (task_objs w) (attrs w) (forward_pre_hooks w ++ [(m, h)])
                        (forward_hooks w) (lm_task_dict w) (trace w)).

Definition register_forward_hook (m : positive) (h : post_hook) : M unit :=
  act (fun w => mkWorld (task_objs w) (attrs w) (forward_pre_hooks w)
                        (forward_hooks w ++ [(m, h)]) (lm_task_dict w) (trace w)).

(** Lines 32-56 *)
Definition set_statistics_modules (model : positive) : M unit :=
  setattr model "prefill_count" (Int 0) ;;
  setattr model "prefill_time" (Int 0) ;;
  setattr model "decode_time" (Int 0) ;;
  setattr model "decode_count" (Int 0) ;;
  register_forward_pre_hook model start_time_hook_of ;;
  register_forward_hook model (end_time_hook_of model).

(** One call of a module's forward: its keyword arguments and what
    [time.time()] reads in the hooks before and after it. *)
Record forward_call := mkCall {
  fc_kwargs : dict pyval;
  fc_clock_pre : Q;
  fc_clock_post : Q
}.

(** A sequence of steps, stopping at the first that raises. *)
Fixpoint sequence {A} (f : A -> M unit) (l : list A) : M unit :=
  match l with
  | [] => ret tt
  | x :: l' => f x ;; sequence f l'
  end.

(** torch runs the hooks registered on the module called, in the order
    of their registration, handing them that module. *)
Definition run_pre_hook (m : positive) (c : forward_call)
    (h : positive * pre_hook) : M unit :=
  if Pos.eqb (fst h) m then
    match snd h with
    | start_time_hook_of => start_time_hook m (fc_clock_pre c)
    end
  else ret tt.

Definition run_post_hook (m : positive) (c : forward_call)
    (h : positive * post_hook) : M unit :=
  if Pos.eqb (fst h) m then
    match snd h with
    | end_time_hook_of model => end_time_hook model m (fc_kwargs c) (fc_clock_post c)
    end
  else ret tt.

(** A call of the module [m] with keyword arguments. *)
Definition call_forward (m : positive) (c : forward_call) : M unit :=
  fun w =>
    (sequence (run_pre_hook m c) (forward_pre_hooks w) ;;
     sequence (run_post_hook m c) (forward_hooks w)) w.

Definition run_forward_calls (m : positive) (calls : list forward_call) : M unit :=
  sequence (call_forward m) calls.

(** The hooks registered on the module [m]. *)
Definition hooks_on {H : Type} (m : positive) (hooks : list (positive * H))
    : list (positive * H) :=
  filter (fun h => fst h = m) hooks.

(** The spec's reading of a call: prefill when its keyword arguments
    include an embedded-input tensor that is not [None], decode
    otherwise. *)
Definition is_prefill_call (c : forward_call) : bool :=
  match dict_get "inputs_embeds" (fc_kwargs c) with
  | Some v => is_not_None v
  | None => false
  end.

(** The call passes [inputs_embeds] as a keyword argument, be it
    [None]. *)
Definition passes_inputs_embeds (c : forward_call) : Prop :=
  dict_get "inputs_embeds" (fc_kwargs c) <> None.

(** [time.time()] did not step back between the two hooks of the call. *)
Definition clock_forward (c : forward_call) : Prop :=
  (fc_clock_pre c <= fc_clock_post c)%Q.

Definition prefill_calls (calls : list forward_call) : Z :=
  Z.of_nat (length (filter (fun c => is_prefill_call c = true) calls)).

(** The model carries the two hooks of [set_statistics_modules] and no
    other, and its four counters read [pc], [pt], [dc], [dt]. *)
Record instrumented (model : positive) (w : World)
    (pc : Z) (pt : num) (dc : Z) (dt : num) : Prop := mkInstrumented {
  inst_pre : hooks_on model (forward_pre_hooks w) = [(model, start_time_hook_of)];
  inst_post : hooks_on model (forward_hooks w) = [(model, end_time_hook_of model)];
  inst_prefill_count : attrs w !! (model, "prefill_count") = Some (Int pc);
  inst_prefill_time : attrs w !! (model, "prefill_time") = Some pt;
  inst_decode_count : attrs w !! (model, "decode_count") = Some (Int dc);
  inst_decode_time : attrs w !! (model, "decode_time") = Some dt
}.

(** ** The orchestrator: [VQAEval] *)

(** [x / y] on numbers: a [float], unless [y] is zero. *)
Definition num_div (a b : num) : option num :=
  if num_is_zero b then None else Some (num_quot a b).

(** [config.eval] and [config.model.path], as the constructor reads
    them. *)
Inductive name_cfg :=
| Name_str (s : string)
| Name_list (l : list string).

Record Config := mkConfig {
  cfg_name : name_cfg;                  (* config.eval['name'] *)
  cfg_path : string;                    (* config.eval['path'] *)
  cfg_bs : pyval;                       (* config.eval['bs'] *)
  cfg_statistics : option bool;         (* config.eval.get('statistics') *)
  cfg_model_path : string               (* config.model.path *)
}.

Record VQAEval := mkVQAEval {
  model_path : string;
  eval_dataset_name : list string;
  eval_dataset_path : string;
  eval_bs : pyval;
  statistics : bool
}.

(** Lines 19-30 *)
Definition __init__ (config : Config) : VQAEval :=
  let eval_dataset_name :=
    match cfg_name config with
    | Name_list l => l
    | Name_str s => [s]
    end in
  mkVQAEval (cfg_model_path config) eval_dataset_name (cfg_path config)
    (cfg_bs config)
    (match cfg_statistics config with Some b => b | None => false end).

Record LlmcModel := mkLlmcModel {
  eval_name : model_ref;                (* llmc_model.eval_name *)
  vlm_model : positive                  (* llmc_model.vlm_model *)
}.

(** The parameters of [eval] after [llmc_model]. *)
Module Args.
Record t := mk {
  eval_class : option string;
  model_args : option pyval;
  tasks : option (list pyval);
  num_fewshot : option Z;
  batch_size : option pyval;
  max_batch_size : option Z;
  device : option string;
  use_cache : option string;
  cache_requests : bool;
  rewrite_requests_cache : bool;
  delete_requests_cache : bool;
  limit : option pyval;
  bootstrap_iters : Z;
  check_integrity : bool;
  write_out : bool;
  log_samples : bool;
  evaluation_tracker : option positive;
  system_instruction : option string;
  apply_chat_template : bool;
  fewshot_as_multiturn : bool;
  gen_kwargs : option string;
  task_manager : option positive;
  verbosity : string;
  predict_only : bool;
  random_seed : option Z;
  numpy_random_seed : option Z;
  torch_random_seed : option Z;
  fewshot_random_seed : Z;
  datetime_str : string;
  cli_args : option pyval
}.
End Args.

(** The collaborators [eval] calls and cannot see into. *)
Record Env := mkEnv {
  simple_parse_args_string : string -> dict pyval;
  get_task_dict : list string -> task_manager_ref -> tree;
  (* MODEL_REGISTRY[model].create_from_arg_string(model_args,
       {'llmc_model': ..., 'batch_size': ..., 'device': ...}) *)
  MODEL_REGISTRY :
    model_ref -> option (string -> positive -> pyval -> option string -> Lm);
  (* the results of [evaluate] and the forward calls it makes on the model *)
  evaluate : evaluate_args -> (positive -> Task.t) -> dict pyval * list forward_call;
  max_memory_allocated : Z;             (* torch.cuda.max_memory_allocated() *)
  make_table : dict pyval -> string;
  (* the class of the exception a call into a collaborator raises in a
     given world, if it raises; the fields above say what the call returns
     if it does not *)
  upstream_error : event -> World -> option string
}.

Definition opt_str (o : option string) : pyval :=
  match o with Some s => PyStr s | None => PyNone end.
Definition opt_int (o : option Z) : pyval :=
  match o with Some z => PyInt z | None => PyNone end.
Definition opt_val (o : option pyval) : pyval :=
  match o with Some v => v | None => PyNone end.
Definition gen_kwargs_value (g : gen_kwargs_val) : pyval :=
  match g with
  | GK_none => PyNone
  | GK_empty_str => PyStr ""
  | GK_dict d => PyDict d
  end.

Section Eval.
Variable env : Env.
Variable self : VQAEval.
Variable llmc_model : LlmcModel.

(** The call [e], made earlier, comes back: it returns, or it raises what
    the collaborator raises. *)
Definition returned (e : event) : M unit :=
  fun w =>
    match upstream_error env e w with
    | Some cls => Raise (Upstream e cls) w
    | None => Ok tt w
    end.

(** A call into a collaborator. *)
Definition call (e : event) : M unit :=
  fun w => returned e (emit e w).

(** Lines 103-118 *)
Definition set_seeds (a : Args.t) : M unit :=
  let seed_message : list (string * Z) := [] in
  seed_message <-
    match Args.random_seed a with
    | Some s =>
        act (emit (Ev_random_seed s)) ;;
        ret (seed_message ++ [("random seed", s)])
    | None => ret seed_message
    end ;;
  seed_message <-
    match Args.numpy_random_seed a with
    | Some s =>
        call (Ev_numpy_seed s) ;;
        ret (seed_message ++ [("numpy seed", s)])
    | None => ret seed_message
    end ;;
  seed_message <-
    match Args.torch_random_seed a with
    | Some s =>
        call (Ev_torch_seed s) ;;
        ret (seed_message ++ [("torch manual seed", s)])
    | None => ret seed_message
    end ;;
  match seed_message with
  | [] => ret tt
  | _ => act (log INFO (Msg_seeds seed_message))
  end.

(** Lines 124-128 *)
Definition parse_gen_kwargs (a : Args.t) : M gen_kwargs_val :=
  match Args.gen_kwargs a with
  | None => ret GK_none
  | Some "" => ret GK_empty_str                         (* falsy *)
  | Some s =>
      call (Ev_simple_parse_args_string s) ;;
      let gen_kwargs := simple_parse_args_string env s in
      act (log WARNING Msg_gen_kwargs_cli) ;;
      (* a dict is never equal to '' *)
      ret (GK_dict gen_kwargs)
  end.

(** Lines 248-259 *)
Definition log_statistics : M unit :=
  if statistics self then
    pt <- getattr (vlm_model llmc_model) "prefill_time" ;;
    pc <- getattr (vlm_model llmc_model) "prefill_count" ;;
    match num_div pt pc with
    | None => raise ZeroDivisionError
    | Some prefill =>
        dt <- getattr (vlm_model llmc_model) "decode_time" ;;
        dc <- getattr (vlm_model llmc_model) "decode_count" ;;
        match num_div dt dc with
        | None => raise ZeroDivisionError
        | Some decode =>
            call Ev_max_memory_allocated ;;
            (* 1024 is not zero *)
            let gen_max_mem :=
              num_quot (num_quot (Int (max_memory_allocated env)) (Int 1024))
                (Int 1024) in
            act (log INFO (Msg_peak_memory (num_to_Q gen_max_mem))) ;;
            act (log INFO
                   (Msg_prefill_average (num_to_Q (num_mul prefill (Int 1000))))) ;;
            act (log INFO
                   (Msg_decode_average (num_to_Q (num_mul decode (Int 1000)))))
        end
    end
  else ret tt.

(** Lines 266-301: the mapping handed to [make_table]. *)
Definition report_results (lm : Lm) (model : model_ref) (model_args : string)
    (batch_size : pyval) (gen_kwargs : gen_kwargs_val) (a : Args.t)
    (results : dict pyval) : dict pyval :=
    let model_name :=
      match model with
      | Model_str s => s
      | Model_obj (Some name_or_path) _ => name_or_path
      | Model_obj None type_name => type_name
      end in
    let results :=
      dict_set "config"
        (PyDict [("model", PyStr model_name); ("model_args", PyStr model_args)])
        results in
    let results :=
      match dict_get "config" results with
      | Some (PyDict config) =>
          dict_set "config"
            (PyDict (dict_update config
               [("batch_size", batch_size);
                ("batch_sizes",
                 PyList (match batch_sizes lm with
                         | Some d => map snd d
                         | None => []
                         end));
                ("device", opt_str (Args.device a));
                ("use_cache", opt_str (Args.use_cache a));
                ("limit", opt_val (Args.limit a));
                ("bootstrap_iters", PyInt (Args.bootstrap_iters a));
                ("gen_kwargs", gen_kwargs_value gen_kwargs);
                ("random_seed", opt_int (Args.random_seed a));
                ("numpy_seed", opt_int (Args.numpy_random_seed a));
                ("torch_seed", opt_int (Args.torch_random_seed a));
                ("fewshot_seed", PyInt (Args.fewshot_random_seed a))]))
            results
      | _ => results
      end in
    dict_set "date" (PyStr (Args.datetime_str a)) results.

(** Lines 265-306: the value [eval] returns. *)
Definition report (lm : Lm) (model : model_ref) (model_args : string)
    (batch_size : pyval) (gen_kwargs : gen_kwargs_val) (a : Args.t)
    (results : dict pyval) : option string :=
  if rank lm =? 0 then
    Some (String "010"%char
            (make_table env
               (report_results lm model model_args batch_size gen_kwargs a
                  results)))
  else None.

(** Lines 232-246: the keyword arguments [evaluate] is called with. *)
Definition evaluate_kwargs (lm : Lm) (task_dict : tree) (a : Args.t)
    : evaluate_args :=
  mkEvaluateArgs lm task_dict (Args.limit a) (Args.cache_requests a)
    (Args.rewrite_requests_cache a) (Args.bootstrap_iters a)
    (Args.write_out a)
    (if Args.predict_only a then true else Args.log_samples a)
    (Args.system_instruction a) (Args.apply_chat_template a)
    (Args.fewshot_as_multiturn a) (Args.verbosity a) (Args.cli_args a).

(** Lines 58-306 *)
Definition eval (a : Args.t) : M (option string) :=
  let model := eval_name llmc_model in
  let model_args := Some ("pretrained=" +:+ model_path self +:+ ",device_map=auto") in
  let batch_size := eval_bs self in
  let tasks := eval_dataset_name self in
  let num_fewshot := Some 0 in
  set_seeds a ;;
  match tasks with
  | [] =>
      raise (AssertionError
        "No tasks specified, or no tasks found. Please verify the task names.")
  | _ =>
      gen_kwargs <- parse_gen_kwargs a ;;
      let model_args := match model_args with Some s => s | None => "" end in
      task_manager <-
        match Args.task_manager a with
        | None =>
            call (Ev_task_manager (Args.verbosity a) model) ;;
            ret (TM_new (Args.verbosity a) model)
        | Some tm => ret (TM_given tm)
        end ;;
      call (Ev_get_task_dict tasks task_manager) ;;
      let task_dict := get_task_dict env tasks task_manager in
      (if statistics self then
         set_statistics_modules (vlm_model llmc_model) ;;
         call Ev_reset_peak_memory_stats
       else ret tt) ;;
      match MODEL_REGISTRY env model with
      | None => raise (RegistryKeyError model)
      | Some create_from_arg_string =>
          call (Ev_create_lm model model_args (vlm_model llmc_model)
                  batch_size (Args.device a)) ;;
          let lm := create_from_arg_string model_args (vlm_model llmc_model)
                      batch_size (Args.device a) in
          act (set_lm_task_dict (init_task_dict lm)) ;;
          task_dict <-
            (fun w =>
               let '(d, w) :=
                 _adjust_config gen_kwargs (Args.predict_only a) num_fewshot
                   (Args.fewshot_random_seed a) task_dict w in
               Ok d w) ;;
          (if Args.check_integrity a then call (Ev_run_task_tests tasks)
           else ret tt) ;;
          match Args.evaluation_tracker a with
          | Some tracker =>
              call (Ev_log_experiment_args tracker
                (mkExperimentArgs model model_args (Args.system_instruction a)
                   (if Args.apply_chat_template a then chat_template lm else PyNone)
                   (Args.fewshot_as_multiturn a)))
          | None => ret tt
          end ;;
          let evaluate_call := evaluate_kwargs lm task_dict a in
          (* the evaluator makes its forward calls on the model, and then
             returns its results or raises *)
          act (emit (Ev_evaluate evaluate_call)) ;;
          out <- (fun w => Ok (evaluate env evaluate_call (task_objs w)) w) ;;
          let results := fst out in
          run_forward_calls (vlm_model llmc_model) (snd out) ;;
          returned (Ev_evaluate evaluate_call) ;;
          log_statistics ;;
          (if has_model lm then
             act (emit Ev_del_model) ;; call Ev_empty_cache
           else ret tt) ;;
          (if rank lm =? 0 then
             call (Ev_make_table
                     (report_results lm model model_args batch_size gen_kwargs a
                        results))
           else ret tt) ;;
          ret (report lm model model_args batch_size gen_kwargs a results)
      end
  end.

End Eval.

(** ** Predicates on runs of [eval] *)

(** Every computation step adds events to the trace; [emits Q m] says
    that all the events [m] adds satisfy [Q], whether [m] returns or
    raises. *)
Definition emits {A} (Q : event -> Prop) (m : M A) : Prop :=
  forall w, exists evs,
    trace (world_of (m w)) = trace w ++ evs /\ Forall Q evs.

(** The events of seeding: the three seeds and the line that logs them. *)
Definition seeding_event (e : event) : Prop :=
  match e with
  | Ev_random_seed _ | Ev_numpy_seed _ | Ev_torch_seed _ => True
  | Ev_log INFO (Msg_seeds _) => True
  | _ => False
  end.

(** Two argument records that differ at most in [model_args], [tasks],
    [num_fewshot] and [batch_size]. *)
Definition same_but_overwritten (a b : Args.t) : Prop :=
  Args.eval_class a = Args.eval_class b
  /\ Args.max_batch_size a = Args.max_batch_size b
  /\ Args.device a = Args.device b
  /\ Args.use_cache a = Args.use_cache b
  /\ Args.cache_requests a = Args.cache_requests b
  /\ Args.rewrite_requests_cache a = Args.rewrite_requests_cache b
  /\ Args.delete_requests_cache a = Args.delete_requests_cache b
  /\ Args.limit a = Args.limit b
  /\ Args.bootstrap_iters a = Args.bootstrap_iters b
  /\ Args.check_integrity a = Args.check_integrity b
  /\ Args.write_out a = Args.write_out b
  /\ Args.log_samples a = Args.log_samples b
  /\ Args.evaluation_tracker a = Args.evaluation_tracker b
  /\ Args.system_instruction a = Args.system_instruction b
  /\ Args.apply_chat_template a = Args.apply_chat_template b
  /\ Args.fewshot_as_multiturn a = Args.fewshot_as_multiturn b
  /\ Args.gen_kwargs a = Args.gen_kwargs b
  /\ Args.task_manager a = Args.task_manager b
  /\ Args.verbosity a = Args.verbosity b
  /\ Args.predict_only a = Args.predict_only b
  /\ Args.random_seed a = Args.random_seed b
  /\ Args.numpy_random_seed a = Args.numpy_random_seed b
  /\ Args.torch_random_seed a = Args.torch_random_seed b
  /\ Args.fewshot_random_seed a = Args.fewshot_random_seed b
  /\ Args.datetime_str a = Args.datetime_str b
  /\ Args.cli_args a = Args.cli_args b.

(** What a run of [eval] on [self] with the arguments [a] lets its events
    be: the few-shot count it sets is 0; the task list, the model
    arguments and the batch size it hands on are those of the constructor;
    the seed it sets is [fewshot_random_seed]; the evaluator is called
    with the log-samples flag of line 240. *)
Definition eval_event (self : VQAEval) (a : Args.t) (e : event) : Prop :=
  match e with
  | Ev_set_num_fewshot _ v => v = 0
  | Ev_set_fewshot_seed _ s => s = Args.fewshot_random_seed a
  | Ev_get_task_dict tasks _ => tasks = eval_dataset_name self
  | Ev_run_task_tests tasks => tasks = eval_dataset_name self
  | Ev_create_lm _ model_args _ batch_size _ =>
      model_args = "pretrained=" +:+ model_path self +:+ ",device_map=auto"
      /\ batch_size = eval_bs self
  | Ev_evaluate ea =>
      ea_log_samples ea
      = (if Args.predict_only a then true else Args.log_samples a)
  | _ => True
  end.

(** The part of it about the four overwritten parameters. *)
Definition overwritten_event (self : VQAEval) (e : event) : Prop :=
  match e with
  | Ev_set_num_fewshot _ v => v = 0
  | Ev_get_task_dict tasks _ => tasks = eval_dataset_name self
  | Ev_run_task_tests tasks => tasks = eval_dataset_name self
  | Ev_create_lm _ model_args _ batch_size _ =>
      model_args = "pretrained=" +:+ model_path self +:+ ",device_map=auto"
      /\ batch_size = eval_bs self
  | _ => True
  end.

(** The evaluator is called with the log-samples flag set. *)
Definition logs_samples (e : event) : Prop :=
  match e with
  | Ev_evaluate ea => ea_log_samples ea = true
  | _ => True
  end.

(** Two task objects with the same configuration for inference: all but
    the metric. *)
Definition same_inference_config (x y : Task.t) : Prop :=
  Task.dataset x = Task.dataset y
  /\ Task.output_type x = Task.output_type y
  /\ Task.num_fewshot x = Task.num_fewshot y
  /\ Task.generation_kwargs x = Task.generation_kwargs y
  /\ Task.fewshot_seed x = Task.fewshot_seed y.

(** A tree as the evaluator expects it: groups and task objects, no
    tuple left. *)
Fixpoint plain (n : node) : Prop :=
  match n with
  | Group sub => fold_right (fun kv acc => plain (snd kv) /\ acc) True sub
  | Pair _ _ => False
  | Leaf _ => True
  end.

(** A line of the logger. *)
Definition is_log (e : event) : Prop :=
  match e with
  | Ev_log _ _ => True
  | _ => False
  end.

(** The time the post-call hook computes for a call: the difference of
    the two readings of the clock, as a double. *)
Definition elapsed (c : forward_call) : num :=
  num_sub (Float (fc_clock_post c)) (Float (fc_clock_pre c)).

(** The calls with embedded inputs ([prefill = true]) or the others, in
    their order. *)
Definition calls_of_kind (prefill : bool) (calls : list forward_call)
    : list forward_call :=
  filter (fun c => is_prefill_call c = prefill) calls.

(** What [t += e] makes of the counter [t] over the times [es], one
    after the other: a sum in floating point, rounded at every step. *)
Definition accumulate (t : num) (es : list num) : num :=
  fold_left num_add es t.

(** The cumulative time of the calls of a kind, from the counter 0 that
    [set_statistics_modules] sets. *)
Definition cumulative (prefill : bool) (calls : list forward_call) : num :=
  accumulate (Int 0) (map elapsed (calls_of_kind prefill calls)).

(** [t / n * 1000], as lines 249-259 compute it: the value the log line
    formats. *)
Definition average_ms (t : num) (n : Z) : Q :=
  num_to_Q (num_mul (num_quot t (Int n)) (Int 1000)).

(** The number is an [int] no double rounds, or a [float] that is a
    double. *)
Definition is_double (n : num) : Prop :=
  (round64 (num_to_Q n) == num_to_Q n)%Q.

(** The model carries [n] pairs of the hooks of [set_statistics_modules],
    one for each time it was instrumented, and its two counts read [pc]
    and [dc]. *)
Record installed (n : nat) (model : positive) (w : World) (pc dc : Z)
    : Prop := mkInstalled {
  inst_n_pre :
    hooks_on model (forward_pre_hooks w)
    = replicate n (model, start_time_hook_of);
  inst_n_post :
    hooks_on model (forward_hooks w)
    = replicate n (model, end_time_hook_of model);
  inst_n_prefill_count : attrs w !! (model, "prefill_count") = Some (Int pc);
  inst_n_prefill_time : is_Some (attrs w !! (model, "prefill_time"));
  inst_n_decode_count : attrs w !! (model, "decode_count") = Some (Int dc);
  inst_n_decode_time : is_Some (attrs w !! (model, "decode_time"))
}.

(** [raises P m]: every exception [m] can end with satisfies [P]. *)
Definition raises {A} (P : exn -> Prop) (m : M A) : Prop :=
  forall w e w', m w = Raise e w' -> P e.

(** The exceptions of [eval] and what each tells about the run. *)
Definition eval_exception (env : Env) (self : VQAEval)
    (llmc_model : LlmcModel) (e : exn) : Prop :=
  match e with
  | AssertionError _ => eval_dataset_name self = []
  | RegistryKeyError model =>
      eval_dataset_name self <> []
      /\ model = eval_name llmc_model
      /\ MODEL_REGISTRY env model = None
  | KeyError key => eval_dataset_name self <> [] /\ key = "inputs_embeds"
  | AttributeError _ _ => eval_dataset_name self <> []
  | ZeroDivisionError =>
      eval_dataset_name self <> [] /\ statistics self = true
  | Upstream (Ev_numpy_seed _) _ | Upstream (Ev_torch_seed _) _ => True
  | Upstream _ _ => eval_dataset_name self <> []
  end.

(** No call into a collaborator that satisfies [P] raises. *)
Definition accepts (env : Env) (P : event -> Prop) : Prop :=
  forall e w, P e -> upstream_error env e w = None.

(** The two seeding calls that can raise, with the seeds of the
    arguments [a]. *)
Definition seed_call (a : Args.t) (e : event) : Prop :=
  match e with
  | Ev_numpy_seed s => Args.numpy_random_seed a = Some s
  | Ev_torch_seed s => Args.torch_random_seed a = Some s
  | _ => False
  end.

(** The calls of a run of [eval] with the arguments [a]: seeding with
    the seeds of [a], parsing the [gen_kwargs] of [a], and any call of
    another kind. *)
Definition own_call (a : Args.t) (e : event) : Prop :=
  match e with
  | Ev_numpy_seed s => Args.numpy_random_seed a = Some s
  | Ev_torch_seed s => Args.torch_random_seed a = Some s
  | Ev_simple_parse_args_string s => Args.gen_kwargs a = Some s
  | _ => True
  end.

(** [w'] differs from [w] in its trace at most, which has grown. *)
Definition only_traces (w w' : World) : Prop :=
  task_objs w' = task_objs w
  /\ attrs w' = attrs w
  /\ forward_pre_hooks w' = forward_pre_hooks w
  /\ forward_hooks w' = forward_hooks w
  /\ lm_task_dict w' = lm_task_dict w
  /\ exists evs, trace w' = trace w ++ evs.

(** [m] returns, and changes nothing but the trace. *)
Definition traces_only {A} (m : M A) : Prop :=
  forall w, exists a w', m w = Ok a w' /\ only_traces w w'.

(** [hoare P m Q E]: from a world that satisfies [P], [m] returns a value
    and a world that satisfy [Q], or raises an exception and leaves a
    world that satisfy [E]. *)
Definition hoare {A} (P : World -> Prop) (m : M A)
    (Q : A -> World -> Prop) (E : exn -> World -> Prop) : Prop :=
  forall w, P w ->
    match m w with
    | Ok a w' => Q a w'
    | Raise e w' => E e w'
    end.

(** An assertion that no growth of the trace undoes. *)
Definition stable (Q : World -> Prop) : Prop :=
  forall w w', Q w -> only_traces w w' -> Q w'.

(** No hook is registered on the module [m]. *)
Definition no_hooks (m : positive) (w : World) : Prop :=
  hooks_on m (forward_pre_hooks w) = []
  /\ hooks_on m (forward_hooks w) = [].

(** The attributes and the hooks of the modules are those of [w0]. *)
Definition same_modules (w0 w : World) : Prop :=
  attrs w = attrs w0
  /\ forward_pre_hooks w = forward_pre_hooks w0
  /\ forward_hooks w = forward_hooks w0.

(** The calls without embedded inputs among [calls]. *)
Definition decode_calls (calls : list forward_call) : Z :=
  Z.of_nat (length calls) - prefill_calls calls.

(** The trace of [w] is the trace of [w0] and more. *)
Definition extends (w0 w : World) : Prop :=
  exists evs, trace w = trace w0 ++ evs.

(** The event [e] was recorded between [w0] and [w]. *)
Definition happened (w0 : World) (e : event) (w : World) : Prop :=
  exists evs, trace w = trace w0 ++ evs /\ e ∈ evs.

(** Two argument records that differ at most in [eval_class],
    [max_batch_size] and [delete_requests_cache]. *)
Definition same_but_unread (a b : Args.t) : Prop :=
  Args.model_args a = Args.model_args b
  /\ Args.tasks a = Args.tasks b
  /\ Args.num_fewshot a = Args.num_fewshot b
  /\ Args.batch_size a = Args.batch_size b
  /\ Args.device a = Args.device b
  /\ Args.use_cache a = Args.use_cache b
  /\ Args.cache_requests a = Args.cache_requests b
  /\ Args.rewrite_requests_cache a = Args.rewrite_requests_cache b
  /\ Args.limit a = Args.limit b
  /\ Args.bootstrap_iters a = Args.bootstrap_iters b
  /\ Args.check_integrity a = Args.check_integrity b
  /\ Args.write_out a = Args.write_out b
  /\ Args.log_samples a = Args.log_samples b
  /\ Args.evaluation_tracker a = Args.evaluation_tracker b
  /\ Args.system_instruction a = Args.system_instruction b
  /\ Args.apply_chat_template a = Args.apply_chat_template b
  /\ Args.fewshot_as_multiturn a = Args.fewshot_as_multiturn b
  /\ Args.gen_kwargs a = Args.gen_kwargs b
  /\ Args.task_manager a = Args.task_manager b
  /\ Args.verbosity a = Args.verbosity b
  /\ Args.predict_only a = Args.predict_only b
  /\ Args.random_seed a = Args.random_seed b
  /\ Args.numpy_random_seed a = Args.numpy_random_seed b
  /\ Args.torch_random_seed a = Args.torch_random_seed b
  /\ Args.fewshot_random_seed a = Args.fewshot_random_seed b
  /\ Args.datetime_str a = Args.datetime_str b
  /\ Args.cli_args a = Args.cli_args b.

(** The value of [gen_kwargs] after lines 124-128. *)
Definition parsed_gen_kwargs (env : Env) (a : Args.t) : gen_kwargs_val :=
  match Args.gen_kwargs a with
  | None => GK_none
  | Some "" => GK_empty_str
  | Some s => GK_dict (simple_parse_args_string env s)
  end.

(** What [eval] makes of the task objects [objs] at the leaves of the
    tree [d]: zero-shot, seeded, and without metrics in predict-only
    mode. *)
Definition leaves_ready (a : Args.t) (d : tree) (objs : positive -> Task.t)
    : Prop :=
  forall o, o ∈ leaves d ->
    Task.num_fewshot (objs o) = Some 0
    /\ Task.fewshot_seed (objs o) = Some (Args.fewshot_random_seed a)
    /\ (Args.predict_only a = true -> Task.metric_list (objs o) = ["bypass"]).

(** The events of a run that ends at the lookup of the model: seeding,
    the logger, the parser of [gen_kwargs], the task manager, the task
    lookup and the reset of the memory counter. *)
Definition before_adapter (e : event) : Prop :=
  match e with
  | Ev_random_seed _ | Ev_numpy_seed _ | Ev_torch_seed _ | Ev_log _ _
  | Ev_simple_parse_args_string _
  | Ev_task_manager _ _ | Ev_get_task_dict _ _
  | Ev_reset_peak_memory_stats => True
  | _ => False
  end.

(** ** Concrete inputs *)

Module Examples.

(** A generating task without a few-shot default, and a task set to
    zero-shot in its configuration. *)
Definition vqa_task : Task.t :=
  Task.mk 1 "generate_until" None [("max_new_tokens", PyInt 16)]
    ["exact_match"] None.

Definition zero_shot_task : Task.t :=
  Task.mk 2 "multiple_choice" (Some 0) [] ["acc"] None.

Definition objs : positive -> Task.t :=
  fun o => if Pos.eqb o 2 then zero_shot_task else vqa_task.

Definition world : World := mkWorld objs ∅ [] [] [] [].

(** [taskA] is a task object; the group holds a tuple without a task and
    one with the task object 2. *)
Definition task_dict : tree :=
  [("taskA", Leaf 1);
   ("group", Group [("gone", Pair "group" None);
                    ("taskB", Pair "group" (Some 2%positive))])].

(** The module 9 after [set_statistics_modules]. *)
Definition instrumented_world : World :=
  world_of (set_statistics_modules 9 world).

(** A first call with embedded inputs, a later call without them, a call
    that does not pass the keyword, and a call during which the clock is
    set back. *)
Definition prefill_call : forward_call :=
  mkCall [("inputs_embeds", PyObj 7)] 0 2.
Definition decode_call : forward_call :=
  mkCall [("input_ids", PyObj 8); ("inputs_embeds", PyNone)] 2 3.
Definition bare_call : forward_call :=
  mkCall [("input_ids", PyObj 8)] 2 3.
Definition clock_set_back_call : forward_call :=
  mkCall [("inputs_embeds", PyObj 7)] 5 3.

(** The defaults of the signature of [eval]. *)
Definition default_args : Args.t :=
  Args.mk None None None None None None None None false false false None
    100000 false false true None None false false None None "INFO" false
    (Some 0) (Some 1234) (Some 1234) 1234 "2024-01-01" None.

(** Collaborators: a registry that knows the model 'Llava' and builds an
    adapter of rank 0, a task registry that returns [task_dict], an
    evaluator that makes one prefill and one decode call.  Three calls
    raise: [np.random.seed] on a seed outside [0, 2^32 - 1],
    [torch.manual_seed] on a seed outside [-2^63, 2^64 - 1], and the
    parser on a string without '='. *)
Definition lm0 : Lm := mkLm 0 true None PyNone [].

Definition raising (e : event) (w : World) : option string :=
  match e with
  | Ev_numpy_seed s =>
      if (0 <=? s) && (s <? 2 ^ 32) then None else Some "ValueError"
  | Ev_torch_seed s =>
      if (- 2 ^ 63 <=? s) && (s <? 2 ^ 64) then None else Some "RuntimeError"
  | Ev_simple_parse_args_string s =>
      if str_contains "=" s then None else Some "ValueError"
  | _ => None
  end.

Definition env : Env :=
  mkEnv (fun _ => [("temperature", PyInt 0)])
        (fun _ _ => task_dict)
        (fun m => match m with
                  | Model_str "Llava" => Some (fun _ _ _ _ => lm0)
                  | _ => None
                  end)
        (fun _ _ => ([("results", PyDict [])], [prefill_call; decode_call]))
        1048576
        (fun _ => "table")
        raising.

Definition llava : LlmcModel := mkLlmcModel (Model_str "Llava") 9.

(** An evaluator configured with the one task 'taskA', and one configured
    with an empty list of names. *)
Definition vqa_eval : VQAEval :=
  __init__ (mkConfig (Name_str "taskA") "/data" (PyInt 4) None "/models/x").

Definition vqa_eval_no_tasks : VQAEval :=
  __init__ (mkConfig (Name_list []) "/data" (PyInt 4) None "/models/x").

(** The same evaluator with the statistics flag, and an evaluator whose
    evaluation makes prefill calls only. *)
Definition vqa_eval_statistics : VQAEval :=
  __init__ (mkConfig (Name_str "taskA") "/data" (PyInt 4) (Some true)
              "/models/x").

Definition env_prefill_only : Env :=
  mkEnv (simple_parse_args_string env) (get_task_dict env) (MODEL_REGISTRY env)
        (fun _ _ => ([("results", PyDict [])], [prefill_call; prefill_call]))
        (max_memory_allocated env) (make_table env) (upstream_error env).

Definition env_unregistered : Env :=
  mkEnv (simple_parse_args_string env) (get_task_dict env) (fun _ => None)
        (evaluate env) (max_memory_allocated env) (make_table env)
        (upstream_error env).

End Examples.

(** * Properties *)

(** ** Dictionaries *)

Section DictFacts.
Context {V : Type}.
Implicit Types (d : dict V) (k : string) (v : V).

Lemma dict_get_set_eq k v d : dict_get k (dict_set k v d) = Some v.
Proof.
  induction d as [| [k' v'] d IH]; simpl.
  - now rewrite String.eqb_refl.
  - destruct (String.eqb k k') eqn:E; simpl; rewrite E; auto.
Qed.

Lemma dict_get_set_ne k k' v d :
  k <> k' -> dict_get k' (dict_set k v d) = dict_get k' d.
Proof.
  intros Hne. induction d as [| [k0 v0] d IH]; simpl.
  - destruct (String.eqb k' k) eqn:E; auto.
    apply String.eqb_eq in E. congruence.
  - destruct (String.eqb k k0) eqn:E; simpl.
    + apply String.eqb_eq in E. subst k0.
      destruct (String.eqb k' k) eqn:E'; auto.
      apply String.eqb_eq in E'. congruence.
    + now rewrite IH.
Qed.

Lemma dict_get_None_keys k d : dict_get k d = None <-> k ∉ keys d.
Proof.
  induction d as [| [k' v'] d IH]; simpl.
  - split; [intros _; apply not_elem_of_nil | reflexivity].
  - rewrite not_elem_of_cons. destruct (String.eqb k k') eqn:E.
    + apply String.eqb_eq in E. subst. split; [discriminate | tauto].
    + apply String.eqb_neq in E. rewrite IH. tauto.
Qed.

Lemma dict_set_fresh k v d : k ∉ keys d -> dict_set k v d = d ++ [(k, v)].
Proof.
  induction d as [| [k' v'] d IH]; simpl; intros Hk; auto.
  apply not_elem_of_cons in Hk as [Hne Hk].
  destruct (String.eqb k k') eqn:E.
  - apply String.eqb_eq in E. congruence.
  - now rewrite IH.
Qed.

Lemma keys_dict_set k v d :
  keys (dict_set k v d) =
  match dict_get k d with Some _ => keys d | None => keys d ++ [k] end.
Proof.
  induction d as [| [k' v'] d IH]; simpl; auto.
  destruct (String.eqb k k') eqn:E; simpl; auto.
  rewrite IH. now destruct (dict_get k d).
Qed.

Lemma dict_update_cons d k v o :
  dict_update d ((k, v) :: o) = dict_update (dict_set k v d) o.
Proof. reflexivity. Qed.

(** After [d.update(o)] a key that [o] does not hold reads as before. *)
Lemma dict_get_update_None k d o :
  dict_get k o = None -> dict_get k (dict_update d o) = dict_get k d.
Proof.
  revert d. induction o as [| [k' v'] o IH]; intros d Ho; auto.
  simpl in Ho. destruct (String.eqb k k') eqn:E; [discriminate |].
  rewrite dict_update_cons, IH by exact Ho.
  apply dict_get_set_ne. apply String.eqb_neq in E. congruence.
Qed.

(** After [d.update(o)] a key of [o] reads as in [o]. *)
Lemma dict_get_update_Some k v d o :
  NoDup (keys o) -> dict_get k o = Some v ->
  dict_get k (dict_update d o) = Some v.
Proof.
  revert d. induction o as [| [k' v'] o IH]; intros d Hnd Ho; [discriminate |].
  inversion Hnd as [| ? ? Hnotin Hnd']; subst.
  simpl in Ho. rewrite dict_update_cons.
  destruct (String.eqb k k') eqn:E.
  - injection Ho as ->. apply String.eqb_eq in E. subst k'.
    rewrite dict_get_update_None.
    + apply dict_get_set_eq.
    + now apply dict_get_None_keys.
  - now apply IH.
Qed.

End DictFacts.

(** ** Task trees *)

(** Induction on a node, with the hypothesis for every child of a group. *)
Lemma node_ind (P : node -> Prop) :
  (forall sub, Forall (fun kv => P (snd kv)) sub -> P (Group sub)) ->
  (forall group task, P (Pair group task)) ->
  (forall task, P (Leaf task)) ->
  forall n, P n.
Proof.
  intros HG HP HL.
  fix IH 1. intros [sub | g t | o].
  - apply HG. induction sub as [| [k c] sub IHsub]; constructor.
    + apply IH.
    + exact IHsub.
  - apply HP.
  - apply HL.
Qed.

Lemma for_items_cons {S V} (body : S -> string -> V -> S) k v d s :
  for_items body ((k, v) :: d) s = for_items body d (body s k v).
Proof. reflexivity. Qed.

Lemma events_since_app w w' evs :
  trace w' = trace w ++ evs -> events_since w w' = evs.
Proof.
  intros H. unfold events_since. rewrite H. apply drop_app_length.
Qed.

Lemma seeded_app evs1 evs2 : seeded (evs1 ++ evs2) = seeded evs1 ++ seeded evs2.
Proof. unfold seeded. apply flat_map_app. Qed.

(** ** One leaf *)

Lemma on_task_objs o f w o' :
  task_objs (on_task o f w) o' =
  if decide (o = o') then f (task_objs w o) else task_objs w o'.
Proof. reflexivity. Qed.

Section LeafFacts.
Variable gen_kwargs : gen_kwargs_val.
Variable predict_only : bool.
Variable num_fewshot : option Z.
Variable seed : Z.

Lemma set_generation_objs name o w o' :
  task_objs (set_generation gen_kwargs name o w) o' =
  if decide (o = o') then with_generation gen_kwargs (task_objs w o)
  else task_objs w o'.
Proof.
  unfold set_generation, with_generation. cbn [task_objs set_lm_task_dict].
  destruct (str_contains "generate_until" (Task.output_type (task_objs w o)));
    [destruct gen_kwargs |]; rewrite ?on_task_objs; cbn [task_objs emit];
    case_decide; subst; reflexivity.
Qed.

Lemma set_predict_only_objs name o w o' :
  task_objs (set_predict_only predict_only name o w) o' =
  if decide (o = o') then with_predict_only predict_only (task_objs w o)
  else task_objs w o'.
Proof.
  unfold set_predict_only, with_predict_only.
  destruct predict_only; rewrite ?on_task_objs; cbn [task_objs emit log];
    case_decide; subst; reflexivity.
Qed.

Lemma set_fewshot_objs name o w o' :
  task_objs (set_fewshot num_fewshot name o w) o' =
  if decide (o = o') then with_fewshot num_fewshot (task_objs w o)
  else task_objs w o'.
Proof.
  unfold set_fewshot, with_fewshot.
  destruct num_fewshot as [n |];
    destruct (Task.num_fewshot (task_objs w o)) as [[| p | p] |];
    rewrite ?on_task_objs; cbn [task_objs emit log];
    case_decide; subst; reflexivity.
Qed.

Lemma set_seed_objs o w o' :
  task_objs (set_seed seed o w) o' =
  if decide (o = o') then Task.set_fewshot_seed seed (task_objs w o)
  else task_objs w o'.
Proof. reflexivity. Qed.

(** The task object worked on becomes [adjusted_task] of itself; every
    other object is left as it is. *)
Lemma adjust_leaf_objs name o w o' :
  task_objs (adjust_leaf gen_kwargs predict_only num_fewshot seed name o w) o' =
  if decide (o = o')
  then adjusted_task gen_kwargs predict_only num_fewshot seed (task_objs w o)
  else task_objs w o'.
Proof.
  unfold adjust_leaf, adjusted_task.
  rewrite set_seed_objs.
  destruct (decide (o = o')) as [<- | Hne].
  - rewrite set_fewshot_objs, set_predict_only_objs, set_generation_objs.
    now rewrite !decide_True by reflexivity.
  - rewrite set_fewshot_objs, decide_False by exact Hne.
    rewrite set_predict_only_objs, decide_False by exact Hne.
    now rewrite set_generation_objs, decide_False by exact Hne.
Qed.

End LeafFacts.

(** The fields of the adjusted task object. *)
Section AdjustedTaskFacts.
Variable gen_kwargs : gen_kwargs_val.
Variable predict_only : bool.
Variable num_fewshot : option Z.
Variable seed : Z.
Implicit Type x : Task.t.

Lemma with_generation_num_fewshot x :
  Task.num_fewshot (with_generation gen_kwargs x) = Task.num_fewshot x.
Proof.
  unfold with_generation.
  destruct (str_contains _ _); [destruct gen_kwargs |]; reflexivity.
Qed.

Lemma with_predict_only_num_fewshot x :
  Task.num_fewshot (with_predict_only predict_only x) = Task.num_fewshot x.
Proof. unfold with_predict_only. destruct predict_only; reflexivity. Qed.

Lemma with_fewshot_num_fewshot x :
  Task.num_fewshot (with_fewshot num_fewshot x) =
  match num_fewshot, Task.num_fewshot x with
  | Some n, Some 0 => Some 0
  | Some n, _ => Some n
  | None, None => Some 0
  | None, Some d => Some d
  end.
Proof.
  unfold with_fewshot.
  destruct num_fewshot as [n |], (Task.num_fewshot x) as [[| p | p] |] eqn:E;
    simpl; auto.
Qed.

Lemma adjusted_task_num_fewshot x :
  Task.num_fewshot (adjusted_task gen_kwargs predict_only num_fewshot seed x) =
  match num_fewshot, Task.num_fewshot x with
  | Some n, Some 0 => Some 0
  | Some n, _ => Some n
  | None, None => Some 0
  | None, Some d => Some d
  end.
Proof.
  unfold adjusted_task. cbn [Task.set_fewshot_seed Task.num_fewshot].
  now rewrite with_fewshot_num_fewshot, with_predict_only_num_fewshot,
    with_generation_num_fewshot.
Qed.

Lemma adjusted_task_fewshot_seed x :
  Task.fewshot_seed (adjusted_task gen_kwargs predict_only num_fewshot seed x)
  = Some seed.
Proof. reflexivity. Qed.

Lemma with_fewshot_frame x :
  let y := with_fewshot num_fewshot x in
  Task.dataset y = Task.dataset x /\ Task.output_type y = Task.output_type x
  /\ Task.generation_kwargs y = Task.generation_kwargs x
  /\ Task.metric_list y = Task.metric_list x.
Proof.
  unfold with_fewshot.
  destruct num_fewshot as [n |], (Task.num_fewshot x) as [[| p | p] |];
    simpl; auto.
Qed.

Lemma with_predict_only_frame x :
  let y := with_predict_only predict_only x in
  Task.dataset y = Task.dataset x /\ Task.output_type y = Task.output_type x
  /\ Task.generation_kwargs y = Task.generation_kwargs x.
Proof. unfold with_predict_only. destruct predict_only; simpl; auto. Qed.

Lemma with_generation_frame x :
  let y := with_generation gen_kwargs x in
  Task.dataset y = Task.dataset x /\ Task.output_type y = Task.output_type x
  /\ Task.metric_list y = Task.metric_list x.
Proof.
  unfold with_generation.
  destruct (str_contains _ _); [destruct gen_kwargs |]; simpl; auto.
Qed.

Lemma adjusted_task_dataset x :
  Task.dataset (adjusted_task gen_kwargs predict_only num_fewshot seed x)
  = Task.dataset x.
Proof.
  unfold adjusted_task. cbn [Task.set_fewshot_seed Task.dataset].
  destruct (with_fewshot_frame
              (with_predict_only predict_only (with_generation gen_kwargs x)))
    as (-> & _).
  destruct (with_predict_only_frame (with_generation gen_kwargs x)) as (-> & _).
  now destruct (with_generation_frame x) as (-> & _).
Qed.

Lemma adjusted_task_output_type x :
  Task.output_type (adjusted_task gen_kwargs predict_only num_fewshot seed x)
  = Task.output_type x.
Proof.
  unfold adjusted_task. cbn [Task.set_fewshot_seed Task.output_type].
  destruct (with_fewshot_frame
              (with_predict_only predict_only (with_generation gen_kwargs x)))
    as (_ & -> & _).
  destruct (with_predict_only_frame (with_generation gen_kwargs x))
    as (_ & -> & _).
  now destruct (with_generation_frame x) as (_ & -> & _).
Qed.

Lemma adjusted_task_generation_kwargs x :
  Task.generation_kwargs
    (adjusted_task gen_kwargs predict_only num_fewshot seed x)
  = Task.generation_kwargs (with_generation gen_kwargs x).
Proof.
  unfold adjusted_task. cbn [Task.set_fewshot_seed Task.generation_kwargs].
  destruct (with_fewshot_frame
              (with_predict_only predict_only (with_generation gen_kwargs x)))
    as (_ & _ & -> & _).
  now destruct (with_predict_only_frame (with_generation gen_kwargs x))
    as (_ & _ & ->).
Qed.

Lemma adjusted_task_metric_list x :
  Task.metric_list (adjusted_task gen_kwargs predict_only num_fewshot seed x)
  = if predict_only then ["bypass"] else Task.metric_list x.
Proof.
  unfold adjusted_task. cbn [Task.set_fewshot_seed Task.metric_list].
  destruct (with_fewshot_frame
              (with_predict_only predict_only (with_generation gen_kwargs x)))
    as (_ & _ & _ & ->).
  unfold with_predict_only. destruct predict_only; [reflexivity |].
  now destruct (with_generation_frame x) as (_ & _ & ->).
Qed.

End AdjustedTaskFacts.

(** The trace and [lm.task_dict] after one leaf. *)
Section LeafTrace.
Variable gen_kwargs : gen_kwargs_val.
Variable predict_only : bool.
Variable num_fewshot : option Z.
Variable seed : Z.

Lemma set_generation_trace name o w :
  trace (set_generation gen_kwargs name o w) =
  trace w ++ generation_events gen_kwargs o (task_objs w o).
Proof.
  unfold set_generation, generation_events. cbn [task_objs set_lm_task_dict].
  destruct (str_contains _ _); [destruct gen_kwargs |]; simpl;
    rewrite ?app_nil_r; reflexivity.
Qed.

Lemma set_predict_only_trace name o w :
  trace (set_predict_only predict_only name o w) =
  trace w ++ predict_only_events predict_only name o.
Proof.
  unfold set_predict_only, predict_only_events.
  destruct predict_only; simpl; rewrite ?app_nil_r, <- ?app_assoc; reflexivity.
Qed.

Lemma set_fewshot_trace name o w :
  trace (set_fewshot num_fewshot name o w) =
  trace w ++ fewshot_events num_fewshot name o (task_objs w o).
Proof.
  unfold set_fewshot, fewshot_events.
  destruct num_fewshot as [n |], (Task.num_fewshot (task_objs w o)) as [[| p | p] |];
    simpl; rewrite ?app_nil_r, <- ?app_assoc; reflexivity.
Qed.

Lemma fewshot_events_ext name o x y :
  Task.num_fewshot x = Task.num_fewshot y ->
  fewshot_events num_fewshot name o x = fewshot_events num_fewshot name o y.
Proof. unfold fewshot_events. now intros ->. Qed.

Lemma adjust_leaf_trace name o w :
  trace (adjust_leaf gen_kwargs predict_only num_fewshot seed name o w) =
  trace w
  ++ leaf_events gen_kwargs predict_only num_fewshot seed name o (task_objs w o).
Proof.
  unfold adjust_leaf, leaf_events, set_seed. cbn [trace on_task emit].
  rewrite set_fewshot_trace, set_predict_only_trace, set_generation_trace.
  rewrite set_predict_only_objs, set_generation_objs.
  rewrite !decide_True by reflexivity.
  rewrite (fewshot_events_ext name o _ (task_objs w o)).
  - now rewrite <- !app_assoc.
  - now rewrite with_predict_only_num_fewshot, with_generation_num_fewshot.
Qed.

Lemma adjust_leaf_lm_task_dict name o w :
  lm_task_dict (adjust_leaf gen_kwargs predict_only num_fewshot seed name o w) =
  dict_set name (Task.dataset (task_objs w o)) (lm_task_dict w).
Proof.
  unfold adjust_leaf, set_seed, set_fewshot, set_predict_only, set_generation.
  cbn [task_objs set_lm_task_dict].
  repeat match goal with
         | |- context [match ?c with _ => _ end] => destruct c
         end; reflexivity.
Qed.

Lemma adjust_leaf_frame name o w :
  let w' := adjust_leaf gen_kwargs predict_only num_fewshot seed name o w in
  attrs w' = attrs w /\ forward_pre_hooks w' = forward_pre_hooks w
  /\ forward_hooks w' = forward_hooks w.
Proof.
  unfold adjust_leaf, set_seed, set_fewshot, set_predict_only, set_generation.
  cbn [task_objs set_lm_task_dict].
  repeat match goal with
         | |- context [match ?c with _ => _ end] => destruct c
         end; auto.
Qed.

Lemma seeded_leaf_events name o x :
  seeded (leaf_events gen_kwargs predict_only num_fewshot seed name o x) = [o].
Proof.
  unfold leaf_events, generation_events, predict_only_events, fewshot_events.
  rewrite !seeded_app.
  destruct (str_contains _ _); [destruct gen_kwargs |];
    destruct predict_only;
    destruct num_fewshot as [n |], (Task.num_fewshot x) as [[| p | p] |];
    reflexivity.
Qed.

End LeafTrace.

(** ** The traversal *)

Section TraversalFacts.
Variable gen_kwargs : gen_kwargs_val.
Variable predict_only : bool.
Variable num_fewshot : option Z.
Variable seed : Z.

Abbreviation adjust_entry' := (adjust_entry gen_kwargs predict_only num_fewshot seed).
Abbreviation adjust_leaves' := (adjust_leaves gen_kwargs predict_only num_fewshot seed).
Abbreviation adjust_leaf' := (adjust_leaf gen_kwargs predict_only num_fewshot seed).

Lemma adjust_leaves_app l1 l2 w :
  adjust_leaves' (l1 ++ l2) w = adjust_leaves' l2 (adjust_leaves' l1 w).
Proof. unfold adjust_leaves. apply fold_left_app. Qed.

Lemma adjust_leaves_cons name o l w :
  adjust_leaves' ((name, o) :: l) w = adjust_leaves' l (adjust_leaf' name o w).
Proof. reflexivity. Qed.

Lemma adjust_entry_group acc w name sub :
  adjust_entry' (acc, w) name (Group sub) =
  (dict_set name (Group (fst (for_items adjust_entry' sub ([], w)))) acc,
   snd (for_items adjust_entry' sub ([], w))).
Proof.
  cbn [adjust_entry].
  now destruct (for_items adjust_entry' sub ([], w)).
Qed.

(** The world the loop leaves is the one [adjust_leaf] makes, leaf after
    leaf in the order of the traversal. *)
Lemma for_items_world sub :
  Forall (fun kv => forall acc w name,
            snd (adjust_entry' (acc, w) name (snd kv)) =
            adjust_leaves' (entry_leaves name (snd kv)) w) sub ->
  forall acc w,
    snd (for_items adjust_entry' sub (acc, w)) = adjust_leaves' (leaf_entries sub) w.
Proof.
  induction 1 as [| [k c] sub Hc _ IH]; intros acc w; [reflexivity |].
  rewrite for_items_cons.
  destruct (adjust_entry' (acc, w) k c) as [acc' w'] eqn:E.
  rewrite IH. unfold leaf_entries. cbn [flat_map fst snd].
  rewrite adjust_leaves_app. f_equal.
  specialize (Hc acc w k). cbn [fst snd] in Hc. now rewrite E in Hc.
Qed.

Lemma adjust_entry_world n :
  forall acc w name,
    snd (adjust_entry' (acc, w) name n) = adjust_leaves' (entry_leaves name n) w.
Proof.
  induction n as [sub IH | g [o |] | o] using node_ind; intros acc w name;
    try reflexivity.
  rewrite adjust_entry_group. cbn [snd].
  now rewrite for_items_world.
Qed.

Lemma adjust_config_world task_dict w :
  snd (_adjust_config gen_kwargs predict_only num_fewshot seed task_dict w) =
  adjust_leaves' (leaf_entries task_dict) w.
Proof.
  unfold _adjust_config. apply for_items_world.
  apply Forall_forall. intros kv _ acc w' name. apply adjust_entry_world.
Qed.

(** Invariants of the work on a list of leaves. *)
Lemma adjust_leaves_invariant (P : World -> Prop) l w :
  (forall w name o, (name, o) ∈ l -> P w -> P (adjust_leaf' name o w)) ->
  P w -> P (adjust_leaves' l w).
Proof.
  revert w. induction l as [| [name o] l IH]; intros w Hstep Hw; [exact Hw |].
  rewrite adjust_leaves_cons. apply IH.
  - intros w' n' o' Hin. apply Hstep. now apply elem_of_cons; right.
  - apply Hstep; [apply elem_of_cons; now left | exact Hw].
Qed.

(** What the work on a leaf establishes, and the work on every leaf
    keeps, holds at the end for every leaf of the list. *)
Lemma adjust_leaves_establish (Q : World -> Prop) l name o w :
  (name, o) ∈ l ->
  (forall w, Q (adjust_leaf' name o w)) ->
  (forall w name' o', Q w -> Q (adjust_leaf' name' o' w)) ->
  Q (adjust_leaves' l w).
Proof.
  intros Hin Hest Hkeep. revert w.
  induction l as [| [name' o'] l IH]; intros w.
  - now apply elem_of_nil in Hin.
  - rewrite adjust_leaves_cons. apply elem_of_cons in Hin as [[= <- <-] | Hin].
    + apply adjust_leaves_invariant; [| apply Hest].
      intros w' n' o'' _. apply Hkeep.
    + now apply IH.
Qed.

(** The same, under an invariant of the traversal. *)
Lemma adjust_leaves_establish_inv (I Q : World -> Prop) l name o w :
  (name, o) ∈ l ->
  I w ->
  (forall w name' o', I w -> I (adjust_leaf' name' o' w)) ->
  (forall w, I w -> Q (adjust_leaf' name o w)) ->
  (forall w name' o', I w -> Q w -> Q (adjust_leaf' name' o' w)) ->
  Q (adjust_leaves' l w).
Proof.
  intros Hin Hw HI Hest Hkeep. revert w Hw.
  induction l as [| [name' o'] l IH]; intros w Hw.
  - now apply elem_of_nil in Hin.
  - rewrite adjust_leaves_cons. apply elem_of_cons in Hin as [[= <- <-] | Hin].
    + apply (adjust_leaves_invariant (fun w => I w /\ Q w)).
      * intros w' n' o'' _ [HIw HQw]. split; [now apply HI | now apply Hkeep].
      * split; [now apply HI | now apply Hest].
    + apply IH; [exact Hin | now apply HI].
Qed.

(** The leaves of the adjusted tree are leaves of the tree given. *)
Lemma leaves_app (d1 d2 : tree) : leaves (d1 ++ d2) = leaves d1 ++ leaves d2.
Proof. unfold leaves, leaf_entries. now rewrite flat_map_app, map_app. Qed.

Lemma leaves_dict_set k v (acc : tree) o :
  o ∈ leaves (dict_set k v acc) -> o ∈ leaves acc \/ o ∈ leaves [(k, v)].
Proof.
  induction acc as [| [k' v'] acc IH]; cbn [dict_set]; [now right |].
  destruct (String.eqb k k') eqn:E.
  - apply String.eqb_eq in E. subst k'.
    change ((k, v) :: acc) with ([(k, v)] ++ acc).
    change ((k, v') :: acc) with ([(k, v')] ++ acc).
    rewrite !leaves_app, !elem_of_app. tauto.
  - change ((k', v') :: dict_set k v acc) with ([(k', v')] ++ dict_set k v acc).
    change ((k', v') :: acc) with ([(k', v')] ++ acc).
    rewrite !leaves_app, !elem_of_app. tauto.
Qed.

Lemma leaves_singleton k v : leaves [(k, v)] = map snd (entry_leaves k v).
Proof. unfold leaves, leaf_entries. cbn [flat_map fst snd]. now rewrite app_nil_r. Qed.

Lemma for_items_leaves sub :
  Forall (fun kv => forall acc w name o,
            o ∈ leaves (fst (adjust_entry' (acc, w) name (snd kv))) ->
            o ∈ leaves acc \/ o ∈ map snd (entry_leaves name (snd kv))) sub ->
  forall acc w o,
    o ∈ leaves (fst (for_items adjust_entry' sub (acc, w))) ->
    o ∈ leaves acc \/ o ∈ leaves sub.
Proof.
  induction 1 as [| [k c] sub Hc _ IH]; intros acc w o; [now left |].
  rewrite for_items_cons.
  destruct (adjust_entry' (acc, w) k c) as [acc' w'] eqn:E.
  intros Ho. apply IH in Ho.
  change ((k, c) :: sub) with ([(k, c)] ++ sub).
  rewrite leaves_app, elem_of_app, leaves_singleton.
  destruct Ho as [Ho | Ho]; [| tauto].
  specialize (Hc acc w k o). cbn [fst snd] in Hc. rewrite E in Hc.
  cbn [fst snd] in Hc. apply Hc in Ho. tauto.
Qed.

Lemma adjust_entry_leaves n :
  forall acc w name o,
    o ∈ leaves (fst (adjust_entry' (acc, w) name n)) ->
    o ∈ leaves acc \/ o ∈ map snd (entry_leaves name n).
Proof.
  induction n as [sub IH | g [t |] | t] using node_ind; intros acc w name o.
  - rewrite adjust_entry_group. cbn [fst]. intros Ho.
    apply leaves_dict_set in Ho as [Ho | Ho]; [now left | right].
    rewrite leaves_singleton in Ho. cbn [entry_leaves] in Ho |- *.
    apply (for_items_leaves sub IH [] w) in Ho as [Ho | Ho]; [| exact Ho].
    now apply elem_of_nil in Ho.
  - cbn [adjust_entry fst entry_leaves]. intros Ho.
    apply leaves_dict_set in Ho. now rewrite leaves_singleton in Ho.
  - cbn [adjust_entry fst]. now left.
  - cbn [adjust_entry fst entry_leaves]. intros Ho.
    apply leaves_dict_set in Ho. now rewrite leaves_singleton in Ho.
Qed.

Lemma adjust_config_leaves task_dict w o :
  o ∈ leaves (fst (_adjust_config gen_kwargs predict_only num_fewshot seed
                     task_dict w)) ->
  o ∈ leaves task_dict.
Proof.
  unfold _adjust_config. intros Ho.
  apply for_items_leaves in Ho as [Ho | Ho]; [now apply elem_of_nil in Ho | exact Ho |].
  apply Forall_forall. intros kv _ acc w' name o'. apply adjust_entry_leaves.
Qed.

End TraversalFacts.

(** ** The events of the traversal *)

Section TraversalEvents.
Variable gen_kwargs : gen_kwargs_val.
Variable predict_only : bool.
Variable num_fewshot : option Z.
Variable seed : Z.

Abbreviation adjust_leaves'' := (adjust_leaves gen_kwargs predict_only num_fewshot seed).
Abbreviation adjust_leaf'' := (adjust_leaf gen_kwargs predict_only num_fewshot seed).
Abbreviation leaf_events'' := (leaf_events gen_kwargs predict_only num_fewshot seed).

(** The trace grows by the events of the leaves, each in the state its
    task object is in when its turn comes. *)
Lemma adjust_leaves_trace l :
  forall w, exists evs,
    trace (adjust_leaves'' l w) = trace w ++ evs
    /\ seeded evs = map snd l
    /\ Forall (fun e => exists name o x, (name, o) ∈ l
                                     /\ e ∈ leaf_events'' name o x) evs.
Proof.
  induction l as [| [name o] l IH]; intros w.
  - exists []. split; [now rewrite app_nil_r | split; [reflexivity | constructor]].
  - rewrite adjust_leaves_cons.
    destruct (IH (adjust_leaf'' name o w)) as (evs & Htr & Hseed & Hall).
    exists (leaf_events'' name o (task_objs w o) ++ evs). split; [| split].
    + now rewrite Htr, adjust_leaf_trace, <- app_assoc.
    + rewrite seeded_app, seeded_leaf_events, Hseed. reflexivity.
    + apply Forall_app. split.
      * apply Forall_forall. intros e He. exists name, o, (task_objs w o).
        split; [apply elem_of_cons; now left | exact He].
      * eapply Forall_impl; [exact Hall |].
        intros e (n' & o' & x & Hin & He). exists n', o', x.
        split; [apply elem_of_cons; now right | exact He].
Qed.

Lemma adjust_leaves_extends l w :
  trace (adjust_leaves'' l w) =
  trace w ++ events_since w (adjust_leaves'' l w).
Proof.
  destruct (adjust_leaves_trace l w) as (evs & Htr & _).
  now rewrite (events_since_app _ _ _ Htr).
Qed.

(** The events of a leaf of the list are among those of the traversal. *)
Lemma adjust_leaves_events_of l1 name o l2 w :
  forall e,
    e ∈ leaf_events'' name o (task_objs (adjust_leaves'' l1 w) o) ->
    e ∈ events_since w (adjust_leaves'' (l1 ++ (name, o) :: l2) w).
Proof.
  intros e He.
  rewrite adjust_leaves_app, adjust_leaves_cons.
  set (w1 := adjust_leaves'' l1 w) in *.
  erewrite events_since_app.
  2:{ rewrite (adjust_leaves_extends l2), adjust_leaf_trace.
      unfold w1. rewrite (adjust_leaves_extends l1 w), <- !app_assoc.
      reflexivity. }
  rewrite !elem_of_app. right. now left.
Qed.

End TraversalEvents.

(** ** The reconstructed tree *)

Section Reconstruction.
Variable gen_kwargs : gen_kwargs_val.
Variable predict_only : bool.
Variable num_fewshot : option Z.
Variable seed : Z.

Abbreviation adjust_entry_ := (adjust_entry gen_kwargs predict_only num_fewshot seed).

Lemma keys_rebuilt_entry k c k' : k' ∈ keys (rebuilt_entry k c) -> k' = k.
Proof.
  destruct c as [sub | g [t |] | t]; cbn; intros H;
    first [ now apply list_elem_of_singleton in H | now apply elem_of_nil in H ].
Qed.

Lemma wf_children sub :
  fold_right (fun kv acc => node_wf (snd kv) /\ acc) True sub <->
  Forall (fun kv : string * node => node_wf (snd kv)) sub.
Proof.
  induction sub as [| kv sub IH]; cbn [fold_right].
  - split; [constructor | trivial].
  - rewrite Forall_cons, IH. reflexivity.
Qed.

Lemma for_items_tree sub :
  Forall (fun kv => node_wf (snd kv) -> forall acc w name,
            name ∉ keys acc ->
            fst (adjust_entry_ (acc, w) name (snd kv)) =
            acc ++ rebuilt_entry name (snd kv)) sub ->
  Forall (fun kv : string * node => node_wf (snd kv)) sub ->
  NoDup (keys sub) ->
  forall acc w,
    (forall k, k ∈ keys sub -> k ∉ keys acc) ->
    fst (for_items adjust_entry_ sub (acc, w)) = acc ++ rebuilt sub.
Proof.
  induction 1 as [| [k c] sub Hc _ IH]; intros Hwf Hnd acc w Hfresh.
  - cbn. now rewrite app_nil_r.
  - apply Forall_cons in Hwf as [Hwfc Hwf].
    cbn [keys map fst] in Hnd. apply NoDup_cons in Hnd as [Hk Hnd].
    rewrite for_items_cons.
    destruct (adjust_entry_ (acc, w) k c) as [acc' w'] eqn:E.
    assert (Hacc' : acc' = acc ++ rebuilt_entry k c).
    { specialize (Hc Hwfc acc w k). cbn [fst snd] in Hc. rewrite E in Hc.
      apply Hc. apply Hfresh. cbn. apply elem_of_cons. now left. }
    rewrite (IH Hwf Hnd acc' w').
    + subst acc'. unfold rebuilt. cbn [flat_map fst snd].
      now rewrite <- app_assoc.
    + intros k2 Hk2. subst acc'. unfold keys. rewrite map_app.
      rewrite not_elem_of_app. split.
      * apply Hfresh. cbn. apply elem_of_cons. now right.
      * intros Hin. apply keys_rebuilt_entry in Hin. subst k2.
        exact (Hk Hk2).
Qed.

Lemma adjust_entry_tree n :
  node_wf n -> forall acc w name,
    name ∉ keys acc ->
    fst (adjust_entry_ (acc, w) name n) = acc ++ rebuilt_entry name n.
Proof.
  induction n as [sub IH | g [t |] | t] using node_ind;
    intros Hwf acc w name Hfresh.
  - rewrite adjust_entry_group. cbn [fst].
    destruct Hwf as [Hnd Hwf]. apply wf_children in Hwf.
    rewrite (for_items_tree sub IH Hwf Hnd [] w).
    + rewrite dict_set_fresh by exact Hfresh. reflexivity.
    + intros k _. apply not_elem_of_nil.
  - cbn [adjust_entry fst rebuilt_entry]. now apply dict_set_fresh.
  - cbn [adjust_entry fst rebuilt_entry]. now rewrite app_nil_r.
  - cbn [adjust_entry fst rebuilt_entry]. now apply dict_set_fresh.
Qed.

Lemma adjust_config_tree task_dict w :
  tree_wf task_dict ->
  fst (_adjust_config gen_kwargs predict_only num_fewshot seed task_dict w) =
  rebuilt task_dict.
Proof.
  intros [Hnd Hwf]. apply wf_children in Hwf. unfold _adjust_config.
  rewrite (for_items_tree task_dict); auto.
  - apply Forall_forall. intros kv _ Hkv acc w' name.
    now apply adjust_entry_tree.
  - intros k _. apply not_elem_of_nil.
Qed.

(** The names of the rebuilt tree are those of the entries that have a
    task, in their order. *)
Lemma keys_rebuilt task_dict :
  keys (rebuilt task_dict) =
  keys (filter (fun kv => tombstoned (snd kv) = false) task_dict).
Proof.
  induction task_dict as [| [k c] d IH]; [reflexivity |].
  unfold rebuilt in *. cbn [flat_map fst snd]. unfold keys in *.
  rewrite map_app, IH.
  destruct c as [sub | g [t |] | t]; reflexivity.
Qed.

End Reconstruction.

(** ** The postconditions of the Config Adjuster *)

Lemma elem_of_leaves o (d : tree) :
  o ∈ leaves d <-> exists name, (name, o) ∈ leaf_entries d.
Proof.
  unfold leaves. rewrite list_elem_of_In, in_map_iff. split.
  - intros ([name o'] & <- & Hin). exists name. now apply list_elem_of_In.
  - intros (name & Hin). exists (name, o). split; [reflexivity |].
    now apply list_elem_of_In.
Qed.

(** C1: whatever the task tree and the overrides, after [_adjust_config]
    every leaf of the adjusted tree has a few-shot count that is not
    [None], and its few-shot seed is the seed given. *)
Theorem adjusted_leaves_resolved gen_kwargs predict_only num_fewshot seed
    task_dict w o :
  o ∈ leaves (fst (_adjust_config gen_kwargs predict_only num_fewshot seed
                     task_dict w)) ->
  Task.num_fewshot
    (task_objs (snd (_adjust_config gen_kwargs predict_only num_fewshot seed
                       task_dict w)) o) <> None
  /\ Task.fewshot_seed
       (task_objs (snd (_adjust_config gen_kwargs predict_only num_fewshot seed
                          task_dict w)) o) = Some seed.
Proof.
  intros Ho. apply adjust_config_leaves, elem_of_leaves in Ho as [name Hin].
  rewrite adjust_config_world.
  apply (adjust_leaves_establish gen_kwargs predict_only num_fewshot seed
           (fun w' => Task.num_fewshot (task_objs w' o) <> None
                      /\ Task.fewshot_seed (task_objs w' o) = Some seed)
           _ name o w Hin).
  - intros w'. rewrite adjust_leaf_objs, decide_True by reflexivity.
    rewrite adjusted_task_num_fewshot, adjusted_task_fewshot_seed.
    split; [| reflexivity].
    destruct num_fewshot as [n |], (Task.num_fewshot (task_objs w' o)) as [[| p | p] |];
      discriminate.
  - intros w' name' o' [Hnf Hseed]. rewrite adjust_leaf_objs.
    case_decide as Heq; [subst o' | now split].
    rewrite adjusted_task_num_fewshot, adjusted_task_fewshot_seed.
    split; [| reflexivity].
    destruct num_fewshot as [n |], (Task.num_fewshot (task_objs w' o)) as [[| p | p] |];
      discriminate.
Qed.

Lemma adjusted_leaves_resolved_witness :
  2%positive ∈ leaves (fst (_adjust_config GK_none false None 1234
                              Examples.task_dict Examples.world))
  /\ Task.num_fewshot
       (task_objs (snd (_adjust_config GK_none false None 1234
                          Examples.task_dict Examples.world)) 2) <> None
  /\ Task.fewshot_seed
       (task_objs (snd (_adjust_config GK_none false None 1234
                          Examples.task_dict Examples.world)) 2) = Some 1234.
Proof.
  assert (H : 2%positive ∈ leaves (fst (_adjust_config GK_none false None 1234
                                         Examples.task_dict Examples.world))).
  { vm_compute. apply elem_of_cons. right. apply elem_of_cons. now left. }
  split; [exact H |].
  exact (adjusted_leaves_resolved GK_none false None 1234
           Examples.task_dict Examples.world 2 H).
Defined.

(** C4: when a few-shot override is supplied, a leaf whose configuration
    sets the few-shot count to 0 still has the count 0 after
    [_adjust_config], and the notice about it was logged under the name
    of its entry. *)
Theorem explicit_zero_shot_kept gen_kwargs predict_only n seed task_dict w
    name o :
  (name, o) ∈ leaf_entries task_dict ->
  Task.num_fewshot (task_objs w o) = Some 0 ->
  Task.num_fewshot
    (task_objs (snd (_adjust_config gen_kwargs predict_only (Some n) seed
                       task_dict w)) o) = Some 0
  /\ Ev_log INFO (Msg_fewshot_zero name)
     ∈ events_since w (snd (_adjust_config gen_kwargs predict_only (Some n) seed
                              task_dict w)).
Proof.
  intros Hin H0. rewrite adjust_config_world.
  assert (Hkeep : forall l w',
             Task.num_fewshot (task_objs w' o) = Some 0 ->
             Task.num_fewshot
               (task_objs (adjust_leaves gen_kwargs predict_only (Some n) seed
                             l w') o) = Some 0).
  { intros l w' Hw'.
    apply (adjust_leaves_invariant gen_kwargs predict_only (Some n) seed
             (fun w' => Task.num_fewshot (task_objs w' o) = Some 0));
      [| exact Hw'].
    intros w1 name' o' _ Hw1. rewrite adjust_leaf_objs.
    case_decide as Heq; [subst o' | exact Hw1].
    now rewrite adjusted_task_num_fewshot, Hw1. }
  split; [now apply Hkeep |].
  apply list_elem_of_split in Hin as (l1 & l2 & ->).
  apply adjust_leaves_events_of.
  unfold leaf_events, fewshot_events. rewrite (Hkeep l1 w H0).
  rewrite !elem_of_app. right. right. left. apply elem_of_cons. now left.
Qed.

Lemma explicit_zero_shot_kept_witness :
  ("taskB", 2%positive) ∈ leaf_entries Examples.task_dict
  /\ Task.num_fewshot (task_objs Examples.world 2) = Some 0
  /\ Task.num_fewshot
       (task_objs (snd (_adjust_config GK_none false (Some 5) 1234
                          Examples.task_dict Examples.world)) 2) = Some 0
  /\ Ev_log INFO (Msg_fewshot_zero "taskB")
     ∈ events_since Examples.world
         (snd (_adjust_config GK_none false (Some 5) 1234
                 Examples.task_dict Examples.world)).
Proof.
  assert (Hin : ("taskB", 2%positive) ∈ leaf_entries Examples.task_dict).
  { vm_compute. apply elem_of_cons. right. apply elem_of_cons. now left. }
  assert (H0 : Task.num_fewshot (task_objs Examples.world 2) = Some 0)
    by reflexivity.
  split; [exact Hin |]. split; [exact H0 |].
  exact (explicit_zero_shot_kept GK_none false 5 1234 Examples.task_dict
           Examples.world "taskB" 2 Hin H0).
Defined.

(** C9: on a tree whose dictionaries hold each key once, [_adjust_config]
    returns the tree rebuilt as the spec says: every group again under its
    name with its children rebuilt, the entries without a task left out,
    the others in their order; and it works on every leaf once, in the
    order of the tree. *)
Theorem traversal_rebuilds_tree gen_kwargs predict_only num_fewshot seed
    task_dict w :
  tree_wf task_dict ->
  fst (_adjust_config gen_kwargs predict_only num_fewshot seed task_dict w)
  = rebuilt task_dict
  /\ keys (fst (_adjust_config gen_kwargs predict_only num_fewshot seed
                  task_dict w))
     = keys (filter (fun kv => tombstoned (snd kv) = false) task_dict)
  /\ seeded (events_since w
               (snd (_adjust_config gen_kwargs predict_only num_fewshot seed
                       task_dict w)))
     = leaves task_dict.
Proof.
  intros Hwf. rewrite adjust_config_tree by exact Hwf.
  split; [reflexivity | split; [apply keys_rebuilt |]].
  rewrite adjust_config_world.
  destruct (adjust_leaves_trace gen_kwargs predict_only num_fewshot seed
              (leaf_entries task_dict) w) as (evs & Htr & Hseed & _).
  now rewrite (events_since_app _ _ _ Htr).
Qed.

Lemma traversal_rebuilds_tree_witness :
  tree_wf Examples.task_dict
  /\ fst (_adjust_config GK_none true None 1234 Examples.task_dict
            Examples.world)
     = [("taskA", Leaf 1); ("group", Group [("taskB", Leaf 2)])]
  /\ keys (fst (_adjust_config GK_none true None 1234 Examples.task_dict
                  Examples.world))
     = ["taskA"; "group"]
  /\ seeded (events_since Examples.world
               (snd (_adjust_config GK_none true None 1234
                       Examples.task_dict Examples.world)))
     = [1%positive; 2%positive].
Proof.
  assert (Hwf : tree_wf Examples.task_dict).
  { repeat split; apply (bool_decide_unpack _); vm_compute; exact I. }
  split; [exact Hwf |].
  exact (traversal_rebuilds_tree GK_none true None 1234 Examples.task_dict
           Examples.world Hwf).
Defined.

(** ** Generation kwargs *)

(** C5, as the spec states it, fails: the task object 1 generates
    ([output_type] is 'generate_until') and holds [max_new_tokens]; with
    the override [temperature=0] its generation kwargs hold both entries
    afterwards, and are not the override. *)
Lemma generation_kwargs_not_replaced :
  ("taskA", 1%positive) ∈ leaf_entries Examples.task_dict
  /\ Task.output_type (task_objs Examples.world 1) = "generate_until"
  /\ Task.generation_kwargs
       (task_objs (snd (_adjust_config (GK_dict [("temperature", PyInt 0)])
                          false None 1234 Examples.task_dict Examples.world)) 1)
     = [("max_new_tokens", PyInt 16); ("temperature", PyInt 0)]
  /\ Task.generation_kwargs
       (task_objs (snd (_adjust_config (GK_dict [("temperature", PyInt 0)])
                          false None 1234 Examples.task_dict Examples.world)) 1)
     <> [("temperature", PyInt 0)].
Proof.
  split; [vm_compute; apply elem_of_cons; now left |].
  split; [reflexivity |].
  split; [reflexivity | vm_compute; discriminate].
Qed.

(** C5, amended: for a leaf whose output type holds 'generate_until' and
    an override [d], [_adjust_config] updates the generation kwargs of the
    leaf with [d]: afterwards a key of [d] reads as in [d], and every
    other key reads as before. *)
Theorem generation_kwargs_updated d predict_only num_fewshot seed task_dict w
    name o :
  (name, o) ∈ leaf_entries task_dict ->
  str_contains "generate_until" (Task.output_type (task_objs w o)) = true ->
  NoDup (keys d) ->
  forall k,
    dict_get k
      (Task.generation_kwargs
         (task_objs (snd (_adjust_config (GK_dict d) predict_only num_fewshot
                            seed task_dict w)) o))
    = match dict_get k d with
      | Some v => Some v
      | None => dict_get k (Task.generation_kwargs (task_objs w o))
      end.
Proof.
  intros Hin Hgen Hnd k. rewrite adjust_config_world.
  set (x0 := task_objs w o) in *.
  apply (adjust_leaves_establish_inv (GK_dict d) predict_only num_fewshot seed
           (fun w' =>
              Task.output_type (task_objs w' o) = Task.output_type x0
              /\ (dict_get k d = None ->
                  dict_get k (Task.generation_kwargs (task_objs w' o))
                  = dict_get k (Task.generation_kwargs x0)))
           (fun w' =>
              dict_get k (Task.generation_kwargs (task_objs w' o))
              = match dict_get k d with
                | Some v => Some v
                | None => dict_get k (Task.generation_kwargs x0)
                end)
           _ name o w Hin).
  - now split.
  - intros w' name' o' [Hty Hk]. rewrite adjust_leaf_objs.
    case_decide as Heq; [subst o' | now split].
    rewrite adjusted_task_output_type, adjusted_task_generation_kwargs.
    split; [exact Hty |]. intros Hnone.
    unfold with_generation. rewrite Hty, Hgen.
    cbn [Task.update_generation_kwargs Task.generation_kwargs].
    rewrite dict_get_update_None by exact Hnone. now apply Hk.
  - intros w' [Hty Hk]. rewrite adjust_leaf_objs, decide_True by reflexivity.
    rewrite adjusted_task_generation_kwargs.
    unfold with_generation. rewrite Hty, Hgen.
    cbn [Task.update_generation_kwargs Task.generation_kwargs].
    destruct (dict_get k d) as [v |] eqn:Ek.
    + now apply dict_get_update_Some.
    + rewrite dict_get_update_None by exact Ek. now apply Hk.
  - intros w' name' o' [Hty Hk] HQ. rewrite adjust_leaf_objs.
    case_decide as Heq; [subst o' | exact HQ].
    rewrite adjusted_task_generation_kwargs.
    unfold with_generation. rewrite Hty, Hgen.
    cbn [Task.update_generation_kwargs Task.generation_kwargs].
    destruct (dict_get k d) as [v |] eqn:Ek.
    + now apply dict_get_update_Some.
    + rewrite dict_get_update_None by exact Ek. exact HQ.
Qed.

Lemma generation_kwargs_updated_witness :
  ("taskA", 1%positive) ∈ leaf_entries Examples.task_dict
  /\ str_contains "generate_until"
       (Task.output_type (task_objs Examples.world 1)) = true
  /\ NoDup (keys [("temperature", PyInt 0)])
  /\ dict_get "max_new_tokens"
       (Task.generation_kwargs
          (task_objs (snd (_adjust_config (GK_dict [("temperature", PyInt 0)])
                             false None 1234 Examples.task_dict
                             Examples.world)) 1))
     = Some (PyInt 16)
  /\ dict_get "temperature"
       (Task.generation_kwargs
          (task_objs (snd (_adjust_config (GK_dict [("temperature", PyInt 0)])
                             false None 1234 Examples.task_dict
                             Examples.world)) 1))
     = Some (PyInt 0).
Proof.
  assert (Hin : ("taskA", 1%positive) ∈ leaf_entries Examples.task_dict).
  { vm_compute. apply elem_of_cons. now left. }
  assert (Hgen : str_contains "generate_until"
                   (Task.output_type (task_objs Examples.world 1)) = true)
    by reflexivity.
  assert (Hnd : NoDup (keys [("temperature", PyInt 0)])).
  { apply (bool_decide_unpack _). vm_compute. exact I. }
  split; [exact Hin |]. split; [exact Hgen |]. split; [exact Hnd |].
  split.
  - exact (generation_kwargs_updated [("temperature", PyInt 0)] false None 1234
             Examples.task_dict Examples.world "taskA" 1 Hin Hgen Hnd
             "max_new_tokens").
  - exact (generation_kwargs_updated [("temperature", PyInt 0)] false None 1234
             Examples.task_dict Examples.world "taskA" 1 Hin Hgen Hnd
             "temperature").
Defined.

(** ** Floats *)

Section Floats.
Local Open Scope Q_scope.

Lemma rint_bounds q :
  inject_Z (Qfloor q) <= inject_Z (rint q) <= inject_Z (Qfloor q + 1).
Proof.
  unfold rint. destruct (Qcompare_spec (q - inject_Z (Qfloor q)) (1 # 2));
    [destruct (Z.even (Qfloor q)) | |];
    rewrite <- ?Zle_Qle; lia.
Qed.

Lemma rint_Z z : rint (inject_Z z) = z.
Proof.
  unfold rint. rewrite Qfloor_Z.
  destruct (Qcompare_spec (inject_Z z - inject_Z z) (1 # 2)) as [H | H | H];
    [exfalso | reflexivity | exfalso]; lra.
Qed.

Lemma rint_comp x y : x == y -> rint x = rint y.
Proof.
  intros H. unfold rint. rewrite (Qfloor_comp _ _ H).
  assert (E : x - inject_Z (Qfloor y) == y - inject_Z (Qfloor y))
    by (rewrite H; reflexivity).
  now rewrite (Qcompare_comp _ _ E _ _ (Qeq_refl (1 # 2))).
Qed.

Lemma rint_mono x y : x <= y -> (rint x <= rint y)%Z.
Proof.
  intros Hxy. pose proof (Qfloor_resp_le _ _ Hxy) as Hf.
  destruct (Z.eq_dec (Qfloor x) (Qfloor y)) as [E | N].
  - unfold rint. rewrite E.
    destruct (Qcompare_spec (x - inject_Z (Qfloor y)) (1 # 2)) as [Hx | Hx | Hx];
      destruct (Qcompare_spec (y - inject_Z (Qfloor y)) (1 # 2)) as [Hy | Hy | Hy];
      try destruct (Z.even (Qfloor y)); try lia; exfalso; lra.
  - pose proof (rint_bounds x) as [_ Hx]. pose proof (rint_bounds y) as [Hy _].
    rewrite <- Zle_Qle in Hx, Hy. lia.
Qed.

Lemma pow2_pos e : 0 < 2 ^ e.
Proof. apply Qpower_0_lt. reflexivity. Qed.

Lemma pow2_plus a b : 2 ^ (a + b) == 2 ^ a * 2 ^ b.
Proof. apply Qpower_plus. discriminate. Qed.

Lemma pow2_le a b : (a <= b)%Z -> 2 ^ a <= 2 ^ b.
Proof. intros H. apply Qpower_le_compat_l; [exact H | discriminate]. Qed.

Lemma pow2_lt a b : (a < b)%Z -> 2 ^ a < 2 ^ b.
Proof. intros H. apply Qpower_lt_compat_l; [exact H | reflexivity]. Qed.

Lemma pow2_lt_inv a b : 2 ^ a < 2 ^ b -> (a < b)%Z.
Proof. intros H. apply (Qpower_lt_compat_l_inv 2); [exact H | reflexivity]. Qed.

Lemma pow2_Z n : (0 <= n)%Z -> 2 ^ n == inject_Z (2 ^ n).
Proof. intros H. symmetry. apply (Zpower_Qpower 2 n H). Qed.

Lemma pow2_cancel e : 2 ^ (- e) * 2 ^ e == 1.
Proof. rewrite <- pow2_plus. now replace (- e + e)%Z with 0%Z by lia. Qed.

(** [ilog2 q] is the integer part of the binary logarithm of [q]. *)
Lemma ilog2_spec q : 0 < q -> 2 ^ ilog2 q <= q < 2 ^ (ilog2 q + 1).
Proof.
  intros Hq. destruct q as [n d]. unfold ilog2. cbn [Qnum Qden].
  assert (Hn : (0 < n)%Z).
  { unfold Qlt in Hq. cbn in Hq. lia. }
  pose proof (Z.log2_spec n Hn) as [Hn1 Hn2].
  pose proof (Z.log2_spec (Z.pos d) (Pos2Z.is_pos d)) as [Hd1 Hd2].
  pose proof (Z.log2_nonneg n) as Han. pose proof (Z.log2_nonneg (Z.pos d)) as Hbn.
  set (a := Z.log2 n) in *. set (b := Z.log2 (Z.pos d)) in *.
  rewrite Zle_Qle in Hn1, Hd1. rewrite Zlt_Qlt in Hn2, Hd2.
  rewrite <- pow2_Z in Hn1, Hn2, Hd1, Hd2 by lia.
  assert (Hq' : n # d == inject_Z n / inject_Z (Z.pos d)) by apply Qmake_Qdiv.
  assert (Hdpos : 0 < inject_Z (Z.pos d)) by reflexivity.
  assert (Hmul : (n # d) * inject_Z (Z.pos d) == inject_Z n).
  { rewrite Hq'. field. discriminate. }
  pose proof (pow2_pos b) as Hb. pose proof (pow2_pos (a - b)) as Hk.
  assert (Hlo : 2 ^ (a - b - 1) < n # d).
  { assert (E : 2 ^ a == 2 ^ (a - b - 1) * 2 ^ (Z.succ b)).
    { rewrite <- pow2_plus. now replace (a - b - 1 + Z.succ b)%Z with a by lia. }
    pose proof (pow2_pos (a - b - 1)). nra. }
  assert (Hhi : n # d < 2 ^ (a - b + 1)).
  { assert (E : 2 ^ (Z.succ a) == 2 ^ (a - b + 1) * 2 ^ b).
    { rewrite <- pow2_plus. now replace (a - b + 1 + b)%Z with (Z.succ a) by lia. }
    pose proof (pow2_pos (a - b + 1)). nra. }
  destruct (Qle_bool (2 ^ (a - b)) (n # d)) eqn:E.
  - apply Qle_bool_iff in E. split; [exact E | exact Hhi].
  - split; [apply Qlt_le_weak, Hlo |].
    replace (a - b - 1 + 1)%Z with (a - b)%Z by lia.
    apply Qnot_le_lt. intros H. apply Qle_bool_iff in H. congruence.
Qed.

Lemma ilog2_unique q k : 2 ^ k <= q < 2 ^ (k + 1) -> ilog2 q = k.
Proof.
  intros [H1 H2].
  assert (Hq : 0 < q) by (pose proof (pow2_pos k); lra).
  destruct (ilog2_spec q Hq) as [H3 H4].
  assert ((ilog2 q < k + 1)%Z) by (apply pow2_lt_inv; lra).
  assert ((k < ilog2 q + 1)%Z) by (apply pow2_lt_inv; lra).
  lia.
Qed.

Lemma ilog2_mono x y : 0 < x -> x <= y -> (ilog2 x <= ilog2 y)%Z.
Proof.
  intros Hx Hxy. destruct (ilog2_spec x Hx) as [H1 _].
  destruct (ilog2_spec y) as [_ H2]; [lra |].
  assert ((ilog2 x < ilog2 y + 1)%Z) by (apply pow2_lt_inv; lra). lia.
Qed.

Lemma ulp_exp_upper q : 0 < q -> q < 2 ^ (ulp_exp q + 53).
Proof.
  intros Hq. destruct (ilog2_spec q Hq) as [_ H].
  eapply Qlt_le_trans; [exact H |]. apply pow2_le. unfold ulp_exp. lia.
Qed.

Lemma ulp_exp_lower q :
  0 < q -> ulp_exp q = (-1074)%Z \/ 2 ^ (ulp_exp q + 52) <= q.
Proof.
  intros Hq. destruct (ilog2_spec q Hq) as [H _]. unfold ulp_exp.
  destruct (Z.max_spec (ilog2 q - 52) (-1074)) as [[_ ->] | [_ ->]];
    [now left | right].
  now replace (ilog2 q - 52 + 52)%Z with (ilog2 q) by lia.
Qed.

Lemma ulp_exp_mono x y : 0 < x -> x <= y -> (ulp_exp x <= ulp_exp y)%Z.
Proof.
  intros Hx Hxy. pose proof (ilog2_mono x y Hx Hxy). unfold ulp_exp. lia.
Qed.

Lemma round_to_mono e x y : x <= y -> round_to e x <= round_to e y.
Proof.
  intros Hxy. unfold round_to. apply Qmult_le_compat_r.
  - rewrite <- Zle_Qle. apply rint_mono.
    apply Qmult_le_compat_r; [exact Hxy | apply Qlt_le_weak, pow2_pos].
  - apply Qlt_le_weak, pow2_pos.
Qed.

(** A multiple of [2 ^ e'] is its own rounding to the multiples of
    [2 ^ e] when [e <= e']. *)
Lemma round_to_multiple e e' k x :
  (e <= e')%Z -> x == inject_Z k * 2 ^ e' -> round_to e x == x.
Proof.
  intros He Hx. unfold round_to.
  assert (E : x * 2 ^ (- e) == inject_Z (k * 2 ^ (e' - e))).
  { rewrite Hx, inject_Z_mult, <- pow2_Z by lia.
    replace (e' - e)%Z with (e' + - e)%Z by lia. rewrite pow2_plus. ring. }
  rewrite (rint_comp _ _ E), rint_Z, Hx, inject_Z_mult, <- pow2_Z by lia.
  replace e' with (e' - e + e)%Z at 2 by lia. rewrite (pow2_plus (e' - e) e). ring.
Qed.

Lemma round_to_nonneg e x : 0 <= x -> 0 <= round_to e x.
Proof.
  intros Hx. unfold round_to. apply Qmult_le_0_compat.
  - change 0 with (inject_Z 0). rewrite <- Zle_Qle.
    rewrite <- (rint_Z 0). apply rint_mono.
    apply Qmult_le_0_compat; [exact Hx | apply Qlt_le_weak, pow2_pos].
  - apply Qlt_le_weak, pow2_pos.
Qed.

Lemma round_pos_mono x y : 0 < x -> x <= y -> round_pos x <= round_pos y.
Proof.
  intros Hx Hxy. assert (Hy : 0 < y) by lra. unfold round_pos.
  pose proof (ulp_exp_mono x y Hx Hxy) as He.
  destruct (Z.eq_dec (ulp_exp x) (ulp_exp y)) as [E | N].
  - rewrite E. now apply round_to_mono.
  - set (p := 2 ^ (ulp_exp y + 52)).
    assert (Hp : p == inject_Z 1 * 2 ^ (ulp_exp y + 52)) by (unfold p; ring).
    assert (Hxp : x <= p).
    { apply Qlt_le_weak. eapply Qlt_le_trans; [apply ulp_exp_upper, Hx |].
      apply pow2_le. lia. }
    assert (Hpy : p <= y).
    { destruct (ulp_exp_lower y Hy) as [E | H]; [| exact H].
      unfold ulp_exp in *. lia. }
    assert (E1 : round_to (ulp_exp x) p == p)
      by (apply (round_to_multiple _ (ulp_exp y + 52) 1); [lia | exact Hp]).
    assert (E2 : round_to (ulp_exp y) p == p)
      by (apply (round_to_multiple _ (ulp_exp y + 52) 1); [lia | exact Hp]).
    pose proof (round_to_mono (ulp_exp x) x p Hxp).
    pose proof (round_to_mono (ulp_exp y) p y Hpy). lra.
Qed.

Lemma round_pos_nonneg x : 0 <= x -> 0 <= round_pos x.
Proof. apply round_to_nonneg. Qed.

Lemma Qnum_pos q : match Qnum q with
                   | Z0 => q == 0
                   | Zpos _ => 0 < q
                   | Zneg _ => q < 0
                   end.
Proof. destruct q as [[| p | p] d]; unfold Qeq, Qlt; cbn; lia. Qed.

(** Rounding keeps the order. *)
Lemma round64_mono x y : x <= y -> round64 x <= round64 y.
Proof.
  intros Hxy. unfold round64.
  pose proof (Qnum_pos x) as Hx. pose proof (Qnum_pos y) as Hy.
  destruct (Qnum x), (Qnum y); try lra.
  - apply round_pos_nonneg. lra.
  - now apply round_pos_mono.
  - pose proof (round_pos_nonneg (- x)). lra.
  - pose proof (round_pos_nonneg (- x)). pose proof (round_pos_nonneg y). lra.
  - assert (round_pos (- y) <= round_pos (- x)) by (apply round_pos_mono; lra).
    lra.
Qed.

Lemma round64_comp x y : x == y -> round64 x == round64 y.
Proof.
  intros H. apply Qle_antisym; apply round64_mono; rewrite H; apply Qle_refl.
Qed.

Lemma round64_0 : round64 0 == 0.
Proof. reflexivity. Qed.

Lemma round64_nonneg x : 0 <= x -> 0 <= round64 x.
Proof. intros H. rewrite <- round64_0. now apply round64_mono. Qed.

Lemma round64_pos_eq x : 0 < x -> round64 x = round_pos x.
Proof.
  intros H. unfold round64. pose proof (Qnum_pos x) as Hx.
  destruct (Qnum x); [exfalso; lra | reflexivity | exfalso; lra].
Qed.

Lemma round64_neg_eq x : x < 0 -> round64 x = - round_pos (- x).
Proof.
  intros H. unfold round64. pose proof (Qnum_pos x) as Hx.
  destruct (Qnum x); [exfalso; lra | exfalso; lra | reflexivity].
Qed.

Lemma round64_zero_eq x : x == 0 -> round64 x = 0.
Proof.
  intros H. unfold round64. pose proof (Qnum_pos x) as Hx.
  destruct (Qnum x); [reflexivity | exfalso; lra | exfalso; lra].
Qed.

Lemma round64_opp x : round64 (- x) == - round64 x.
Proof.
  destruct (Q_dec x 0) as [[H | H] | H].
  - rewrite (round64_neg_eq x H), (round64_pos_eq (- x)) by lra. ring.
  - rewrite (round64_pos_eq x H), (round64_neg_eq (- x)) by lra.
    rewrite <- (round64_pos_eq (- - x)) by lra.
    rewrite <- (round64_pos_eq x) by lra.
    rewrite (round64_comp (- - x) x) by ring. reflexivity.
  - rewrite (round64_zero_eq x H), (round64_zero_eq (- x)) by lra. reflexivity.
Qed.

(** The rounding of a positive number is a double. *)
Lemma round_pos_fixed q : 0 < q -> round64 (round_pos q) == round_pos q.
Proof.
  intros Hq. set (e := ulp_exp q). set (m := rint (q * 2 ^ (- e))).
  assert (Hr : round_pos q == inject_Z m * 2 ^ e) by reflexivity.
  assert (He : (-1074 <= e)%Z) by (unfold e, ulp_exp; lia).
  assert (Hm0 : (0 <= m)%Z).
  { unfold m. rewrite <- (rint_Z 0). apply rint_mono.
    apply Qmult_le_0_compat; [lra | apply Qlt_le_weak, pow2_pos]. }
  assert (Hm1 : (m <= 2 ^ 53)%Z).
  { unfold m. rewrite <- (rint_Z (2 ^ 53)). apply rint_mono.
    pose proof (ulp_exp_upper q Hq) as H. fold e in H.
    rewrite pow2_plus in H. rewrite <- pow2_Z by lia.
    pose proof (pow2_cancel e). pose proof (pow2_pos e). pose proof (pow2_pos (- e)).
    assert (q * 2 ^ (- e) < 2 ^ e * 2 ^ 53 * 2 ^ (- e)) by nra.
    assert (2 ^ e * 2 ^ 53 * 2 ^ (- e) == 2 ^ 53) by nra. lra. }
  pose proof (pow2_pos e) as Hpe.
  destruct (Z.eq_dec m 0%Z) as [-> | Hm].
  - rewrite round64_zero_eq; rewrite Hr; ring.
  - assert (Hrpos : 0 < round_pos q).
    { rewrite Hr. apply Qmult_lt_0_compat; [| exact Hpe].
      change 0 with (inject_Z 0). rewrite <- Zlt_Qlt. lia. }
    rewrite (round64_pos_eq _ Hrpos). unfold round_pos at 1.
    destruct (Z.eq_dec m (2 ^ 53)%Z) as [E | N].
    + assert (Hr' : round_pos q == 2 ^ (e + 53)).
      { rewrite Hr, E, pow2_plus, <- pow2_Z by lia. ring. }
      assert (Hil : ilog2 (round_pos q) = (e + 53)%Z).
      { apply ilog2_unique. rewrite Hr'. split; [apply Qle_refl |].
        apply pow2_lt. lia. }
      apply (round_to_multiple _ (e + 53) 1); [unfold ulp_exp; lia |].
      rewrite Hr'. ring.
    + apply (round_to_multiple _ e m); [| exact Hr].
      assert (Hlt : round_pos q < 2 ^ (e + 53)).
      { rewrite Hr, pow2_plus, (pow2_Z 53) by lia.
        assert (inject_Z m < inject_Z (2 ^ 53)) by (rewrite <- Zlt_Qlt; lia).
        nra. }
      destruct (ilog2_spec _ Hrpos) as [H1 _].
      assert ((ilog2 (round_pos q) < e + 53)%Z) by (apply pow2_lt_inv; lra).
      unfold ulp_exp. lia.
Qed.

(** A rounded number is a double: rounding it again changes nothing. *)
Lemma round64_idem x : round64 (round64 x) == round64 x.
Proof.
  destruct (Q_dec x 0) as [[H | H] | H].
  - rewrite (round64_neg_eq x H). rewrite round64_opp.
    rewrite round_pos_fixed by lra. reflexivity.
  - rewrite (round64_pos_eq x H). now apply round_pos_fixed.
  - rewrite (round64_zero_eq x H). reflexivity.
Qed.

End Floats.

(** ** The timing hooks *)

Lemma bind_ret_l {A B} (a : A) (k : A -> M B) w : bind (ret a) k w = k a w.
Proof. reflexivity. Qed.

Lemma bind_Ok {A B} (m : M A) (k : A -> M B) w a w' :
  m w = Ok a w' -> bind m k w = k a w'.
Proof. unfold bind. now intros ->. Qed.

Lemma bind_Raise {A B} (m : M A) (k : A -> M B) w e w' :
  m w = Raise e w' -> bind m k w = Raise e w'.
Proof. unfold bind. now intros ->. Qed.


Lemma sequence_app {A} (f : A -> M unit) l1 l2 w :
  sequence f (l1 ++ l2) w = bind (sequence f l1) (fun _ => sequence f l2) w.
Proof.
  revert w. induction l1 as [| x l1 IH]; intros w; [reflexivity |].
  cbn [app sequence]. unfold bind in *.
  destruct (f x w) as [[] w' | e w']; [apply IH | reflexivity].
Qed.

(** Steps that do nothing can be left out of a sequence. *)
Lemma sequence_filter {A} (f : A -> M unit) (P : A -> Prop)
    `{forall x, Decision (P x)} l :
  (forall x w, ~ P x -> f x w = Ok tt w) ->
  forall w, sequence f l w = sequence f (filter P l) w.
Proof.
  intros Hskip. induction l as [| x l IH]; intros w; [reflexivity |].
  rewrite filter_cons. case_decide as Hx; cbn [sequence]; unfold bind.
  - destruct (f x w) as [[] w' | e w']; [apply IH | reflexivity].
  - rewrite Hskip by exact Hx. apply IH.
Qed.

Lemma run_pre_hooks_on m c w0 w :
  sequence (run_pre_hook m c) (forward_pre_hooks w0) w =
  sequence (run_pre_hook m c) (hooks_on m (forward_pre_hooks w0)) w.
Proof.
  apply sequence_filter. intros h w' Hh. unfold run_pre_hook.
  apply Pos.eqb_neq in Hh. now rewrite Hh.
Qed.

Lemma run_post_hooks_on m c w0 w :
  sequence (run_post_hook m c) (forward_hooks w0) w =
  sequence (run_post_hook m c) (hooks_on m (forward_hooks w0)) w.
Proof.
  apply sequence_filter. intros h w' Hh. unfold run_post_hook.
  apply Pos.eqb_neq in Hh. now rewrite Hh.
Qed.

(** The pre-call hook in closed form. *)
Lemma start_time_hook_run module now w :
  start_time_hook module now w =
  Ok tt (mkWorld (task_objs w)
           (<[(module, "start_time") := Float now]> (attrs w))
           (forward_pre_hooks w) (forward_hooks w) (lm_task_dict w)
           (trace w ++ [Ev_cuda_synchronize])).
Proof. reflexivity. Qed.

Lemma attr_name_ne (o : positive) (a b : string) :
  a <> b -> (o, a) <> (o, b).
Proof. congruence. Qed.

(** The post-call hook on a call with embedded inputs. *)
Lemma end_time_hook_prefill model module kwargs now w st v c t :
  attrs w !! (module, "start_time") = Some st ->
  dict_get "inputs_embeds" kwargs = Some v ->
  is_not_None v = true ->
  attrs w !! (module, "prefill_count") = Some c ->
  attrs w !! (module, "prefill_time") = Some t ->
  end_time_hook model module kwargs now w =
  Ok tt (mkWorld (task_objs w)
           (<[(module, "prefill_time") := num_add t (num_sub (Float now) st)]>
              (<[(module, "prefill_count") := num_add c (Int 1)]> (attrs w)))
           (forward_pre_hooks w) (forward_hooks w) (lm_task_dict w)
           (trace w ++ [Ev_cuda_synchronize])).
Proof.
  intros Hst Hk Hv Hc Ht. unfold end_time_hook.
  rewrite (bind_Ok _ _ _ tt (emit Ev_cuda_synchronize w)) by reflexivity.
  erewrite bind_Ok by (unfold getattr; cbn [attrs emit]; rewrite Hst; reflexivity).
  rewrite Hk, Hv.
  erewrite bind_Ok by (unfold getattr; cbn [attrs emit]; rewrite Hc; reflexivity).
  erewrite bind_Ok by reflexivity.
  erewrite bind_Ok.
  2:{ unfold getattr. cbn [attrs emit].
      rewrite lookup_insert_ne by (apply attr_name_ne; discriminate).
      rewrite Ht. reflexivity. }
  reflexivity.
Qed.

(** The post-call hook on a call whose [inputs_embeds] is [None]. *)
Lemma end_time_hook_decode model module kwargs now w st v c t :
  attrs w !! (module, "start_time") = Some st ->
  dict_get "inputs_embeds" kwargs = Some v ->
  is_not_None v = false ->
  attrs w !! (model, "decode_count") = Some c ->
  attrs w !! (model, "decode_time") = Some t ->
  end_time_hook model module kwargs now w =
  Ok tt (mkWorld (task_objs w)
           (<[(model, "decode_time") := num_add t (num_sub (Float now) st)]>
              (<[(model, "decode_count") := num_add c (Int 1)]> (attrs w)))
           (forward_pre_hooks w) (forward_hooks w) (lm_task_dict w)
           (trace w ++ [Ev_cuda_synchronize])).
Proof.
  intros Hst Hk Hv Hc Ht. unfold end_time_hook.
  rewrite (bind_Ok _ _ _ tt (emit Ev_cuda_synchronize w)) by reflexivity.
  erewrite bind_Ok by (unfold getattr; cbn [attrs emit]; rewrite Hst; reflexivity).
  rewrite Hk, Hv.
  erewrite bind_Ok by (unfold getattr; cbn [attrs emit]; rewrite Hc; reflexivity).
  erewrite bind_Ok by reflexivity.
  erewrite bind_Ok.
  2:{ unfold getattr. cbn [attrs emit].
      rewrite lookup_insert_ne by (apply attr_name_ne; discriminate).
      rewrite Ht. reflexivity. }
  reflexivity.
Qed.

(** The post-call hook on a call without the keyword [inputs_embeds]. *)
Lemma end_time_hook_missing model module kwargs now w st :
  attrs w !! (module, "start_time") = Some st ->
  dict_get "inputs_embeds" kwargs = None ->
  end_time_hook model module kwargs now w =
  Raise (KeyError "inputs_embeds") (emit Ev_cuda_synchronize w).
Proof.
  intros Hst Hk. unfold end_time_hook.
  rewrite (bind_Ok _ _ _ tt (emit Ev_cuda_synchronize w)) by reflexivity.
  erewrite bind_Ok by (unfold getattr; cbn [attrs emit]; rewrite Hst; reflexivity).
  now rewrite Hk.
Qed.

Ltac attr_lookup :=
  repeat first
    [ rewrite lookup_insert_eq
    | rewrite lookup_insert_ne by (apply attr_name_ne; discriminate) ].

(** One call on an instrumented model that passes [inputs_embeds]: the
    call returns, and one pair of counters has moved. *)
Lemma call_forward_instrumented model w pc pt dc dt c v :
  instrumented model w pc pt dc dt ->
  dict_get "inputs_embeds" (fc_kwargs c) = Some v ->
  exists w',
    call_forward model c w = Ok tt w'
    /\ instrumented model w'
         (if is_not_None v then pc + 1 else pc)
         (if is_not_None v then num_add pt (elapsed c) else pt)
         (if is_not_None v then dc else dc + 1)
         (if is_not_None v then dt else num_add dt (elapsed c)).
Proof.
  intros [Hpre Hpost Hpc Hpt Hdc Hdt] Hk. unfold call_forward.
  erewrite bind_Ok.
  2:{ rewrite run_pre_hooks_on, Hpre. cbn [sequence]. unfold run_pre_hook.
      cbn [fst snd]. rewrite Pos.eqb_refl.
      erewrite bind_Ok by apply start_time_hook_run. reflexivity. }
  rewrite run_post_hooks_on, Hpost. cbn [sequence]. unfold run_post_hook.
  cbn [fst snd]. rewrite Pos.eqb_refl.
  destruct (is_not_None v) eqn:Hv.
  - erewrite bind_Ok.
    2:{ eapply end_time_hook_prefill; cbn [attrs]; attr_lookup; eauto. }
    eexists. split; [reflexivity |].
    split; cbn [attrs forward_pre_hooks forward_hooks]; attr_lookup; auto.
  - erewrite bind_Ok.
    2:{ eapply end_time_hook_decode; cbn [attrs]; attr_lookup; eauto. }
    eexists. split; [reflexivity |].
    split; cbn [attrs forward_pre_hooks forward_hooks]; attr_lookup; auto.
Qed.

(** One call that does not pass [inputs_embeds]: the post-call hook
    raises, and no counter has moved. *)
Lemma call_forward_missing model w pc pt dc dt c :
  instrumented model w pc pt dc dt ->
  dict_get "inputs_embeds" (fc_kwargs c) = None ->
  exists w',
    call_forward model c w = Raise (KeyError "inputs_embeds") w'
    /\ instrumented model w' pc pt dc dt.
Proof.
  intros [Hpre Hpost Hpc Hpt Hdc Hdt] Hk. unfold call_forward.
  erewrite bind_Ok.
  2:{ rewrite run_pre_hooks_on, Hpre. cbn [sequence]. unfold run_pre_hook.
      cbn [fst snd]. rewrite Pos.eqb_refl.
      erewrite bind_Ok by apply start_time_hook_run. reflexivity. }
  rewrite run_post_hooks_on, Hpost. cbn [sequence]. unfold run_post_hook.
  cbn [fst snd]. rewrite Pos.eqb_refl.
  erewrite bind_Raise.
  2:{ eapply end_time_hook_missing; cbn [attrs]; attr_lookup; eauto. }
  eexists. split; [reflexivity |].
  split; cbn [attrs forward_pre_hooks forward_hooks emit]; attr_lookup; auto.
Qed.

(** Adding a time that is not negative to a counter that is a double
    does not lower it, and gives a double. *)
Lemma num_add_float_double t q : is_double (num_add t (Float q)).
Proof.
  unfold is_double. destruct t; cbn [num_add num_to_Q]; apply round64_idem.
Qed.

Lemma num_add_float_le t q :
  is_double t -> (0 <= q)%Q ->
  (num_to_Q t <= num_to_Q (num_add t (Float q)))%Q.
Proof.
  unfold is_double. intros Ht Hq.
  destruct t as [z | x]; cbn [num_add num_to_Q num_to_float] in *.
  - pose proof (round64_idem (inject_Z z)) as Hi.
    assert (Hm : (round64 (round64 (inject_Z z))
                  <= round64 (round64 (inject_Z z) + q))%Q)
      by (apply round64_mono; lra).
    lra.
  - assert (Hm : (round64 x <= round64 (x + q))%Q) by (apply round64_mono; lra).
    lra.
Qed.

Lemma elapsed_float c :
  elapsed c = Float (round64 (fc_clock_post c - fc_clock_pre c)).
Proof. reflexivity. Qed.

Lemma elapsed_nonneg c : clock_forward c -> (0 <= num_to_Q (elapsed c))%Q.
Proof.
  unfold clock_forward. intros H. rewrite elapsed_float. cbn [num_to_Q].
  apply round64_nonneg. lra.
Qed.

Lemma accumulate_double t cs :
  is_double t -> is_double (accumulate t (map elapsed cs)).
Proof.
  revert t. induction cs as [| c cs IH]; intros t Ht; [exact Ht |].
  cbn [map accumulate fold_left]. apply IH. rewrite elapsed_float.
  apply num_add_float_double.
Qed.

(** While the clock does not step back, a counter that is a double does
    not go down. *)
Lemma accumulate_le t cs :
  is_double t -> Forall clock_forward cs ->
  (num_to_Q t <= num_to_Q (accumulate t (map elapsed cs)))%Q.
Proof.
  revert t. induction cs as [| c cs IH]; intros t Ht Hcs; [apply Qle_refl |].
  apply Forall_cons in Hcs as [Hc Hcs]. cbn [map accumulate fold_left].
  eapply Qle_trans; [| apply IH; [| exact Hcs]].
  - pose proof (elapsed_nonneg c Hc) as He. rewrite elapsed_float in *.
    now apply num_add_float_le.
  - rewrite elapsed_float. apply num_add_float_double.
Qed.

Lemma calls_of_kind_cons prefill c calls :
  calls_of_kind prefill (c :: calls) =
  if Bool.eqb (is_prefill_call c) prefill
  then c :: calls_of_kind prefill calls else calls_of_kind prefill calls.
Proof.
  unfold calls_of_kind. rewrite filter_cons.
  destruct (is_prefill_call c), prefill; cbn [Bool.eqb];
    first [ rewrite decide_True by reflexivity
          | rewrite decide_False by discriminate ]; reflexivity.
Qed.

Lemma Forall_calls_of_kind (P : forward_call -> Prop) prefill calls :
  Forall P calls -> Forall P (calls_of_kind prefill calls).
Proof.
  intros H. apply Forall_forall. intros c Hc.
  unfold calls_of_kind in Hc. apply list_elem_of_filter in Hc as [_ Hc].
  rewrite Forall_forall in H. now apply H.
Qed.

Lemma hooks_on_app {H} m (l1 l2 : list (positive * H)) :
  hooks_on m (l1 ++ l2) = hooks_on m l1 ++ hooks_on m l2.
Proof. apply filter_app. Qed.

(** [set_statistics_modules] on a model without hooks instruments it,
    with all four counters at zero. *)
Lemma set_statistics_modules_instruments model w :
  hooks_on model (forward_pre_hooks w) = [] ->
  hooks_on model (forward_hooks w) = [] ->
  exists w',
    set_statistics_modules model w = Ok tt w'
    /\ instrumented model w' 0 (Int 0) 0 (Int 0)
    /\ trace w' = trace w /\ task_objs w' = task_objs w
    /\ lm_task_dict w' = lm_task_dict w.
Proof.
  intros Hpre Hpost. eexists. split; [reflexivity |].
  split; [| auto].
  split; cbn [attrs forward_pre_hooks forward_hooks]; attr_lookup; auto.
  - rewrite hooks_on_app, Hpre. unfold hooks_on. rewrite filter_cons, decide_True by reflexivity. reflexivity.
  - rewrite hooks_on_app, Hpost. unfold hooks_on. rewrite filter_cons, decide_True by reflexivity. reflexivity.
Qed.

Lemma prefill_calls_cons c calls :
  prefill_calls (c :: calls) =
  (if is_prefill_call c then 1 else 0) + prefill_calls calls.
Proof.
  unfold prefill_calls. rewrite filter_cons.
  destruct (is_prefill_call c); [rewrite decide_True by reflexivity
                                | rewrite decide_False by discriminate];
    cbn [length]; lia.
Qed.

Lemma prefill_calls_bounds calls :
  0 <= prefill_calls calls <= Z.of_nat (length calls).
Proof.
  induction calls as [| c calls IH]; [unfold prefill_calls; cbn; lia |].
  rewrite prefill_calls_cons. cbn [length].
  destruct (is_prefill_call c); lia.
Qed.

(** A run of calls on an instrumented model: the counts move by the
    numbers of prefill and of decode calls, and each cumulative time takes
    the times of the calls of its kind, one after the other. *)
Lemma run_forward_calls_instrumented model calls :
  forall w pc pt dc dt,
    instrumented model w pc pt dc dt ->
    Forall passes_inputs_embeds calls ->
    exists w',
      run_forward_calls model calls w = Ok tt w'
      /\ instrumented model w'
           (pc + prefill_calls calls)
           (accumulate pt (map elapsed (calls_of_kind true calls)))
           (dc + (Z.of_nat (length calls) - prefill_calls calls))
           (accumulate dt (map elapsed (calls_of_kind false calls))).
Proof.
  induction calls as [| c calls IH]; intros w pc pt dc dt Hinst Hpass.
  - exists w. split; [reflexivity |].
    replace (pc + prefill_calls []) with pc by (unfold prefill_calls; cbn; lia).
    replace (dc + (Z.of_nat (length (@nil forward_call)) - prefill_calls []))
      with dc by (unfold prefill_calls; cbn; lia).
    exact Hinst.
  - apply Forall_cons in Hpass as [Hc Hpass].
    unfold passes_inputs_embeds in Hc.
    destruct (dict_get "inputs_embeds" (fc_kwargs c)) as [v |] eqn:Hk;
      [| congruence].
    destruct (call_forward_instrumented model w pc pt dc dt c v Hinst Hk)
      as (w1 & Hrun & Hinst1).
    destruct (IH _ _ _ _ _ Hinst1 Hpass) as (w' & Hrun' & Hinst').
    exists w'. split.
    + unfold run_forward_calls. cbn [sequence].
      erewrite bind_Ok by exact Hrun. exact Hrun'.
    + rewrite prefill_calls_cons, !calls_of_kind_cons.
      unfold is_prefill_call. rewrite Hk. cbn [length].
      destruct (is_not_None v); cbn [Bool.eqb map accumulate fold_left].
      * replace (pc + (1 + prefill_calls calls))
          with (pc + 1 + prefill_calls calls) by lia.
        replace (dc + (Z.of_nat (S (length calls)) - (1 + prefill_calls calls)))
          with (dc + (Z.of_nat (length calls) - prefill_calls calls)) by lia.
        exact Hinst'.
      * replace (pc + (0 + prefill_calls calls))
          with (pc + prefill_calls calls) by lia.
        replace (dc + (Z.of_nat (S (length calls)) - (0 + prefill_calls calls)))
          with (dc + 1 + (Z.of_nat (length calls) - prefill_calls calls)) by lia.
        exact Hinst'.
Qed.

(** C10: on an instrumented model, a forward call whose keyword arguments
    do not hold the key 'inputs_embeds' ends in the post-call hook with a
    KeyError, and no counter has moved: the call is not counted as decode.
    A call that passes the key, be it with [None], returns. *)
Theorem call_without_inputs_embeds_raises model w pc pt dc dt c :
  instrumented model w pc pt dc dt ->
  match dict_get "inputs_embeds" (fc_kwargs c) with
  | None =>
      exists w', call_forward model c w = Raise (KeyError "inputs_embeds") w'
                 /\ instrumented model w' pc pt dc dt
  | Some _ => exists w', call_forward model c w = Ok tt w'
  end.
Proof.
  intros Hinst. destruct (dict_get "inputs_embeds" (fc_kwargs c)) as [v |] eqn:Hk.
  - destruct (call_forward_instrumented model w pc pt dc dt c v Hinst Hk)
      as (w' & Hrun & _).
    now exists w'.
  - now apply call_forward_missing.
Qed.

Lemma call_without_inputs_embeds_raises_witness :
  instrumented 9 Examples.instrumented_world 0 (Int 0) 0 (Int 0)
  /\ exists w',
       call_forward 9 Examples.bare_call Examples.instrumented_world
       = Raise (KeyError "inputs_embeds") w'
       /\ instrumented 9 w' 0 (Int 0) 0 (Int 0).
Proof.
  assert (H : instrumented 9 Examples.instrumented_world 0 (Int 0) 0 (Int 0)).
  { split; vm_compute; reflexivity. }
  split; [exact H |].
  exact (call_without_inputs_embeds_raises 9 Examples.instrumented_world
           0 (Int 0) 0 (Int 0) Examples.bare_call H).
Defined.

(** C2, as the spec states it, fails twice.  A single call that does not
    pass [inputs_embeds] (N = 1, K = 0) ends the run with a KeyError and
    the decode count still 0, not 1.  A single call with embedded inputs
    during which the clock is set back from 5 to 3 leaves a prefill time
    below zero. *)
Lemma instrumentation_counterexample :
  (prefill_calls [Examples.bare_call] = 0
   /\ exists w',
        run_forward_calls 9 [Examples.bare_call] Examples.instrumented_world
        = Raise (KeyError "inputs_embeds") w'
        /\ attrs w' !! (9%positive, "decode_count") = Some (Int 0))
  /\ (exists w' t,
        run_forward_calls 9 [Examples.clock_set_back_call]
          Examples.instrumented_world = Ok tt w'
        /\ attrs w' !! (9%positive, "prefill_time") = Some t
        /\ (num_to_Q t < 0)%Q).
Proof.
  split.
  - split; [reflexivity |]. eexists. split; vm_compute; reflexivity.
  - eexists. eexists. split; [vm_compute; reflexivity |].
    split; vm_compute; reflexivity.
Qed.

(** C2, amended: a model without hooks is instrumented by
    [set_statistics_modules] with its four counters at zero.  Then every
    run of forward calls that all pass [inputs_embeds] as a keyword (a
    tensor or [None]) returns, and after N calls of which K have embedded
    inputs the prefill count is K and the decode count N - K, whatever
    the clock does.  The cumulative times, sums of doubles, are at least
    zero after calls during none of which the clock steps back, and
    further calls of that kind do not lower them. *)
Theorem instrumented_run_counts model w0 calls1 calls2 :
  hooks_on model (forward_pre_hooks w0) = [] ->
  hooks_on model (forward_hooks w0) = [] ->
  Forall passes_inputs_embeds (calls1 ++ calls2) ->
  exists w1 wa w2 pta dta pt2 dt2,
    set_statistics_modules model w0 = Ok tt w1
    /\ instrumented model w1 0 (Int 0) 0 (Int 0)
    /\ run_forward_calls model calls1 w1 = Ok tt wa
    /\ run_forward_calls model (calls1 ++ calls2) w1 = Ok tt w2
    /\ instrumented model wa
         (prefill_calls calls1) pta
         (Z.of_nat (length calls1) - prefill_calls calls1) dta
    /\ instrumented model w2
         (prefill_calls (calls1 ++ calls2)) pt2
         (Z.of_nat (length (calls1 ++ calls2)) - prefill_calls (calls1 ++ calls2))
         dt2
    /\ (Forall clock_forward calls1 ->
        (0 <= num_to_Q pta)%Q /\ (0 <= num_to_Q dta)%Q)
    /\ (Forall clock_forward calls2 ->
        (num_to_Q pta <= num_to_Q pt2)%Q /\ (num_to_Q dta <= num_to_Q dt2)%Q).
Proof.
  intros Hpre Hpost Hpass.
  destruct (set_statistics_modules_instruments model w0 Hpre Hpost)
    as (w1 & Hset & Hinst1 & _).
  apply Forall_app in Hpass as [Hpass1 Hpass2].
  destruct (run_forward_calls_instrumented model calls1 w1 0 (Int 0) 0 (Int 0)
              Hinst1 Hpass1)
    as (wa & Hruna & Hinsta).
  destruct (run_forward_calls_instrumented model calls2 wa _ _ _ _
              Hinsta Hpass2)
    as (w2 & Hrun2 & Hinst2).
  assert (H0 : is_double (Int 0)) by reflexivity.
  eexists w1, wa, w2, _, _, _, _.
  split; [exact Hset |]. split; [exact Hinst1 |]. split; [exact Hruna |].
  split.
  { unfold run_forward_calls in *. rewrite sequence_app.
    erewrite bind_Ok by exact Hruna. exact Hrun2. }
  split.
  { replace (prefill_calls calls1) with (0 + prefill_calls calls1) by lia.
    replace (Z.of_nat (length calls1) - (0 + prefill_calls calls1))
      with (0 + (Z.of_nat (length calls1) - prefill_calls calls1)) by lia.
    exact Hinsta. }
  split.
  { replace (prefill_calls (calls1 ++ calls2))
      with (0 + prefill_calls calls1 + prefill_calls calls2).
    - replace (Z.of_nat (length (calls1 ++ calls2))
               - (0 + prefill_calls calls1 + prefill_calls calls2))
        with (0 + (Z.of_nat (length calls1) - prefill_calls calls1)
              + (Z.of_nat (length calls2) - prefill_calls calls2))
        by (rewrite length_app; lia).
      exact Hinst2.
    - unfold prefill_calls. rewrite filter_app, length_app. lia. }
  split.
  - intros Hclock. split.
    + apply (accumulate_le (Int 0)); [exact H0 |].
      now apply Forall_calls_of_kind.
    + apply (accumulate_le (Int 0)); [exact H0 |].
      now apply Forall_calls_of_kind.
  - intros Hclock. split.
    + apply accumulate_le; [now apply accumulate_double |].
      now apply Forall_calls_of_kind.
    + apply accumulate_le; [now apply accumulate_double |].
      now apply Forall_calls_of_kind.
Qed.

Lemma instrumented_run_counts_witness :
  exists w1 wa w2 pta dta pt2 dt2,
    set_statistics_modules 9 Examples.world = Ok tt w1
    /\ instrumented 9 w1 0 (Int 0) 0 (Int 0)
    /\ run_forward_calls 9 [Examples.prefill_call] w1 = Ok tt wa
    /\ run_forward_calls 9
         ([Examples.prefill_call] ++ [Examples.decode_call; Examples.decode_call])
         w1 = Ok tt w2
    /\ instrumented 9 wa 1 pta 0 dta
    /\ instrumented 9 w2 1 pt2 2 dt2
    /\ (0 <= num_to_Q pta)%Q /\ (num_to_Q pta <= num_to_Q pt2)%Q
    /\ (0 <= num_to_Q dta)%Q /\ (num_to_Q dta <= num_to_Q dt2)%Q.
Proof.
  destruct (instrumented_run_counts 9 Examples.world [Examples.prefill_call]
              [Examples.decode_call; Examples.decode_call])
    as (w1 & wa & w2 & pta & dta & pt2 & dt2 & Hset & Hinst1 & Hruna & Hrun2
        & Hinsta & Hinst2 & Hzero & Hup).
  - reflexivity.
  - reflexivity.
  - repeat constructor; discriminate.
  - destruct Hzero as [Hp0 Hd0]; [repeat constructor; vm_compute; discriminate |].
    destruct Hup as [Hp Hd]; [repeat constructor; vm_compute; discriminate |].
    exists w1, wa, w2, pta, dta, pt2, dt2. auto 12.
Defined.

(** ** Runs of [eval]: the events they add *)

Section Emits.
Variable Q : event -> Prop.

Lemma emits_ret {A} (a : A) : emits Q (ret a).
Proof. intros w. exists []. split; [now rewrite app_nil_r | constructor]. Qed.

Lemma emits_raise {A} e : emits Q (@raise A e).
Proof. intros w. exists []. split; [now rewrite app_nil_r | constructor]. Qed.

Lemma emits_bind {A B} (m : M A) (k : A -> M B) :
  emits Q m -> (forall a, emits Q (k a)) -> emits Q (bind m k).
Proof.
  intros Hm Hk w. destruct (Hm w) as (evs & Htr & Hall). unfold bind.
  destruct (m w) as [a w1 | e w1]; cbn [world_of] in Htr.
  - destruct (Hk a w1) as (evs' & Htr' & Hall').
    exists (evs ++ evs'). split.
    + now rewrite Htr', Htr, app_assoc.
    + now apply Forall_app.
  - exists evs. now split.
Qed.

Lemma emits_silent (f : World -> World) :
  (forall w, trace (f w) = trace w) -> emits Q (act f).
Proof.
  intros Hf w. exists []. cbn. split; [now rewrite Hf, app_nil_r | constructor].
Qed.

Lemma emits_emit e : Q e -> emits Q (act (emit e)).
Proof. intros He w. exists [e]. split; [reflexivity | now constructor]. Qed.

Lemma emits_log l m : Q (Ev_log l m) -> emits Q (act (log l m)).
Proof. apply emits_emit. Qed.

Lemma emits_read {A} (f : World -> A) : emits Q (fun w => Ok (f w) w).
Proof. intros w. exists []. split; [now rewrite app_nil_r | constructor]. Qed.

Lemma emits_returned env e : emits Q (returned env e).
Proof.
  intros w. exists []. unfold returned.
  destruct (upstream_error env e w); cbn [world_of];
    (split; [now rewrite app_nil_r | constructor]).
Qed.

Lemma emits_call env e : Q e -> emits Q (call env e).
Proof.
  intros He w. exists [e]. unfold call, returned.
  destruct (upstream_error env e (emit e w)); cbn [world_of];
    (split; [reflexivity | now constructor]).
Qed.

Lemma emits_getattr o name : emits Q (getattr o name).
Proof.
  intros w. exists []. unfold getattr.
  destruct (attrs w !! (o, name)); cbn; split;
    try now rewrite app_nil_r. all: constructor.
Qed.

Lemma emits_setattr o name v : emits Q (setattr o name v).
Proof. now apply emits_silent. Qed.

Lemma emits_sequence {A} (f : A -> M unit) l :
  (forall x, emits Q (f x)) -> emits Q (sequence f l).
Proof.
  intros Hf. induction l as [| x l IH]; cbn [sequence].
  - apply emits_ret.
  - apply emits_bind; [apply Hf | intros _; exact IH].
Qed.

Lemma emits_pointwise {A} (m : World -> M A) :
  (forall w0, emits Q (m w0)) -> emits Q (fun w => m w w).
Proof. intros H w. apply (H w w). Qed.

End Emits.

Lemma emits_weaken {A} (Q Q' : event -> Prop) (m : M A) :
  (forall e, Q e -> Q' e) -> emits Q m -> emits Q' m.
Proof.
  intros HQ Hm w. destruct (Hm w) as (evs & Htr & Hall).
  exists evs. split; [exact Htr |]. eapply Forall_impl; eauto.
Qed.

Lemma emits_events_since {A} Q (m : M A) w :
  emits Q m -> Forall Q (events_since w (world_of (m w))).
Proof.
  intros Hm. destruct (Hm w) as (evs & Htr & Hall).
  now rewrite (events_since_app _ _ _ Htr).
Qed.

Lemma emits_call_forward Q m c :
  Q Ev_cuda_synchronize -> emits Q (call_forward m c).
Proof.
  intros Hsync. unfold call_forward.
  apply (emits_pointwise Q
           (fun w0 => bind (sequence (run_pre_hook m c) (forward_pre_hooks w0))
                        (fun _ => sequence (run_post_hook m c) (forward_hooks w0)))).
  intros w0. apply emits_bind; [| intros _]; apply emits_sequence; intros [o h].
  - unfold run_pre_hook. destruct (Pos.eqb _ _); [| apply emits_ret].
    destruct h. unfold start_time_hook.
    apply emits_bind; [now apply emits_emit | intros _; apply emits_setattr].
  - unfold run_post_hook. destruct (Pos.eqb _ _); [| apply emits_ret].
    destruct h as [model]. cbn [snd]. unfold end_time_hook.
    apply emits_bind; [now apply emits_emit | intros _].
    apply emits_bind; [apply emits_getattr | intros st].
    destruct (dict_get _ _) as [v |]; [| apply emits_raise].
    destruct (is_not_None v);
      repeat first [ apply emits_setattr | apply emits_getattr
                   | apply emits_bind; [| intros ?] ].
Qed.

Lemma emits_run_forward_calls Q m calls :
  Q Ev_cuda_synchronize -> emits Q (run_forward_calls m calls).
Proof.
  intros Hsync. apply emits_sequence. intros c. now apply emits_call_forward.
Qed.

Lemma emits_adjust_config Q gen_kwargs predict_only num_fewshot seed task_dict :
  (forall name o x e,
      e ∈ leaf_events gen_kwargs predict_only num_fewshot seed name o x -> Q e) ->
  emits Q (fun w =>
             let '(d, w') := _adjust_config gen_kwargs predict_only num_fewshot
                               seed task_dict w in
             Ok d w').
Proof.
  intros HQ w.
  pose proof (adjust_config_world gen_kwargs predict_only num_fewshot seed
                task_dict w) as Hw.
  destruct (_adjust_config gen_kwargs predict_only num_fewshot seed task_dict w)
    as [d w'].
  cbn [snd] in Hw. subst w'. cbn [world_of].
  destruct (adjust_leaves_trace gen_kwargs predict_only num_fewshot seed
              (leaf_entries task_dict) w) as (evs & Htr & _ & Hall).
  exists evs. split; [exact Htr |].
  eapply Forall_impl; [exact Hall |].
  intros e (name & o & x & _ & He). eauto.
Qed.

(** The events of one leaf in a run of [eval]. *)
Lemma leaf_events_eval self a gen_kwargs name o x e :
  e ∈ leaf_events gen_kwargs (Args.predict_only a) (Some 0)
        (Args.fewshot_random_seed a) name o x ->
  eval_event self a e.
Proof.
  unfold leaf_events, generation_events, predict_only_events, fewshot_events.
  rewrite !elem_of_app.
  destruct (str_contains _ _); [destruct gen_kwargs |];
    destruct (Args.predict_only a);
    destruct (Task.num_fewshot x) as [[| p | p] |];
    intros [H | [H | [H | H]]];
    repeat (apply elem_of_cons in H as [-> | H]);
    try (now apply elem_of_nil in H); cbn; auto.
Qed.

Ltac emits_step :=
  first
    [ apply emits_ret | apply emits_raise
    | apply emits_getattr | apply emits_setattr
    | apply emits_read
    | apply emits_emit; cbn; now auto
    | apply emits_log; cbn; now auto
    | apply emits_returned
    | apply emits_call; cbn; now auto
    | apply emits_silent; reflexivity
    | apply emits_run_forward_calls; cbn; now auto
    | apply emits_bind; [| intros ?]
    | match goal with
      | |- emits _ (match ?x with _ => _ end) => destruct x
      end ].

(** Every event of a run of [eval] is one [eval_event] allows. *)
Lemma eval_emits env self llmc_model a :
  emits (eval_event self a) (eval env self llmc_model a).
Proof.
  unfold eval. cbv zeta.
  apply emits_bind; [unfold set_seeds; cbv zeta; repeat emits_step | intros _].
  destruct (eval_dataset_name self) as [| t ts] eqn:Htasks; [apply emits_raise |].
  rewrite <- Htasks.
  apply emits_bind; [unfold parse_gen_kwargs; repeat emits_step | intros gk].
  apply emits_bind; [repeat emits_step | intros tm].
  apply emits_bind; [repeat emits_step | intros _].
  apply emits_bind.
  { destruct (statistics self); [| apply emits_ret].
    unfold set_statistics_modules, register_forward_pre_hook,
      register_forward_hook. repeat emits_step. }
  intros _.
  destruct (MODEL_REGISTRY env (eval_name llmc_model)) as [create |];
    [| apply emits_raise].
  apply emits_bind; [repeat emits_step | intros _].
  apply emits_bind; [repeat emits_step | intros _].
  apply emits_bind.
  { apply emits_adjust_config. intros name o x e. apply leaf_events_eval. }
  intros task_dict.
  apply emits_bind; [repeat emits_step | intros _].
  apply emits_bind; [repeat emits_step | intros _].
  apply emits_bind; [repeat emits_step | intros _].
  apply emits_bind; [apply emits_read | intros out].
  apply emits_bind; [repeat emits_step | intros _].
  apply emits_bind; [repeat emits_step | intros _].
  apply emits_bind; [unfold log_statistics; repeat emits_step | intros _].
  apply emits_bind; [repeat emits_step | intros _].
  apply emits_bind; [repeat emits_step | intros _].
  repeat emits_step.
Qed.

(** ** The empty task list *)

(** A call that returned has been recorded, and nothing else has
    changed. *)
Lemma returned_Ok env e w u w' : returned env e w = Ok u w' -> w' = w.
Proof.
  unfold returned. destruct (upstream_error env e w); [discriminate |].
  now intros [= _ <-].
Qed.

Lemma call_Ok env e w u w' : call env e w = Ok u w' -> w' = emit e w.
Proof. unfold call. apply returned_Ok. Qed.

Lemma call_accepted env (P : event -> Prop) e w :
  accepts env P -> P e -> call env e w = Ok tt (emit e w).
Proof. intros Hacc He. unfold call, returned. now rewrite (Hacc e _ He). Qed.

Lemma returned_accepted env (P : event -> Prop) e w :
  accepts env P -> P e -> returned env e w = Ok tt w.
Proof. intros Hacc He. unfold returned. now rewrite (Hacc e _ He). Qed.

(** Seeding sets the seeds that are not [None], in the order random,
    numpy, torch, and logs them; it touches nothing else.  It ends early
    when [np.random.seed] or [torch.manual_seed] raises. *)
Lemma set_seeds_run env a w :
  exists evs,
    trace (world_of (set_seeds env a w)) = trace w ++ evs
    /\ Forall seeding_event evs
    /\ task_objs (world_of (set_seeds env a w)) = task_objs w
    /\ attrs (world_of (set_seeds env a w)) = attrs w
    /\ forward_pre_hooks (world_of (set_seeds env a w)) = forward_pre_hooks w
    /\ forward_hooks (world_of (set_seeds env a w)) = forward_hooks w
    /\ lm_task_dict (world_of (set_seeds env a w)) = lm_task_dict w
    /\ match set_seeds env a w with
       | Ok _ _ =>
           (forall s, Args.random_seed a = Some s -> Ev_random_seed s ∈ evs)
           /\ (forall s, Args.numpy_random_seed a = Some s ->
                         Ev_numpy_seed s ∈ evs)
           /\ (forall s, Args.torch_random_seed a = Some s ->
                         Ev_torch_seed s ∈ evs)
       | Raise (Upstream c cls) _ =>
           seed_call a c /\ exists w0, upstream_error env c w0 = Some cls
       | Raise _ _ => False
       end.
Proof.
  unfold set_seeds, call, returned, bind, act, ret. cbv zeta.
  destruct (Args.random_seed a) as [s1 |] eqn:E1,
    (Args.numpy_random_seed a) as [s2 |] eqn:E2,
    (Args.torch_random_seed a) as [s3 |] eqn:E3;
    repeat match goal with
           | |- context [upstream_error env ?e ?x] =>
               destruct (upstream_error env e x) eqn:?
           end;
    cbn [world_of emit log trace task_objs attrs forward_pre_hooks
           forward_hooks lm_task_dict app];
    rewrite <- ?app_assoc; cbn [app].
  all: first [ (eexists; split; [reflexivity |])
             | (exists []; split; [now rewrite app_nil_r |]) ].
  all: split; [repeat constructor |].
  all: repeat (split; [reflexivity |]).
  all: try (split; [cbn; assumption | eexists; eassumption]).
  all: repeat split; try discriminate; intros s [= <-];
    repeat first [ now left | right ].
Qed.

Lemma set_seeds_accepted env a w :
  accepts env (seed_call a) ->
  set_seeds env a w = Ok tt (world_of (set_seeds env a w)).
Proof.
  intros Hacc. destruct (set_seeds_run env a w) as (evs & _ & _ & _ & _ & _ & _ & _ & H).
  destruct (set_seeds env a w) as [[] w' | e w']; [reflexivity | exfalso].
  destruct e; try contradiction.
  destruct H as (Hc & w0 & Hw0). rewrite (Hacc _ w0 Hc) in Hw0. discriminate.
Qed.


(** With a seed that numpy does not take the run ends in
    [np.random.seed], before the assertion on the task list is reached. *)
Lemma seed_out_of_range :
  exists w',
    eval Examples.env Examples.vqa_eval_no_tasks Examples.llava
      (Args.mk None None None None None None None None false false false None
         100000 false false true None None false false None None "INFO" false
         (Some 0) (Some (-1)) (Some 1234) 1234 "2024-01-01" None)
      Examples.world
    = Raise (Upstream (Ev_numpy_seed (-1)) "ValueError") w'
    /\ trace w' = [Ev_random_seed 0; Ev_numpy_seed (-1)].
Proof. eexists. split; reflexivity. Qed.

(** With a [gen_kwargs] string that the parser does not take the run
    ends in the parser, after seeding and before any task is looked up. *)
Lemma gen_kwargs_without_equals :
  exists w',
    eval Examples.env Examples.vqa_eval Examples.llava
      (Args.mk None None None None None None None None false false false None
         100000 false false true None None false false (Some "greedy") None
         "INFO" false (Some 0) (Some 1234) (Some 1234) 1234 "2024-01-01" None)
      Examples.world
    = Raise (Upstream (Ev_simple_parse_args_string "greedy") "ValueError") w'
    /\ trace w' =
       [Ev_random_seed 0; Ev_numpy_seed 1234; Ev_torch_seed 1234;
        Ev_log INFO (Msg_seeds [("random seed", 0); ("numpy seed", 1234);
                                ("torch manual seed", 1234)]);
        Ev_simple_parse_args_string "greedy"].
Proof. eexists. split; reflexivity. Qed.



(** ** The overwritten parameters *)

(** C6: [model_args], [tasks], [num_fewshot] and [batch_size] as the
    caller gives them have no effect.  Two calls of [eval] that differ in
    them alone end alike, with the same result or exception and the same
    world.  In every run the few-shot count set on a task is 0, and the
    task list, the model arguments and the batch size handed to the
    collaborators are those of the constructor. *)
Theorem overwritten_arguments_ignored env self llmc_model a b w :
  same_but_overwritten a b ->
  eval env self llmc_model a w = eval env self llmc_model b w
  /\ Forall (overwritten_event self)
       (events_since w (world_of (eval env self llmc_model a w))).
Proof.
  intros Hab. split.
  - destruct a, b. unfold same_but_overwritten in Hab. cbn in Hab.
    decompose [and] Hab. subst. reflexivity.
  - apply emits_events_since.
    apply (emits_weaken (eval_event self a)); [| apply eval_emits].
    intros [] He; cbn in *; auto.
Qed.

Lemma overwritten_arguments_ignored_witness :
  eval Examples.env Examples.vqa_eval Examples.llava Examples.default_args
    Examples.world
  = eval Examples.env Examples.vqa_eval Examples.llava
      (Args.mk None (Some (PyStr "pretrained=other")) (Some [PyStr "taskZ"])
         (Some 5) (Some (PyInt 64)) None None None false false false None
         100000 false false true None None false false None None "INFO" false
         (Some 0) (Some 1234) (Some 1234) 1234 "2024-01-01" None)
      Examples.world.
Proof.
  refine (proj1 (overwritten_arguments_ignored Examples.env Examples.vqa_eval
                   Examples.llava Examples.default_args _ Examples.world _)).
  repeat split.
Defined.

(** ** The report *)

Lemma bind_Ok_inv {A B} (m : M A) (k : A -> M B) w r w' :
  bind m k w = Ok r w' -> exists a w1, m w = Ok a w1 /\ k a w1 = Ok r w'.
Proof.
  unfold bind. destruct (m w) as [a w1 | e w1]; [| discriminate].
  intros H. now exists a, w1.
Qed.

(** The trace of a computation that returns. *)
Lemma emits_Ok {A} Q (m : M A) w a w' :
  emits Q m -> m w = Ok a w' ->
  exists evs, trace w' = trace w ++ evs /\ Forall Q evs.
Proof. intros Hm Hrun. specialize (Hm w). now rewrite Hrun in Hm. Qed.

Lemma extends_Ok {A} (m : M A) w a w' :
  emits (fun _ => True) m -> m w = Ok a w' ->
  exists evs, trace w' = trace w ++ evs.
Proof.
  intros Hm Hrun. destruct (emits_Ok _ m w a w' Hm Hrun) as (evs & Htr & _).
  now exists evs.
Qed.

Lemma extends_trans w1 w2 w3 :
  (exists evs, trace w2 = trace w1 ++ evs) ->
  (exists evs, trace w3 = trace w2 ++ evs) ->
  exists evs, trace w3 = trace w1 ++ evs.
Proof.
  intros [e1 H1] [e2 H2]. exists (e1 ++ e2). now rewrite H2, H1, app_assoc.
Qed.

(** Lines 265-306: with rank 0 the report is the table of the results
    with the entries 'config' and 'date' set, and [None] otherwise. *)
Lemma report_spec env lm model model_args batch_size gen_kwargs a results :
  (rank lm = 0 ->
   exists rep cfg,
     report env lm model model_args batch_size gen_kwargs a results
     = Some (String "010"%char (make_table env rep))
     /\ dict_get "date" rep = Some (PyStr (Args.datetime_str a))
     /\ dict_get "config" rep = Some (PyDict cfg)
     /\ dict_get "model_args" cfg = Some (PyStr model_args)
     /\ dict_get "batch_size" cfg = Some batch_size
     /\ dict_get "fewshot_seed" cfg = Some (PyInt (Args.fewshot_random_seed a))
     /\ (forall k, k <> "config" -> k <> "date" ->
                   dict_get k rep = dict_get k results))
  /\ (rank lm <> 0 ->
      report env lm model model_args batch_size gen_kwargs a results = None).
Proof.
  unfold report, report_results. split; intros Hrank.
  - rewrite Hrank. cbn [Z.eqb]. cbv zeta. rewrite dict_get_set_eq.
    eexists. eexists. split; [reflexivity |].
    split; [apply dict_get_set_eq |].
    split; [rewrite dict_get_set_ne by discriminate; apply dict_get_set_eq |].
    split; [reflexivity |]. split; [reflexivity |]. split; [reflexivity |].
    intros k Hc Hd. rewrite !dict_get_set_ne by congruence. reflexivity.
  - apply Z.eqb_neq in Hrank. now rewrite Hrank.
Qed.

Lemma adjust_config_extends gen_kwargs predict_only num_fewshot seed task_dict w :
  exists evs,
    trace (snd (_adjust_config gen_kwargs predict_only num_fewshot seed
                  task_dict w)) = trace w ++ evs.
Proof.
  rewrite adjust_config_world.
  destruct (adjust_leaves_trace gen_kwargs predict_only num_fewshot seed
              (leaf_entries task_dict) w) as (evs & Htr & _).
  now exists evs.
Qed.

Ltac extends_by H :=
  eapply extends_Ok in H;
  [| solve [ unfold set_seeds, parse_gen_kwargs, set_statistics_modules,
               register_forward_pre_hook, register_forward_hook,
               log_statistics;
             cbv zeta; repeat emits_step
            ] ].

Lemma extends_refl w : extends w w.
Proof. exists []. now rewrite app_nil_r. Qed.

Lemma extends_step w0 w w' :
  extends w0 w -> (exists evs, trace w' = trace w ++ evs) -> extends w0 w'.
Proof. apply extends_trans. Qed.

Lemma happened_step w0 e w w' :
  happened w0 e w -> (exists evs, trace w' = trace w ++ evs) -> happened w0 e w'.
Proof.
  intros (evs & Htr & He) (evs' & Htr'). exists (evs ++ evs').
  split; [now rewrite Htr', Htr, app_assoc | apply elem_of_app; now left].
Qed.

Lemma happened_emit w0 e w : extends w0 w -> happened w0 e (emit e w).
Proof.
  intros (evs & Htr). exists (evs ++ [e]). cbn [trace emit]. split.
  - now rewrite Htr, app_assoc.
  - apply elem_of_app. right. apply elem_of_cons. now left.
Qed.

Lemma happened_events_since w0 e w :
  happened w0 e w -> e ∈ events_since w0 w.
Proof. intros (evs & Htr & He). now rewrite (events_since_app _ _ _ Htr). Qed.

Lemma parse_gen_kwargs_value env a w gk w' :
  parse_gen_kwargs env a w = Ok gk w' -> gk = parsed_gen_kwargs env a.
Proof.
  unfold parse_gen_kwargs, parsed_gen_kwargs, call, returned, bind, act, ret.
  destruct (Args.gen_kwargs a) as [[| c s] |]; cbn;
    try destruct (upstream_error env _ _); cbn; now intros [= <- _].
Qed.

(** A run of [eval] that completes, step by step: the model is
    registered; the tree [d] is the adjusted one; the evaluator is called
    with it, in a world [we] whose task objects are those the adjuster
    left; and the value returned is the report on the evaluator's
    results. *)
Lemma eval_Ok_inv env self llmc_model a w r w' :
  eval env self llmc_model a w = Ok r w' ->
  exists create tm w7 d w8 we,
    let model_args := "pretrained=" +:+ model_path self +:+ ",device_map=auto" in
    let lm := create model_args (vlm_model llmc_model) (eval_bs self)
                (Args.device a) in
    eval_dataset_name self <> []
    /\ MODEL_REGISTRY env (eval_name llmc_model) = Some create
    /\ extends w w7
    /\ _adjust_config (parsed_gen_kwargs env a) (Args.predict_only a) (Some 0)
         (Args.fewshot_random_seed a)
         (get_task_dict env (eval_dataset_name self) tm) w7 = (d, w8)
    /\ task_objs we = task_objs w8
    /\ happened w (Ev_evaluate (evaluate_kwargs lm d a)) we
    /\ extends we w'
    /\ r = report env lm (eval_name llmc_model) model_args (eval_bs self)
             (parsed_gen_kwargs env a) a
             (fst (evaluate env (evaluate_kwargs lm d a) (task_objs we))).
Proof.
  intros H. unfold eval in H. cbv zeta in H.
  apply bind_Ok_inv in H as (? & w1 & H1 & H).
  destruct (eval_dataset_name self) as [| t ts] eqn:Htasks; [discriminate |].
  rewrite <- Htasks in H.
  apply bind_Ok_inv in H as (gk & w2 & H2 & H).
  pose proof (parse_gen_kwargs_value _ _ _ _ _ H2) as ->.
  apply bind_Ok_inv in H as (tm & w3 & H3 & H).
  apply bind_Ok_inv in H as (? & w4 & H4 & H).
  apply bind_Ok_inv in H as (? & w5 & H5 & H).
  destruct (MODEL_REGISTRY env (eval_name llmc_model)) as [create |] eqn:Hreg;
    [| discriminate].
  apply bind_Ok_inv in H as (? & w6 & H6 & H).
  apply bind_Ok_inv in H as (? & w7 & H7 & H).
  apply bind_Ok_inv in H as (d & w8 & H8 & H).
  apply bind_Ok_inv in H as (? & w9 & H9 & H).
  apply bind_Ok_inv in H as (? & w10 & H10 & H).
  apply bind_Ok_inv in H as (? & w11 & H11 & H).
  apply bind_Ok_inv in H as (out & w12 & H12 & H).
  apply bind_Ok_inv in H as (? & w13 & H13 & H).
  apply bind_Ok_inv in H as (? & w14 & H14 & H).
  apply bind_Ok_inv in H as (? & w15 & H15 & H).
  apply bind_Ok_inv in H as (? & w16 & H16 & H).
  apply bind_Ok_inv in H as (? & w17 & H17 & H).
  injection H as Hr Hw. injection H12 as Hout Hw12. subst w12 w17.
  injection H11 as _ Hw11.
  assert (Hobjs : task_objs w11 = task_objs w8).
  { rewrite <- Hw11. cbn [emit task_objs].
    transitivity (task_objs w9).
    - destruct (Args.evaluation_tracker a);
        [apply call_Ok in H10; now subst w10 | now injection H10 as _ <-].
    - destruct (Args.check_integrity a);
        [apply call_Ok in H9; now subst w9 | now injection H9 as _ <-]. }
  assert (Hadj : _adjust_config (parsed_gen_kwargs env a) (Args.predict_only a)
                   (Some 0) (Args.fewshot_random_seed a)
                   (get_task_dict env (eval_dataset_name self) tm) w7
                 = (d, w8)).
  { destruct (_adjust_config (parsed_gen_kwargs env a) (Args.predict_only a)
                (Some 0) (Args.fewshot_random_seed a)
                (get_task_dict env (eval_dataset_name self) tm) w7).
    now injection H8 as <- <-. }
  assert (H8' : exists evs, trace w8 = trace w7 ++ evs).
  { pose proof (adjust_config_extends (parsed_gen_kwargs env a)
                  (Args.predict_only a) (Some 0) (Args.fewshot_random_seed a)
                  (get_task_dict env (eval_dataset_name self) tm) w7) as E.
    now rewrite Hadj in E. }
  clear H8.
  extends_by H1. extends_by H2. extends_by H3. extends_by H4. extends_by H5.
  extends_by H6. extends_by H7. extends_by H9. extends_by H10.
  extends_by H13. extends_by H14. extends_by H15. extends_by H16.
  extends_by H17.
  assert (Hpre7 : extends w w7).
  { eapply extends_trans; [exact H1 |]. eapply extends_trans; [exact H2 |].
    eapply extends_trans; [exact H3 |]. eapply extends_trans; [exact H4 |].
    eapply extends_trans; [exact H5 |]. eapply extends_trans; [exact H6 |].
    exact H7. }
  assert (Hpre10 : extends w w10).
  { eapply extends_trans; [exact Hpre7 |]. eapply extends_trans; [exact H8' |].
    eapply extends_trans; [exact H9 |]. exact H10. }
  rewrite <- Htasks. exists create, tm, w7, d, w8, w11. cbv zeta.
  split; [congruence |]. split; [reflexivity |]. split; [exact Hpre7 |].
  split; [exact Hadj |]. split; [exact Hobjs |].
  split; [rewrite <- Hw11; now apply happened_emit |].
  split.
  { eapply extends_trans; [exact H13 |]. eapply extends_trans; [exact H14 |].
    eapply extends_trans; [exact H15 |]. eapply extends_trans; [exact H16 |].
    exact H17. }
  now rewrite <- Hr, <- Hout.
Qed.

(** C7: when a run of [eval] completes, the adapter is the one the model
    registry constructed and the evaluator was called with it; if the
    adapter reports rank 0 the value returned is a line feed and the table
    of a mapping that is the evaluator's results with the entries 'config'
    (a mapping) and 'date' set; with any other rank [eval] returns
    [None]. *)
Theorem report_only_on_rank_zero env self llmc_model a w r w' :
  eval env self llmc_model a w = Ok r w' ->
  exists create ea objs,
    MODEL_REGISTRY env (eval_name llmc_model) = Some create
    /\ ea_lm ea = create ("pretrained=" +:+ model_path self +:+ ",device_map=auto")
                    (vlm_model llmc_model) (eval_bs self) (Args.device a)
    /\ Ev_evaluate ea ∈ events_since w w'
    /\ (rank (ea_lm ea) = 0 ->
        exists rep cfg,
          r = Some (String "010"%char (make_table env rep))
          /\ dict_get "date" rep = Some (PyStr (Args.datetime_str a))
          /\ dict_get "config" rep = Some (PyDict cfg)
          /\ (forall k, k <> "config" -> k <> "date" ->
                        dict_get k rep = dict_get k (fst (evaluate env ea objs))))
    /\ (rank (ea_lm ea) <> 0 -> r = None).
Proof.
  intros H.
  apply eval_Ok_inv in H
    as (create & tm & w7 & d & w8 & we & _ & Hreg & _ & _ & _ & Hev & Hext & Hr).
  cbv zeta in Hev, Hr.
  match type of Hev with
  | happened _ (Ev_evaluate ?ea) _ => exists create, ea, (task_objs we)
  end.
  split; [exact Hreg |]. split; [reflexivity |].
  split; [apply happened_events_since; eapply happened_step; eassumption |].
  cbn [ea_lm evaluate_kwargs]. rewrite Hr.
  match goal with
  | |- context [report ?e ?l ?m ?ma ?b ?g ?aa ?res] =>
      destruct (report_spec e l m ma b g aa res) as [H0 Hn0]
  end.
  split; [| exact Hn0].
  intros Hrank. destruct (H0 Hrank) as (rep & cfg & Hrep & Hdate & Hcfg & _ & _ & _ & Hother).
  exists rep, cfg. auto.
Qed.

Lemma report_only_on_rank_zero_witness :
  exists r w' create ea objs,
    eval Examples.env Examples.vqa_eval Examples.llava Examples.default_args
      Examples.world = Ok r w'
    /\ MODEL_REGISTRY Examples.env (eval_name Examples.llava) = Some create
    /\ ea_lm ea = create ("pretrained=" +:+ model_path Examples.vqa_eval
                                        +:+ ",device_map=auto")
                    (vlm_model Examples.llava) (eval_bs Examples.vqa_eval)
                    (Args.device Examples.default_args)
    /\ Ev_evaluate ea ∈ events_since Examples.world w'
    /\ (rank (ea_lm ea) = 0 ->
        exists rep cfg,
          r = Some (String "010"%char (make_table Examples.env rep))
          /\ dict_get "date" rep
             = Some (PyStr (Args.datetime_str Examples.default_args))
          /\ dict_get "config" rep = Some (PyDict cfg)
          /\ (forall k, k <> "config" -> k <> "date" ->
                        dict_get k rep
                        = dict_get k (fst (evaluate Examples.env ea objs))))
    /\ (rank (ea_lm ea) <> 0 -> r = None).
Proof.
  assert (H : exists r w',
             eval Examples.env Examples.vqa_eval Examples.llava
               Examples.default_args Examples.world = Ok r w').
  { eexists. eexists. vm_compute. reflexivity. }
  destruct H as (r & w' & H). exists r, w'.
  destruct (report_only_on_rank_zero Examples.env Examples.vqa_eval
              Examples.llava Examples.default_args Examples.world r w' H)
    as (create & ea & objs & Hrest).
  exists create, ea, objs. split; [exact H | exact Hrest].
Defined.

(** ** Predict-only mode *)

Lemma same_inference_config_refl x : same_inference_config x x.
Proof. now repeat split. Qed.

(** The adjusted inference configuration does not depend on
    [predict_only]. *)
Lemma adjusted_task_same_inference gen_kwargs po po' num_fewshot seed x y :
  same_inference_config x y ->
  same_inference_config (adjusted_task gen_kwargs po num_fewshot seed x)
                        (adjusted_task gen_kwargs po' num_fewshot seed y).
Proof.
  intros (Hds & Hty & Hnf & Hgk & Hseed). unfold same_inference_config.
  rewrite !adjusted_task_dataset, !adjusted_task_output_type,
    !adjusted_task_num_fewshot, !adjusted_task_generation_kwargs,
    !adjusted_task_fewshot_seed.
  rewrite Hds, Hty, Hnf. repeat split.
  unfold with_generation. rewrite Hty.
  destruct (str_contains _ _); [destruct gen_kwargs |];
    cbn [Task.update_generation_kwargs Task.generation_kwargs];
    now rewrite Hgk.
Qed.

Lemma adjust_leaves_same_inference gen_kwargs po po' num_fewshot seed l :
  forall w1 w2,
    (forall o, same_inference_config (task_objs w1 o) (task_objs w2 o)) ->
    lm_task_dict w1 = lm_task_dict w2 ->
    (forall o,
        same_inference_config
          (task_objs (adjust_leaves gen_kwargs po num_fewshot seed l w1) o)
          (task_objs (adjust_leaves gen_kwargs po' num_fewshot seed l w2) o))
    /\ lm_task_dict (adjust_leaves gen_kwargs po num_fewshot seed l w1)
       = lm_task_dict (adjust_leaves gen_kwargs po' num_fewshot seed l w2).
Proof.
  induction l as [| [name o] l IH]; intros w1 w2 Hobjs Hlm; [now split |].
  rewrite !adjust_leaves_cons. apply IH.
  - intros o'. rewrite !adjust_leaf_objs. case_decide; [| apply Hobjs].
    apply adjusted_task_same_inference, Hobjs.
  - rewrite !adjust_leaf_lm_task_dict. rewrite Hlm.
    now destruct (Hobjs o) as (-> & _).
Qed.

(** C8: in predict-only mode every leaf of the adjusted tree computes the
    one metric 'bypass'; the few-shot count, the generation kwargs and
    the few-shot seed of every task object, and [lm.task_dict], are what
    they are without predict-only; and [eval] calls the evaluator with the
    log-samples flag set, whatever the caller passed for it: a run that
    completes has called the evaluator, and no run calls it without the
    flag. *)
Theorem predict_only_bypasses_metrics :
  (forall gen_kwargs num_fewshot seed task_dict w o,
      o ∈ leaves (fst (_adjust_config gen_kwargs true num_fewshot seed
                         task_dict w)) ->
      Task.metric_list
        (task_objs (snd (_adjust_config gen_kwargs true num_fewshot seed
                           task_dict w)) o) = ["bypass"])
  /\ (forall gen_kwargs num_fewshot seed task_dict w,
        (forall o,
            same_inference_config
              (task_objs (snd (_adjust_config gen_kwargs true num_fewshot seed
                                 task_dict w)) o)
              (task_objs (snd (_adjust_config gen_kwargs false num_fewshot seed
                                 task_dict w)) o))
        /\ lm_task_dict (snd (_adjust_config gen_kwargs true num_fewshot seed
                                task_dict w))
           = lm_task_dict (snd (_adjust_config gen_kwargs false num_fewshot seed
                                  task_dict w)))
  /\ (forall env self llmc_model a w,
        Args.predict_only a = true ->
        Forall logs_samples
          (events_since w (world_of (eval env self llmc_model a w)))
        /\ forall r w',
             eval env self llmc_model a w = Ok r w' ->
             exists ea,
               Ev_evaluate ea ∈ events_since w w'
               /\ ea_log_samples ea = true).
Proof.
  split; [| split].
  - intros gen_kwargs num_fewshot seed task_dict w o Ho.
    apply adjust_config_leaves, elem_of_leaves in Ho as [name Hin].
    rewrite adjust_config_world.
    apply (adjust_leaves_establish gen_kwargs true num_fewshot seed
             (fun w' => Task.metric_list (task_objs w' o) = ["bypass"])
             _ name o w Hin).
    + intros w'. rewrite adjust_leaf_objs, decide_True by reflexivity.
      now rewrite adjusted_task_metric_list.
    + intros w' name' o' Hm. rewrite adjust_leaf_objs.
      case_decide; [| exact Hm]. now rewrite adjusted_task_metric_list.
  - intros gen_kwargs num_fewshot seed task_dict w.
    rewrite !adjust_config_world.
    apply adjust_leaves_same_inference; [| reflexivity].
    intros o. apply same_inference_config_refl.
  - intros env self llmc_model a w Hpo. split.
    + apply emits_events_since.
      apply (emits_weaken (eval_event self a)); [| apply eval_emits].
      intros [] He; cbn in *; auto. now rewrite Hpo in He.
    + intros r w' H.
      apply eval_Ok_inv in H
        as (create & tm & w7 & d & w8 & we & _ & _ & _ & _ & _ & Hev & Hext & _).
      cbv zeta in Hev.
      match type of Hev with
      | happened _ (Ev_evaluate ?ea) _ => exists ea
      end.
      split.
      * apply happened_events_since. eapply happened_step; eassumption.
      * cbn [evaluate_kwargs ea_log_samples]. now rewrite Hpo.
Qed.

Lemma predict_only_bypasses_metrics_witness :
  Task.metric_list
    (task_objs (snd (_adjust_config GK_none true None 1234 Examples.task_dict
                       Examples.world)) 2) = ["bypass"]
  /\ Task.num_fewshot
       (task_objs (snd (_adjust_config GK_none true None 1234
                          Examples.task_dict Examples.world)) 1)
     = Task.num_fewshot
         (task_objs (snd (_adjust_config GK_none false None 1234
                            Examples.task_dict Examples.world)) 1)
  /\ exists r w' ea,
       eval Examples.env Examples.vqa_eval Examples.llava
         (Args.mk None None None None None None None None false
            false false None 100000 false false false None None
            false false None None "INFO" true (Some 0)
            (Some 1234) (Some 1234) 1234 "2024-01-01" None)
         Examples.world = Ok r w'
       /\ Ev_evaluate ea ∈ events_since Examples.world w'
       /\ ea_log_samples ea = true.
Proof.
  destruct predict_only_bypasses_metrics as (Hbypass & Hframe & Hlog).
  split; [| split].
  - apply Hbypass. vm_compute.
    apply elem_of_cons. right. apply elem_of_cons. now left.
  - destruct (Hframe GK_none None 1234 Examples.task_dict Examples.world)
      as [Hsame _].
    now destruct (Hsame 1%positive) as (_ & _ & Hnf & _).
  - match goal with
    | |- exists r w' ea, eval ?e ?s ?m ?a ?w = _ /\ _ =>
        destruct (Hlog e s m a w eq_refl) as [_ Hcall];
        assert (H : exists r w', eval e s m a w = Ok r w')
          by (eexists; eexists; vm_compute; reflexivity)
    end.
    destruct H as (r & w' & H). destruct (Hcall r w' H) as (ea & Hev & Hls).
    exists r, w', ea. split; [exact H | split; [exact Hev | exact Hls]].
Defined.

(** * Further properties of the Config Adjuster *)

Section AdjusterFrame.
Variable gen_kwargs : gen_kwargs_val.
Variable predict_only : bool.
Variable num_fewshot : option Z.
Variable seed : Z.

Abbreviation adjust_leaves_ := (adjust_leaves gen_kwargs predict_only num_fewshot seed).
Abbreviation adjust_config_ := (_adjust_config gen_kwargs predict_only num_fewshot seed).

(** A task object that is not among the leaves worked on stays as it
    is. *)
Lemma adjust_leaves_objs_other l w o :
  o ∉ map snd l -> task_objs (adjust_leaves_ l w) o = task_objs w o.
Proof.
  intros Ho.
  apply (adjust_leaves_invariant gen_kwargs predict_only num_fewshot seed
           (fun w' => task_objs w' o = task_objs w o)); [| reflexivity].
  intros w' name o' Hin Hw'. rewrite adjust_leaf_objs.
  case_decide as Heq; [| exact Hw']. subst o'. exfalso. apply Ho.
  apply list_elem_of_In, in_map_iff. exists (name, o).
  split; [reflexivity | now apply list_elem_of_In].
Qed.

Lemma adjust_leaves_modules l w :
  attrs (adjust_leaves_ l w) = attrs w
  /\ forward_pre_hooks (adjust_leaves_ l w) = forward_pre_hooks w
  /\ forward_hooks (adjust_leaves_ l w) = forward_hooks w.
Proof.
  apply (adjust_leaves_invariant gen_kwargs predict_only num_fewshot seed
           (fun w' => attrs w' = attrs w
                      /\ forward_pre_hooks w' = forward_pre_hooks w
                      /\ forward_hooks w' = forward_hooks w)); [| auto].
  intros w' name o _ (Ha & Hp & Hq).
  destruct (adjust_leaf_frame gen_kwargs predict_only num_fewshot seed name o w')
    as (-> & -> & ->).
  auto.
Qed.

(** X1: a task object that is no leaf of the tree, be it behind a tuple
    without task or outside the tree, comes out of [_adjust_config] as it
    went in; and the attributes and hooks of the modules are not
    touched. *)
Theorem adjust_config_frame task_dict w o :
  o ∉ leaves task_dict ->
  task_objs (snd (adjust_config_ task_dict w)) o = task_objs w o
  /\ attrs (snd (adjust_config_ task_dict w)) = attrs w
  /\ forward_pre_hooks (snd (adjust_config_ task_dict w)) = forward_pre_hooks w
  /\ forward_hooks (snd (adjust_config_ task_dict w)) = forward_hooks w.
Proof.
  intros Ho. rewrite adjust_config_world.
  split; [now apply adjust_leaves_objs_other | apply adjust_leaves_modules].
Qed.

(** X2: the few-shot count of a leaf after [_adjust_config] is the one
    lines 188-208 resolve from the override and the count the leaf came
    with: a configured 0 stays, any other count gives way to a supplied
    override, and without override a missing count becomes 0 and a
    configured one stays. *)
Theorem fewshot_resolution task_dict w name o :
  (name, o) ∈ leaf_entries task_dict ->
  Task.num_fewshot (task_objs (snd (adjust_config_ task_dict w)) o)
  = match num_fewshot, Task.num_fewshot (task_objs w o) with
    | Some n, Some 0 => Some 0
    | Some n, _ => Some n
    | None, None => Some 0
    | None, Some d => Some d
    end.
Proof.
  intros Hin. rewrite adjust_config_world.
  set (x0 := Task.num_fewshot (task_objs w o)).
  set (res := match num_fewshot, x0 with
              | Some n, Some 0 => Some 0
              | Some n, _ => Some n
              | None, None => Some 0
              | None, Some d => Some d
              end).
  assert (Hstep : forall x, x = x0 \/ x = res ->
            match num_fewshot, x with
            | Some n, Some 0 => Some 0
            | Some n, _ => Some n
            | None, None => Some 0
            | None, Some d => Some d
            end = res).
  { intros x [-> | ->]; [reflexivity |]. unfold res.
    destruct num_fewshot as [[| n | n] |], x0 as [[| p | p] |]; reflexivity. }
  apply (adjust_leaves_establish_inv gen_kwargs predict_only num_fewshot seed
           (fun w' => Task.num_fewshot (task_objs w' o) = x0
                      \/ Task.num_fewshot (task_objs w' o) = res)
           (fun w' => Task.num_fewshot (task_objs w' o) = res)
           _ name o w Hin).
  - now left.
  - intros w' name' o' Hw'. rewrite adjust_leaf_objs.
    case_decide as Heq; [subst o' | exact Hw'].
    right. rewrite adjusted_task_num_fewshot. now apply Hstep.
  - intros w' Hw'. rewrite adjust_leaf_objs, decide_True by reflexivity.
    rewrite adjusted_task_num_fewshot. now apply Hstep.
  - intros w' name' o' _ Hw'. rewrite adjust_leaf_objs.
    case_decide as Heq; [subst o' | exact Hw'].
    rewrite adjusted_task_num_fewshot. apply Hstep. now right.
Qed.

(** X3: [_adjust_config] never changes the dataset or the output type of
    a task object; it leaves the metrics alone unless predict-only is
    requested; and it leaves the generation kwargs of a task object alone
    when no override is given ([None] or the empty string) or when the
    output type of the object does not hold 'generate_until'. *)
Theorem adjust_config_untouched task_dict w o :
  Task.dataset (task_objs (snd (adjust_config_ task_dict w)) o)
  = Task.dataset (task_objs w o)
  /\ Task.output_type (task_objs (snd (adjust_config_ task_dict w)) o)
     = Task.output_type (task_objs w o)
  /\ (predict_only = false ->
      Task.metric_list (task_objs (snd (adjust_config_ task_dict w)) o)
      = Task.metric_list (task_objs w o))
  /\ (gen_kwargs = GK_none \/ gen_kwargs = GK_empty_str
      \/ str_contains "generate_until" (Task.output_type (task_objs w o)) = false ->
      Task.generation_kwargs (task_objs (snd (adjust_config_ task_dict w)) o)
      = Task.generation_kwargs (task_objs w o)).
Proof.
  rewrite adjust_config_world.
  set (x0 := task_objs w o).
  apply (adjust_leaves_invariant gen_kwargs predict_only num_fewshot seed
           (fun w' =>
              Task.dataset (task_objs w' o) = Task.dataset x0
              /\ Task.output_type (task_objs w' o) = Task.output_type x0
              /\ (predict_only = false ->
                  Task.metric_list (task_objs w' o) = Task.metric_list x0)
              /\ (gen_kwargs = GK_none \/ gen_kwargs = GK_empty_str
                  \/ str_contains "generate_until" (Task.output_type x0) = false ->
                  Task.generation_kwargs (task_objs w' o)
                  = Task.generation_kwargs x0))); [| auto].
  intros w' name o' _ (Hds & Hty & Hm & Hgk). rewrite adjust_leaf_objs.
  case_decide as Heq; [subst o' | auto].
  rewrite adjusted_task_dataset, adjusted_task_output_type,
    adjusted_task_metric_list, adjusted_task_generation_kwargs.
  split; [exact Hds |]. split; [exact Hty |]. split.
  - intros Hpo. rewrite Hpo. now apply Hm.
  - intros Hcase. rewrite <- (Hgk Hcase). unfold with_generation. rewrite Hty.
    destruct Hcase as [-> | [-> | ->]];
      try destruct (str_contains _ _); reflexivity.
Qed.

End AdjusterFrame.

Lemma adjust_config_frame_witness :
  (7%positive ∉ leaves Examples.task_dict)
  /\ task_objs (snd (_adjust_config (GK_dict [("temperature", PyInt 0)]) true
                       (Some 3) 1234 Examples.task_dict Examples.world)) 7
     = task_objs Examples.world 7.
Proof.
  assert (H : 7%positive ∉ leaves Examples.task_dict).
  { apply (bool_decide_unpack _). vm_compute. exact I. }
  split; [exact H |].
  exact (proj1 (adjust_config_frame (GK_dict [("temperature", PyInt 0)]) true
                  (Some 3) 1234 Examples.task_dict Examples.world 7 H)).
Defined.

Lemma fewshot_resolution_witness :
  ("taskA", 1%positive) ∈ leaf_entries Examples.task_dict
  /\ Task.num_fewshot
       (task_objs (snd (_adjust_config GK_none false (Some 3) 1234
                          Examples.task_dict Examples.world)) 1) = Some 3.
Proof.
  assert (H : ("taskA", 1%positive) ∈ leaf_entries Examples.task_dict).
  { vm_compute. apply elem_of_cons. now left. }
  split; [exact H |].
  exact (fewshot_resolution GK_none false (Some 3) 1234 Examples.task_dict
           Examples.world "taskA" 1 H).
Defined.

Lemma adjust_config_untouched_witness :
  Task.metric_list
    (task_objs (snd (_adjust_config (GK_dict [("temperature", PyInt 0)]) false
                       None 1234 Examples.task_dict Examples.world)) 1)
  = ["exact_match"]
  /\ Task.generation_kwargs
       (task_objs (snd (_adjust_config (GK_dict [("temperature", PyInt 0)])
                          false None 1234 Examples.task_dict Examples.world)) 2)
     = [].
Proof.
  destruct (adjust_config_untouched (GK_dict [("temperature", PyInt 0)]) false
              None 1234 Examples.task_dict Examples.world 1)
    as (_ & _ & Hm & _).
  destruct (adjust_config_untouched (GK_dict [("temperature", PyInt 0)]) false
              None 1234 Examples.task_dict Examples.world 2)
    as (_ & _ & _ & Hgk).
  split; [now apply Hm |]. apply Hgk. right. right. reflexivity.
Defined.

(** ** [lm.task_dict] *)

Lemma dict_get_map_values {V W} (g : V -> W) k (d : dict V) :
  dict_get k (map (fun e => (fst e, g (snd e))) d) = g <$> dict_get k d.
Proof.
  induction d as [| [k' v] d IH]; [reflexivity |].
  cbn [map dict_get fst snd]. now destruct (String.eqb k k').
Qed.

Lemma keys_map_values {V W} (g : V -> W) (d : dict V) :
  keys (map (fun e => (fst e, g (snd e))) d) = keys d.
Proof. unfold keys. rewrite map_map. reflexivity. Qed.

(** Line 169, leaf after leaf: [lm.task_dict] is updated with the dataset
    of every leaf under the name of its entry. *)
Lemma adjust_leaves_lm_task_dict gen_kwargs predict_only num_fewshot seed l :
  forall w,
    lm_task_dict (adjust_leaves gen_kwargs predict_only num_fewshot seed l w)
    = dict_update (lm_task_dict w)
        (map (fun e => (fst e, Task.dataset (task_objs w (snd e)))) l).
Proof.
  induction l as [| [name o] l IH]; intros w; [reflexivity |].
  rewrite adjust_leaves_cons, IH. cbn [map fst snd].
  rewrite dict_update_cons, adjust_leaf_lm_task_dict. f_equal.
  apply map_ext. intros [name' o']. cbn [fst snd]. f_equal.
  rewrite adjust_leaf_objs. case_decide as Heq; [subst o' | reflexivity].
  apply adjusted_task_dataset.
Qed.

(** X4: when no two leaves of the tree are entered under one name,
    [lm.task_dict] maps the name of every leaf to the dataset of its task
    object after [_adjust_config], and reads as before under every other
    name. *)
Theorem lm_task_dict_entered gen_kwargs predict_only num_fewshot seed
    task_dict w :
  NoDup (keys (leaf_entries task_dict)) ->
  forall name,
    dict_get name
      (lm_task_dict (snd (_adjust_config gen_kwargs predict_only num_fewshot
                            seed task_dict w)))
    = match dict_get name (leaf_entries task_dict) with
      | Some o => Some (Task.dataset (task_objs w o))
      | None => dict_get name (lm_task_dict w)
      end.
Proof.
  intros Hnd name. rewrite adjust_config_world, adjust_leaves_lm_task_dict.
  pose proof (dict_get_map_values (fun o => Task.dataset (task_objs w o)) name
                (leaf_entries task_dict)) as Hget.
  destruct (dict_get name (leaf_entries task_dict)) as [o |] eqn:E;
    cbn [fmap option_fmap option_map] in Hget.
  - apply dict_get_update_Some; [| exact Hget].
    now rewrite (keys_map_values (fun o => Task.dataset (task_objs w o))).
  - now apply dict_get_update_None.
Qed.

Lemma lm_task_dict_entered_witness :
  NoDup (keys (leaf_entries Examples.task_dict))
  /\ dict_get "taskB"
       (lm_task_dict (snd (_adjust_config GK_none false None 1234
                             Examples.task_dict Examples.world)))
     = Some 2%positive
  /\ dict_get "gone"
       (lm_task_dict (snd (_adjust_config GK_none false None 1234
                             Examples.task_dict Examples.world)))
     = None.
Proof.
  assert (H : NoDup (keys (leaf_entries Examples.task_dict))).
  { apply (bool_decide_unpack _). vm_compute. exact I. }
  split; [exact H |]. split.
  - exact (lm_task_dict_entered GK_none false None 1234 Examples.task_dict
             Examples.world H "taskB").
  - exact (lm_task_dict_entered GK_none false None 1234 Examples.task_dict
             Examples.world H "gone").
Defined.

(** ** What the adjuster logs *)

(** X5: without a few-shot override and without predict-only,
    [_adjust_config] logs nothing. *)
Theorem adjust_config_silent gen_kwargs seed task_dict w :
  Forall (fun e => ~ is_log e)
    (events_since w (snd (_adjust_config gen_kwargs false None seed
                            task_dict w))).
Proof.
  rewrite adjust_config_world.
  destruct (adjust_leaves_trace gen_kwargs false None seed
              (leaf_entries task_dict) w) as (evs & Htr & _ & Hall).
  rewrite (events_since_app _ _ _ Htr).
  eapply Forall_impl; [exact Hall |].
  intros e (name & o & x & _ & He).
  unfold leaf_events, generation_events, predict_only_events, fewshot_events
    in He.
  rewrite !elem_of_app in He.
  destruct (str_contains _ _); [destruct gen_kwargs |];
    destruct (Task.num_fewshot x);
    destruct He as [He | [He | [He | He]]];
    repeat (apply elem_of_cons in He as [-> | He]);
    try (now apply elem_of_nil in He); cbn; tauto.
Qed.

(** X6: with an override [n], at the first entry of the tree that leads
    to a task object, if the object does not come with the count 0, the
    warning logged names the entry, the count the object came with and
    [n], and the count is set to [n].  Later entries of the same object,
    or of other objects entered twice, do not matter. *)
Theorem fewshot_overwrite_logged gen_kwargs predict_only n seed task_dict w
    l1 name o l2 :
  leaf_entries task_dict = l1 ++ (name, o) :: l2 ->
  o ∉ map snd l1 ->
  Task.num_fewshot (task_objs w o) <> Some 0 ->
  Ev_log WARNING
    (Msg_fewshot_overwrite name (Task.num_fewshot (task_objs w o)) n)
  ∈ events_since w (snd (_adjust_config gen_kwargs predict_only (Some n) seed
                           task_dict w))
  /\ Ev_set_num_fewshot o n
     ∈ events_since w (snd (_adjust_config gen_kwargs predict_only (Some n)
                              seed task_dict w)).
Proof.
  intros Hl Ho Hnz. rewrite adjust_config_world, Hl.
  split; apply adjust_leaves_events_of;
    rewrite (adjust_leaves_objs_other gen_kwargs predict_only (Some n) seed
               l1 w o Ho);
    unfold leaf_events, fewshot_events; rewrite !elem_of_app;
    right; right; left;
    destruct (Task.num_fewshot (task_objs w o)) as [[| p | p] |];
    try congruence;
    repeat first [ apply elem_of_cons; left; reflexivity
                 | apply elem_of_cons; right ].
Qed.

(** The object 2 is entered twice, after the entry 'taskA' and with it
    the object 1. *)
Lemma fewshot_overwrite_logged_witness :
  leaf_entries [("taskA", Leaf 1); ("taskB", Leaf 2); ("taskC", Leaf 2)]
  = [] ++ ("taskA", 1%positive) :: [("taskB", 2%positive); ("taskC", 2%positive)]
  /\ (1%positive ∉ map snd (@nil (string * positive)))
  /\ Task.num_fewshot (task_objs Examples.world 1) <> Some 0
  /\ Ev_log WARNING (Msg_fewshot_overwrite "taskA" None 3)
     ∈ events_since Examples.world
         (snd (_adjust_config GK_none false (Some 3) 1234
                 [("taskA", Leaf 1); ("taskB", Leaf 2); ("taskC", Leaf 2)]
                 Examples.world))
  /\ Ev_set_num_fewshot 1 3
     ∈ events_since Examples.world
         (snd (_adjust_config GK_none false (Some 3) 1234
                 [("taskA", Leaf 1); ("taskB", Leaf 2); ("taskC", Leaf 2)]
                 Examples.world)).
Proof.
  assert (Hl : leaf_entries
                 [("taskA", Leaf 1); ("taskB", Leaf 2); ("taskC", Leaf 2)]
               = [] ++ ("taskA", 1%positive)
                       :: [("taskB", 2%positive); ("taskC", 2%positive)])
    by reflexivity.
  assert (Ho : 1%positive ∉ map snd (@nil (string * positive)))
    by apply not_elem_of_nil.
  assert (Hnz : Task.num_fewshot (task_objs Examples.world 1) <> Some 0)
    by discriminate.
  split; [exact Hl |]. split; [exact Ho |]. split; [exact Hnz |].
  exact (fewshot_overwrite_logged GK_none false 3 1234 _ Examples.world
           [] "taskA" 1 _ Hl Ho Hnz).
Defined.

(** ** The adjusted tree holds no tuple *)

Lemma plain_children sub :
  fold_right (fun kv acc => plain (snd kv) /\ acc) True sub <->
  Forall (fun kv : string * node => plain (snd kv)) sub.
Proof.
  induction sub as [| kv sub IH]; cbn [fold_right].
  - split; [constructor | trivial].
  - rewrite Forall_cons, IH. reflexivity.
Qed.

Lemma Forall_dict_set {V} (P : V -> Prop) k v (d : dict V) :
  P v -> Forall (fun kv => P (snd kv)) d ->
  Forall (fun kv => P (snd kv)) (dict_set k v d).
Proof.
  intros Hv. induction 1 as [| [k' v'] d Hv' Hd IH]; cbn [dict_set].
  - now repeat constructor.
  - destruct (String.eqb k k'); constructor; auto.
Qed.

Section PlainTree.
Variable gen_kwargs : gen_kwargs_val.
Variable predict_only : bool.
Variable num_fewshot : option Z.
Variable seed : Z.

Abbreviation adjust_entry__ := (adjust_entry gen_kwargs predict_only num_fewshot seed).

Lemma for_items_plain sub :
  Forall (fun kv => forall (acc : tree) w name,
            Forall (fun kv : string * node => plain (snd kv)) acc ->
            Forall (fun kv : string * node => plain (snd kv))
              (fst (adjust_entry__ (acc, w) name (snd kv)))) sub ->
  forall (acc : tree) w,
    Forall (fun kv : string * node => plain (snd kv)) acc ->
    Forall (fun kv : string * node => plain (snd kv))
      (fst (for_items adjust_entry__ sub (acc, w))).
Proof.
  induction 1 as [| [k c] sub Hc _ IH]; intros acc w Hacc; [exact Hacc |].
  rewrite for_items_cons.
  specialize (Hc acc w k Hacc). cbn [fst snd] in Hc.
  destruct (adjust_entry__ (acc, w) k c) as [acc' w'].
  now apply IH.
Qed.

Lemma adjust_entry_plain n :
  forall (acc : tree) w name,
    Forall (fun kv : string * node => plain (snd kv)) acc ->
    Forall (fun kv : string * node => plain (snd kv))
      (fst (adjust_entry__ (acc, w) name n)).
Proof.
  induction n as [sub IH | g [t |] | t] using node_ind; intros acc w name Hacc.
  - rewrite adjust_entry_group. cbn [fst].
    apply (Forall_dict_set plain); [| exact Hacc].
    cbn [plain]. apply plain_children.
    apply for_items_plain; [exact IH | constructor].
  - cbn [adjust_entry fst]. now apply (Forall_dict_set plain).
  - exact Hacc.
  - cbn [adjust_entry fst]. now apply (Forall_dict_set plain).
Qed.

(** X7: whatever tree it is given, [_adjust_config] returns a tree of
    groups and task objects: no tuple is left in it, with or without a
    task. *)
Theorem adjusted_tree_plain task_dict w :
  plain (Group (fst (_adjust_config gen_kwargs predict_only num_fewshot seed
                       task_dict w))).
Proof.
  cbn [plain]. apply plain_children. unfold _adjust_config.
  apply for_items_plain; [| constructor].
  apply Forall_forall. intros kv _ acc w' name. apply adjust_entry_plain.
Qed.

End PlainTree.

(** * Further properties of the Timing Instrumentor *)

(** X8: on a model that [set_statistics_modules] instruments, after a
    run of calls that all pass [inputs_embeds] the cumulative prefill time
    is what [+=] makes of 0 over the times of the calls with embedded
    inputs, one after the other in the order of the calls, and the
    cumulative decode time is that over the other calls; the time of a
    call is the difference of the readings of the clock in its two hooks.
    Differences and sums are those of doubles, rounded at every step.
    The calls of one kind play no part in the time of the other, and
    nothing is assumed of the clock. *)
Theorem cumulative_times_are_sums model w0 calls :
  hooks_on model (forward_pre_hooks w0) = [] ->
  hooks_on model (forward_hooks w0) = [] ->
  Forall passes_inputs_embeds calls ->
  exists w1 w2,
    set_statistics_modules model w0 = Ok tt w1
    /\ run_forward_calls model calls w1 = Ok tt w2
    /\ attrs w2 !! (model, "prefill_time")
       = Some (accumulate (Int 0) (map elapsed (calls_of_kind true calls)))
    /\ attrs w2 !! (model, "decode_time")
       = Some (accumulate (Int 0) (map elapsed (calls_of_kind false calls)))
    /\ (forall c, c ∈ calls ->
         elapsed c = Float (round64 (fc_clock_post c - fc_clock_pre c))).
Proof.
  intros Hpre Hpost Hpass.
  destruct (set_statistics_modules_instruments model w0 Hpre Hpost)
    as (w1 & Hset & Hinst1 & _).
  destruct (run_forward_calls_instrumented model calls w1 0 (Int 0) 0 (Int 0)
              Hinst1 Hpass)
    as (w2 & Hrun & [_ _ _ Hpt _ Hdt]).
  exists w1, w2. repeat (split; [assumption |]).
  intros c _. apply elapsed_float.
Qed.

(** Two calls with embedded inputs that take 0.1 s and 0.2 s leave the
    prefill time 0.30000000000000004, the double next above 0.3. *)
Lemma cumulative_times_are_sums_witness :
  exists w1 w2 pt dt,
    set_statistics_modules 9 Examples.world = Ok tt w1
    /\ run_forward_calls 9
         [mkCall [("inputs_embeds", PyObj 7)] 0 (1 # 10);
          Examples.decode_call;
          mkCall [("inputs_embeds", PyObj 7)] 0 (2 # 10)] w1 = Ok tt w2
    /\ attrs w2 !! (9%positive, "prefill_time") = Some (Float pt)
    /\ attrs w2 !! (9%positive, "decode_time") = Some (Float dt)
    /\ (pt == 1351079888211149 # 4503599627370496)%Q
    /\ (dt == 1)%Q.
Proof.
  destruct (cumulative_times_are_sums 9 Examples.world
              [mkCall [("inputs_embeds", PyObj 7)] 0 (1 # 10);
               Examples.decode_call;
               mkCall [("inputs_embeds", PyObj 7)] 0 (2 # 10)])
    as (w1 & w2 & Hset & Hrun & Hpt & Hdt & _).
  - reflexivity.
  - reflexivity.
  - repeat constructor; discriminate.
  - eexists w1, w2, _, _. split; [exact Hset |]. split; [exact Hrun |].
    split; [rewrite Hpt; vm_compute; reflexivity |].
    split; [rewrite Hdt; vm_compute; reflexivity |].
    split; vm_compute; reflexivity.
Defined.

(** ** Instrumenting a model more than once *)

Section RepeatedInstallation.
Variable model : positive.
Variable c : forward_call.

(** The pre-call hooks of [n] installations. *)
Lemma pre_hooks_seq n :
  forall w, exists w',
    sequence (run_pre_hook model c)
      (replicate n (model, start_time_hook_of)) w = Ok tt w'
    /\ forward_pre_hooks w' = forward_pre_hooks w
    /\ forward_hooks w' = forward_hooks w
    /\ attrs w' = match n with
                  | O => attrs w
                  | S _ => <[(model, "start_time") := Float (fc_clock_pre c)]>
                             (attrs w)
                  end.
Proof.
  induction n as [| n IH]; intros w.
  - exists w. now repeat split.
  - cbn [replicate sequence]. unfold run_pre_hook at 1. cbn [fst snd].
    rewrite Pos.eqb_refl.
    erewrite bind_Ok by apply start_time_hook_run.
    match goal with
    | |- context [sequence _ _ ?w1] => destruct (IH w1) as (w' & Hrun & Hp & Hq & Ha)
    end.
    exists w'. split; [exact Hrun |]. cbn [forward_pre_hooks forward_hooks attrs] in *.
    split; [exact Hp |]. split; [exact Hq |].
    rewrite Ha. destruct n; [reflexivity | apply insert_insert_eq].
Qed.

(** The post-call hooks of [n] installations on a call that passes
    [inputs_embeds]: the count of its kind goes up by [n]. *)
Lemma post_hooks_seq n v :
  dict_get "inputs_embeds" (fc_kwargs c) = Some v ->
  forall w pc dc st,
    attrs w !! (model, "start_time") = Some st ->
    attrs w !! (model, "prefill_count") = Some (Int pc) ->
    is_Some (attrs w !! (model, "prefill_time")) ->
    attrs w !! (model, "decode_count") = Some (Int dc) ->
    is_Some (attrs w !! (model, "decode_time")) ->
    exists w',
      sequence (run_post_hook model c)
        (replicate n (model, end_time_hook_of model)) w = Ok tt w'
      /\ forward_pre_hooks w' = forward_pre_hooks w
      /\ forward_hooks w' = forward_hooks w
      /\ attrs w' !! (model, "prefill_count")
         = Some (Int (if is_not_None v then pc + Z.of_nat n else pc))
      /\ is_Some (attrs w' !! (model, "prefill_time"))
      /\ attrs w' !! (model, "decode_count")
         = Some (Int (if is_not_None v then dc else dc + Z.of_nat n))
      /\ is_Some (attrs w' !! (model, "decode_time")).
Proof.
  intros Hk. induction n as [| n IH]; intros w pc dc st Hst Hpc [pt Hpt] Hdc [dt Hdt].
  - exists w. split; [reflexivity |]. split; [reflexivity |].
    split; [reflexivity |].
    replace (pc + Z.of_nat 0) with pc by lia.
    replace (dc + Z.of_nat 0) with dc by lia.
    destruct (is_not_None v); eauto 10.
  - cbn [replicate sequence]. unfold run_post_hook at 1. cbn [fst snd].
    rewrite Pos.eqb_refl.
    destruct (is_not_None v) eqn:Hv.
    + erewrite bind_Ok by (eapply end_time_hook_prefill; eauto).
      match goal with
      | |- context [sequence _ _ ?w1] =>
          destruct (IH w1 (pc + 1) dc st) as (w' & Hrun & Hp & Hq & Hc' & Ht' & Hd' & Hdt')
      end; cbn [attrs]; attr_lookup; eauto.
      exists w'. split; [exact Hrun |].
      cbn [forward_pre_hooks forward_hooks] in *.
      split; [exact Hp |]. split; [exact Hq |].
      replace (pc + Z.of_nat (S n)) with (pc + 1 + Z.of_nat n) by lia.
      auto.
    + erewrite bind_Ok by (eapply end_time_hook_decode; eauto).
      match goal with
      | |- context [sequence _ _ ?w1] =>
          destruct (IH w1 pc (dc + 1) st) as (w' & Hrun & Hp & Hq & Hc' & Ht' & Hd' & Hdt')
      end; cbn [attrs]; attr_lookup; eauto.
      exists w'. split; [exact Hrun |].
      cbn [forward_pre_hooks forward_hooks] in *.
      split; [exact Hp |]. split; [exact Hq |].
      replace (dc + Z.of_nat (S n)) with (dc + 1 + Z.of_nat n) by lia.
      auto.
Qed.

(** One call on a model instrumented [n] times. *)
Lemma call_forward_installed n w pc dc v :
  installed n model w pc dc ->
  dict_get "inputs_embeds" (fc_kwargs c) = Some v ->
  exists w',
    call_forward model c w = Ok tt w'
    /\ installed n model w'
         (if is_not_None v then pc + Z.of_nat n else pc)
         (if is_not_None v then dc else dc + Z.of_nat n).
Proof.
  intros [Hpre Hpost Hpc Hpt Hdc Hdt] Hk. unfold call_forward.
  rewrite (bind_Ok _ _ _ tt
             (world_of (sequence (run_pre_hook model c)
                          (forward_pre_hooks w) w))).
  2:{ rewrite run_pre_hooks_on, Hpre.
      destruct (pre_hooks_seq n w) as (w1 & -> & _). reflexivity. }
  rewrite run_pre_hooks_on, Hpre, run_post_hooks_on, Hpost.
  destruct (pre_hooks_seq n w) as (w1 & Hrun1 & Hp1 & Hq1 & Ha1).
  rewrite Hrun1. cbn [world_of].
  destruct n as [| n].
  - exists w1. cbn [replicate sequence]. split; [reflexivity |].
    replace (pc + Z.of_nat 0) with pc by lia.
    replace (dc + Z.of_nat 0) with dc by lia.
    assert (Hboth : installed 0 model w1 pc dc).
    { split; rewrite ?Hp1, ?Hq1, ?Ha1; assumption. }
    now destruct (is_not_None v).
  - destruct (post_hooks_seq (S n) v Hk w1 pc dc (Float (fc_clock_pre c)))
      as (w' & Hrun & Hp & Hq & Hc' & Ht' & Hd' & Hdt');
      rewrite ?Ha1; attr_lookup; auto.
    exists w'. split; [exact Hrun |].
    split; rewrite ?Hp, ?Hq, ?Hp1, ?Hq1; assumption.
Qed.

End RepeatedInstallation.

Lemma run_forward_calls_installed n model calls :
  forall w pc dc,
    installed n model w pc dc ->
    Forall passes_inputs_embeds calls ->
    exists w',
      run_forward_calls model calls w = Ok tt w'
      /\ installed n model w'
           (pc + Z.of_nat n * prefill_calls calls)
           (dc + Z.of_nat n * (Z.of_nat (length calls) - prefill_calls calls)).
Proof.
  induction calls as [| c calls IH]; intros w pc dc Hinst Hpass.
  - exists w. split; [reflexivity |].
    replace (pc + Z.of_nat n * prefill_calls []) with pc
      by (unfold prefill_calls; cbn; lia).
    replace (dc + Z.of_nat n
                  * (Z.of_nat (length (@nil forward_call)) - prefill_calls []))
      with dc by (unfold prefill_calls; cbn; lia).
    exact Hinst.
  - apply Forall_cons in Hpass as [Hc Hpass].
    unfold passes_inputs_embeds in Hc.
    destruct (dict_get "inputs_embeds" (fc_kwargs c)) as [v |] eqn:Hk;
      [| congruence].
    destruct (call_forward_installed model c n w pc dc v Hinst Hk)
      as (w1 & Hrun & Hinst1).
    destruct (IH _ _ _ Hinst1 Hpass) as (w' & Hrun' & Hinst').
    exists w'. split.
    + unfold run_forward_calls. cbn [sequence].
      erewrite bind_Ok by exact Hrun. exact Hrun'.
    + rewrite prefill_calls_cons. unfold is_prefill_call. rewrite Hk.
      cbn [length].
      destruct (is_not_None v).
      * replace (pc + Z.of_nat n * (1 + prefill_calls calls))
          with (pc + Z.of_nat n + Z.of_nat n * prefill_calls calls) by lia.
        replace (dc + Z.of_nat n * (Z.of_nat (S (length calls))
                                    - (1 + prefill_calls calls)))
          with (dc + Z.of_nat n * (Z.of_nat (length calls) - prefill_calls calls))
          by lia.
        exact Hinst'.
      * replace (pc + Z.of_nat n * (0 + prefill_calls calls))
          with (pc + Z.of_nat n * prefill_calls calls) by lia.
        replace (dc + Z.of_nat n * (Z.of_nat (S (length calls))
                                    - (0 + prefill_calls calls)))
          with (dc + Z.of_nat n
                + Z.of_nat n * (Z.of_nat (length calls) - prefill_calls calls))
          by lia.
        exact Hinst'.
Qed.

Lemma set_statistics_modules_installs n model w :
  hooks_on model (forward_pre_hooks w)
  = replicate n (model, start_time_hook_of) ->
  hooks_on model (forward_hooks w)
  = replicate n (model, end_time_hook_of model) ->
  exists w',
    set_statistics_modules model w = Ok tt w' /\ installed (S n) model w' 0 0.
Proof.
  intros Hpre Hpost. eexists. split; [reflexivity |].
  split; cbn [attrs forward_pre_hooks forward_hooks]; attr_lookup; eauto.
  - rewrite hooks_on_app, Hpre. unfold hooks_on.
    rewrite filter_cons, decide_True by reflexivity.
    now rewrite replicate_S_end.
  - rewrite hooks_on_app, Hpost. unfold hooks_on.
    rewrite filter_cons, decide_True by reflexivity.
    now rewrite replicate_S_end.
Qed.

(** X9: [set_statistics_modules] never removes a hook.  On a model that
    already carries [n] pairs of its hooks it sets the counts back to 0
    and registers one more pair; then, in a run of calls that all pass
    [inputs_embeds], every call is counted [n + 1] times, so that N such
    calls of which K have embedded inputs leave the prefill count at
    [(n + 1) * K] and the decode count at [(n + 1) * (N - K)]. *)
Theorem repeated_installation_counts n model w0 calls :
  hooks_on model (forward_pre_hooks w0)
  = replicate n (model, start_time_hook_of) ->
  hooks_on model (forward_hooks w0)
  = replicate n (model, end_time_hook_of model) ->
  Forall passes_inputs_embeds calls ->
  exists w1 w2,
    set_statistics_modules model w0 = Ok tt w1
    /\ installed (S n) model w1 0 0
    /\ run_forward_calls model calls w1 = Ok tt w2
    /\ installed (S n) model w2
         (Z.of_nat (S n) * prefill_calls calls)
         (Z.of_nat (S n) * (Z.of_nat (length calls) - prefill_calls calls)).
Proof.
  intros Hpre Hpost Hpass.
  destruct (set_statistics_modules_installs n model w0 Hpre Hpost)
    as (w1 & Hset & Hinst).
  destruct (run_forward_calls_installed (S n) model calls w1 0 0 Hinst Hpass)
    as (w2 & Hrun & Hinst2).
  exists w1, w2. split; [exact Hset |]. split; [exact Hinst |].
  split; [exact Hrun |].
  replace (Z.of_nat (S n) * prefill_calls calls)
    with (0 + Z.of_nat (S n) * prefill_calls calls) by lia.
  replace (Z.of_nat (S n) * (Z.of_nat (length calls) - prefill_calls calls))
    with (0 + Z.of_nat (S n) * (Z.of_nat (length calls) - prefill_calls calls))
    by lia.
  exact Hinst2.
Qed.

Lemma repeated_installation_counts_witness :
  exists w1 w2,
    set_statistics_modules 9 Examples.instrumented_world = Ok tt w1
    /\ installed 2 9 w1 0 0
    /\ run_forward_calls 9
         [Examples.prefill_call; Examples.decode_call; Examples.decode_call]
         w1 = Ok tt w2
    /\ installed 2 9 w2 2 4.
Proof.
  apply (repeated_installation_counts 1 9 Examples.instrumented_world
           [Examples.prefill_call; Examples.decode_call; Examples.decode_call]).
  - reflexivity.
  - reflexivity.
  - repeat constructor; discriminate.
Defined.

(** * Further properties of the orchestrator *)

(** ** The exceptions of a run *)

Section Raises.
Variable P : exn -> Prop.

Lemma raises_ret {A} (a : A) : raises P (ret a).
Proof. intros w e w' H. discriminate H. Qed.

Lemma raises_act f : raises P (act f).
Proof. intros w e w' H. discriminate H. Qed.

Lemma raises_read {A} (f : World -> A) : raises P (fun w => Ok (f w) w).
Proof. intros w e w' H. discriminate H. Qed.

Lemma raises_raise {A} e : P e -> raises P (@raise A e).
Proof. intros He w e' w' [= <- _]. exact He. Qed.

Lemma raises_returned env e :
  (forall cls, P (Upstream e cls)) -> raises P (returned env e).
Proof.
  intros He w e' w'. unfold returned.
  destruct (upstream_error env e w); [| discriminate].
  intros [= <- _]. apply He.
Qed.

Lemma raises_call env e :
  (forall cls, P (Upstream e cls)) -> raises P (call env e).
Proof. intros He w. unfold call. now apply raises_returned. Qed.

Lemma raises_bind {A B} (m : M A) (k : A -> M B) :
  raises P m -> (forall a, raises P (k a)) -> raises P (bind m k).
Proof.
  intros Hm Hk w e w'. unfold bind.
  destruct (m w) as [a w1 | e1 w1] eqn:E.
  - apply Hk.
  - intros [= <- <-]. eapply Hm. exact E.
Qed.

Lemma raises_getattr o name : P (AttributeError o name) -> raises P (getattr o name).
Proof.
  intros He w e w'. unfold getattr.
  destruct (attrs w !! (o, name)); [discriminate |]. now intros [= <- _].
Qed.

Lemma raises_setattr o name v : raises P (setattr o name v).
Proof. apply raises_act. Qed.

Lemma raises_sequence {A} (f : A -> M unit) l :
  (forall x, raises P (f x)) -> raises P (sequence f l).
Proof.
  intros Hf. induction l as [| x l IH]; cbn [sequence].
  - apply raises_ret.
  - apply raises_bind; [apply Hf | intros _; exact IH].
Qed.

Lemma raises_pointwise {A} (m : World -> M A) :
  (forall w0, raises P (m w0)) -> raises P (fun w => m w w).
Proof. intros H w. apply (H w w). Qed.

Lemma raises_adjust_config gen_kwargs predict_only num_fewshot seed task_dict :
  raises P (fun w =>
              let '(d, w') := _adjust_config gen_kwargs predict_only
                                num_fewshot seed task_dict w in
              Ok d w').
Proof.
  intros w e w'.
  destruct (_adjust_config gen_kwargs predict_only num_fewshot seed task_dict w).
  discriminate.
Qed.

End Raises.

Ltac raises_step :=
  first
    [ apply raises_ret | apply raises_act | apply raises_setattr
    | apply raises_read
    | apply raises_raise; cbn; now auto
    | apply raises_call; intros ?; cbn; now auto
    | apply raises_returned; intros ?; cbn; now auto
    | apply raises_getattr; cbn; now auto
    | apply raises_bind; [| intros ?]
    | match goal with
      | |- raises _ (match ?x with _ => _ end) => destruct x eqn:?
      end ].

Lemma raises_run_forward_calls P m calls :
  P (KeyError "inputs_embeds") -> (forall o name, P (AttributeError o name)) ->
  raises P (run_forward_calls m calls).
Proof.
  intros Hkey Hattr. apply raises_sequence. intros c. unfold call_forward.
  apply (raises_pointwise P
           (fun w0 => bind (sequence (run_pre_hook m c) (forward_pre_hooks w0))
                        (fun _ => sequence (run_post_hook m c) (forward_hooks w0)))).
  intros w0. apply raises_bind; [| intros _]; apply raises_sequence; intros [o h].
  - unfold run_pre_hook. destruct (Pos.eqb _ _); [| apply raises_ret].
    destruct h. unfold start_time_hook. repeat raises_step.
  - unfold run_post_hook. destruct (Pos.eqb _ _); [| apply raises_ret].
    destruct h as [model]. cbn [snd]. unfold end_time_hook.
    apply raises_bind; [apply raises_act | intros _].
    apply raises_bind; [now apply raises_getattr | intros st].
    destruct (dict_get _ _) as [v |]; [| now apply raises_raise].
    destruct (is_not_None v);
      repeat first [ apply raises_setattr | now apply raises_getattr
                   | apply raises_bind; [| intros ?] ].
Qed.

(** Every exception of a run of [eval] is one [eval_exception] allows. *)
Lemma eval_raises env self llmc_model a :
  raises (eval_exception env self llmc_model) (eval env self llmc_model a).
Proof.
  unfold eval. cbv zeta.
  apply raises_bind; [unfold set_seeds; cbv zeta; repeat raises_step | intros _].
  destruct (eval_dataset_name self) as [| t ts] eqn:Htasks;
    [now apply raises_raise |].
  rewrite <- Htasks.
  assert (Hne : eval_dataset_name self <> []) by (rewrite Htasks; discriminate).
  clear Htasks.
  apply raises_bind; [unfold parse_gen_kwargs; repeat raises_step | intros gk].
  apply raises_bind; [repeat raises_step | intros tm].
  apply raises_bind; [repeat raises_step | intros _].
  apply raises_bind.
  { destruct (statistics self); [| apply raises_ret].
    unfold set_statistics_modules, register_forward_pre_hook,
      register_forward_hook. repeat raises_step. }
  intros _.
  destruct (MODEL_REGISTRY env (eval_name llmc_model)) as [create |] eqn:Hreg;
    [| now apply raises_raise].
  apply raises_bind; [repeat raises_step | intros _].
  apply raises_bind; [repeat raises_step | intros _].
  apply raises_bind; [apply raises_adjust_config | intros task_dict].
  apply raises_bind; [repeat raises_step | intros _].
  apply raises_bind; [repeat raises_step | intros _].
  apply raises_bind; [repeat raises_step | intros _].
  apply raises_bind; [apply raises_read | intros out].
  apply raises_bind.
  { apply raises_run_forward_calls; cbn; auto. }
  intros _.
  apply raises_bind; [repeat raises_step | intros _].
  apply raises_bind; [| intros _; repeat raises_step].
  unfold log_statistics.
  destruct (statistics self) eqn:Hstat; [| apply raises_ret].
  repeat raises_step.
Qed.

(** X10: an evaluator built by [__init__] fails the assertion on the
    task list only when the names of its configuration are the empty
    list; a single name, which the constructor wraps in a list, never
    fails it.  With the empty list the assertion does fail, provided the
    seeding before it does not raise. *)
Theorem assertion_iff_no_names env config llmc_model a w :
  ((exists msg w',
       eval env (__init__ config) llmc_model a w = Raise (AssertionError msg) w')
   -> cfg_name config = Name_list [])
  /\ (cfg_name config = Name_list [] ->
      accepts env (seed_call a) ->
      exists msg w',
        eval env (__init__ config) llmc_model a w
        = Raise (AssertionError msg) w').
Proof.
  split.
  - intros (msg & w' & H).
    apply (eval_raises env (__init__ config) llmc_model a) in H.
    cbn in H. destruct (cfg_name config) as [s | [| t ts]];
      [discriminate | reflexivity | discriminate].
  - intros Hcfg Hacc.
    pose proof (set_seeds_accepted env a w Hacc) as Hrun.
    eexists. eexists. unfold eval. cbv zeta.
    erewrite bind_Ok by exact Hrun.
    cbn [__init__ eval_dataset_name]. rewrite Hcfg. reflexivity.
Qed.

(** X11: the exceptions [eval] can end with.  Of its own, an
    AssertionError means the task list is empty.  With a task list, the
    lookup of the model in the registry can fail; the post-call hook can
    fail on the key 'inputs_embeds' or on an attribute; and the division
    by a count that is zero can fail, which happens only with the
    statistics flag.  What a collaborator raises passes through: the two
    seeding calls come before the assertion, every other call needs a
    task list. *)
Theorem eval_exceptions env self llmc_model a w e w' :
  eval env self llmc_model a w = Raise e w' ->
  match e with
  | AssertionError _ => eval_dataset_name self = []
  | RegistryKeyError model =>
      eval_dataset_name self <> []
      /\ model = eval_name llmc_model
      /\ MODEL_REGISTRY env model = None
  | KeyError key => eval_dataset_name self <> [] /\ key = "inputs_embeds"
  | AttributeError _ _ => eval_dataset_name self <> []
  | ZeroDivisionError =>
      eval_dataset_name self <> [] /\ statistics self = true
  | Upstream (Ev_numpy_seed _) _ | Upstream (Ev_torch_seed _) _ => True
  | Upstream _ _ => eval_dataset_name self <> []
  end.
Proof. apply eval_raises. Qed.

(** ** Reasoning on runs *)

Lemma only_traces_refl w : only_traces w w.
Proof. repeat split. exists []. now rewrite app_nil_r. Qed.

Lemma only_traces_trans w1 w2 w3 :
  only_traces w1 w2 -> only_traces w2 w3 -> only_traces w1 w3.
Proof.
  intros (Ht & Ha & Hp & Hq & Hl & evs & Htr) (Ht' & Ha' & Hp' & Hq' & Hl' & evs' & Htr').
  repeat split; try congruence.
  exists (evs ++ evs'). now rewrite Htr', Htr, app_assoc.
Qed.

Lemma traces_only_ret {A} (a : A) : traces_only (ret a).
Proof. intros w. exists a, w. split; [reflexivity | apply only_traces_refl]. Qed.

Lemma traces_only_emit e : traces_only (act (emit e)).
Proof.
  intros w. exists tt, (emit e w). split; [reflexivity |].
  repeat split. now exists [e].
Qed.

Lemma traces_only_log l m : traces_only (act (log l m)).
Proof. apply traces_only_emit. Qed.

Lemma traces_only_read {A} (f : World -> A) : traces_only (fun w => Ok (f w) w).
Proof. intros w. exists (f w), w. split; [reflexivity | apply only_traces_refl]. Qed.

Lemma traces_only_bind {A B} (m : M A) (k : A -> M B) :
  traces_only m -> (forall a, traces_only (k a)) -> traces_only (bind m k).
Proof.
  intros Hm Hk w. destruct (Hm w) as (a & w1 & Hrun & H1).
  destruct (Hk a w1) as (b & w2 & Hrun' & H2).
  exists b, w2. split; [now rewrite (bind_Ok _ _ _ _ _ Hrun) |].
  eapply only_traces_trans; eassumption.
Qed.

(** A call that the collaborator accepts returns. *)
Lemma traces_only_call env (P : event -> Prop) e :
  accepts env P -> P e -> traces_only (call env e).
Proof.
  intros Hacc He w. exists tt, (emit e w).
  split; [now apply (call_accepted env P) |]. repeat split. now exists [e].
Qed.

Lemma traces_only_returned env (P : event -> Prop) e :
  accepts env P -> P e -> traces_only (returned env e).
Proof.
  intros Hacc He w. exists tt, w.
  split; [now apply (returned_accepted env P) | apply only_traces_refl].
Qed.

Ltac traces_step :=
  first
    [ apply traces_only_ret | apply traces_only_emit | apply traces_only_log
    | apply traces_only_read
    | eapply traces_only_call; [eassumption | cbn; now auto]
    | eapply traces_only_returned; [eassumption | cbn; now auto]
    | apply traces_only_bind; [| intros ?]
    | match goal with
      | |- traces_only (match ?x with _ => _ end) => destruct x eqn:?
      end ].

Lemma traces_only_set_seeds env a :
  accepts env (own_call a) -> traces_only (set_seeds env a).
Proof. intros Hacc. unfold set_seeds. cbv zeta. repeat traces_step. Qed.

Lemma traces_only_parse_gen_kwargs env a :
  accepts env (own_call a) -> traces_only (parse_gen_kwargs env a).
Proof. intros Hacc. unfold parse_gen_kwargs. repeat traces_step. Qed.

Section Hoare.
Context {A : Type}.
Implicit Types (P : World -> Prop) (Q : A -> World -> Prop)
  (E : exn -> World -> Prop).

Lemma hoare_ret P Q E (a : A) :
  (forall w, P w -> Q a w) -> hoare P (ret a) Q E.
Proof. intros H w Hw. now apply H. Qed.

Lemma hoare_raise P Q E e :
  (forall w, P w -> E e w) -> hoare P (@raise A e) Q E.
Proof. intros H w Hw. now apply H. Qed.

Lemma hoare_read P Q E (f : World -> A) :
  (forall w, P w -> Q (f w) w) -> hoare P (fun w => Ok (f w) w) Q E.
Proof. intros H w Hw. now apply H. Qed.

Lemma hoare_conseq P P' Q Q' E E' (m : M A) :
  (forall w, P' w -> P w) ->
  (forall a w, Q a w -> Q' a w) ->
  (forall e w, E e w -> E' e w) ->
  hoare P m Q E -> hoare P' m Q' E'.
Proof.
  intros HP HQ HE Hm w Hw. specialize (Hm w (HP w Hw)).
  destruct (m w); auto.
Qed.

(** A step that only adds to the trace keeps every stable assertion. *)
Lemma hoare_traces_only P E (m : M A) :
  traces_only m -> stable P -> hoare P m (fun _ => P) E.
Proof.
  intros Hm HP w Hw. destruct (Hm w) as (a & w' & -> & Hw').
  now apply (HP w).
Qed.

End Hoare.

Lemma hoare_pre {A} (P P' : World -> Prop) (Q : A -> World -> Prop) E
    (m : M A) :
  (forall w, P' w -> P w) -> hoare P m Q E -> hoare P' m Q E.
Proof. intros HP Hm w Hw. apply Hm, HP, Hw. Qed.

Lemma hoare_bind {A B} (P : World -> Prop) (R : A -> World -> Prop)
    (Q : B -> World -> Prop) (E : exn -> World -> Prop)
    (m : M A) (k : A -> M B) :
  hoare P m R E -> (forall a, hoare (R a) (k a) Q E) -> hoare P (bind m k) Q E.
Proof.
  intros Hm Hk w Hw. specialize (Hm w Hw). unfold bind.
  destruct (m w) as [a w1 | e w1]; [now apply Hk | exact Hm].
Qed.

Lemma hoare_act (P : World -> Prop) (Q : unit -> World -> Prop) E f :
  (forall w, P w -> Q tt (f w)) -> hoare P (act f) Q E.
Proof. intros H w Hw. now apply H. Qed.

Lemma hoare_adjust_config (P : World -> Prop) (Q : tree -> World -> Prop) E
    gen_kwargs predict_only num_fewshot seed task_dict :
  (forall w, P w ->
     Q (fst (_adjust_config gen_kwargs predict_only num_fewshot seed task_dict w))
       (snd (_adjust_config gen_kwargs predict_only num_fewshot seed task_dict w))) ->
  hoare P (fun w =>
             let '(d, w') := _adjust_config gen_kwargs predict_only num_fewshot
                               seed task_dict w in
             Ok d w') Q E.
Proof.
  intros H w Hw. specialize (H w Hw).
  now destruct (_adjust_config gen_kwargs predict_only num_fewshot seed
                  task_dict w).
Qed.

(** Without hooks on the module called, forward calls change nothing. *)
Lemma run_forward_calls_no_hooks m calls w :
  no_hooks m w -> run_forward_calls m calls w = Ok tt w.
Proof.
  intros [Hpre Hpost]. induction calls as [| c calls IH]; [reflexivity |].
  unfold run_forward_calls in *. cbn [sequence].
  erewrite bind_Ok; [exact IH |].
  unfold call_forward, bind. rewrite run_pre_hooks_on, Hpre.
  cbn [sequence ret]. rewrite run_post_hooks_on, Hpost. reflexivity.
Qed.

Lemma stable_same_modules w0 : stable (same_modules w0).
Proof.
  intros w w' (Ha & Hp & Hq) (_ & Ha' & Hp' & Hq' & _).
  unfold same_modules. now rewrite Ha', Hp', Hq'.
Qed.


(** ** Runs with the statistics flag *)

Lemma stable_extends w0 : stable (extends w0).
Proof.
  intros w w' Hw (_ & _ & _ & _ & _ & Htr). eapply extends_step; eauto.
Qed.

Lemma stable_happened w0 e : stable (happened w0 e).
Proof.
  intros w w' Hw (_ & _ & _ & _ & _ & Htr). eapply happened_step; eauto.
Qed.

Lemma stable_and (P Q : World -> Prop) :
  stable P -> stable Q -> stable (fun w => P w /\ Q w).
Proof. intros HP HQ w w' [Hp Hq] Hw. split; eauto. Qed.

Lemma instrumented_transfer model w w' pc pt dc dt :
  attrs w' = attrs w ->
  forward_pre_hooks w' = forward_pre_hooks w ->
  forward_hooks w' = forward_hooks w ->
  instrumented model w pc pt dc dt -> instrumented model w' pc pt dc dt.
Proof.
  intros Ha Hp Hq [H1 H2 H3 H4 H5 H6].
  split; rewrite ?Ha, ?Hp, ?Hq; assumption.
Qed.

Lemma stable_instrumented model pc pt dc dt :
  stable (fun w => instrumented model w pc pt dc dt).
Proof.
  intros w w' Hw (_ & Ha & Hp & Hq & _). eapply instrumented_transfer; eauto.
Qed.

Lemma stable_no_hooks model : stable (no_hooks model).
Proof.
  intros w w' [H1 H2] (_ & _ & Hp & Hq & _). unfold no_hooks.
  now rewrite Hp, Hq.
Qed.

(** Lines 248-259 on an instrumented model: the division fails when a
    count is zero; otherwise, when the reading of the peak memory returns,
    the peak memory and the two averages, in milliseconds, are logged. *)
Lemma log_statistics_run env self llmc_model w pc pt dc dt :
  statistics self = true ->
  instrumented (vlm_model llmc_model) w pc pt dc dt ->
  (pc = 0 \/ dc = 0 ->
   log_statistics env self llmc_model w = Raise ZeroDivisionError w)
  /\ (pc <> 0 -> dc <> 0 ->
      (forall w1, upstream_error env Ev_max_memory_allocated w1 = None) ->
      exists w',
        log_statistics env self llmc_model w = Ok tt w'
        /\ attrs w' = attrs w
        /\ forward_pre_hooks w' = forward_pre_hooks w
        /\ forward_hooks w' = forward_hooks w
        /\ task_objs w' = task_objs w
        /\ trace w' =
           trace w
           ++ [Ev_max_memory_allocated;
               Ev_log INFO
                 (Msg_peak_memory
                    (num_to_Q
                       (num_quot
                          (num_quot (Int (max_memory_allocated env)) (Int 1024))
                          (Int 1024))));
               Ev_log INFO (Msg_prefill_average (average_ms pt pc));
               Ev_log INFO (Msg_decode_average (average_ms dt dc))]).
Proof.
  intros Hstat [_ _ Hpc Hpt Hdc Hdt]. unfold log_statistics. rewrite Hstat.
  assert (Hget : forall name v (k : num -> M unit),
             attrs w !! (vlm_model llmc_model, name) = Some v ->
             bind (getattr (vlm_model llmc_model) name) k w = k v w).
  { intros name v k Hv. apply bind_Ok. unfold getattr. now rewrite Hv. }
  rewrite (Hget _ _ _ Hpt), (Hget _ _ _ Hpc).
  split.
  - intros Hz. unfold num_div at 1. cbn [num_is_zero].
    destruct (Z.eqb_spec pc 0) as [-> | Hne]; [reflexivity |].
    destruct Hz as [Hz | Hz]; [contradiction |].
    rewrite (Hget _ _ _ Hdt), (Hget _ _ _ Hdc).
    unfold num_div. cbn [num_is_zero]. subst dc. reflexivity.
  - intros Hp Hd Hmem. unfold num_div at 1. cbn [num_is_zero].
    apply Z.eqb_neq in Hp. rewrite Hp.
    rewrite (Hget _ _ _ Hdt), (Hget _ _ _ Hdc).
    unfold num_div. cbn [num_is_zero]. apply Z.eqb_neq in Hd. rewrite Hd.
    unfold call, returned, bind at 1. rewrite Hmem.
    eexists. split; [reflexivity |].
    cbn [attrs forward_pre_hooks forward_hooks task_objs trace emit log].
    repeat split. unfold log, emit. cbn [trace].
    now rewrite <- !app_assoc.
Qed.

Section StatisticsRun.
Variable env : Env.
Variable self : VQAEval.
Variable llmc_model : LlmcModel.
Variable a : Args.t.
Variable w0 : World.
Variable create : string -> positive -> pyval -> option string -> Lm.

Hypothesis Hstat : statistics self = true.
Hypothesis Htasks : eval_dataset_name self <> [].
Hypothesis Hreg : MODEL_REGISTRY env (eval_name llmc_model) = Some create.
Hypothesis Hnh : no_hooks (vlm_model llmc_model) w0.
Hypothesis Hacc : accepts env (own_call a).
Hypothesis Hpass :
  forall ea objs, Forall passes_inputs_embeds (snd (evaluate env ea objs)).

Abbreviation vlm := (vlm_model llmc_model).

(** A run with the statistics flag on a model without hooks, in which no
    call into a collaborator raises: either the averages are logged, from
    the counts and the cumulative times of the calls the evaluator made,
    or the division fails because one of the counts is zero; in both
    cases after the evaluation. *)
Lemma eval_statistics_hoare :
  hoare (fun w => w = w0) (eval env self llmc_model a)
    (fun _ w' =>
       exists ea objs,
         prefill_calls (snd (evaluate env ea objs)) <> 0
         /\ decode_calls (snd (evaluate env ea objs)) <> 0
         /\ instrumented (vlm_model llmc_model) w'
              (prefill_calls (snd (evaluate env ea objs)))
              (cumulative true (snd (evaluate env ea objs)))
              (decode_calls (snd (evaluate env ea objs)))
              (cumulative false (snd (evaluate env ea objs)))
         /\ happened w0 (Ev_evaluate ea) w'
         /\ happened w0
              (Ev_log INFO
                 (Msg_prefill_average
                    (average_ms (cumulative true (snd (evaluate env ea objs)))
                       (prefill_calls (snd (evaluate env ea objs)))))) w'
         /\ happened w0
              (Ev_log INFO
                 (Msg_decode_average
                    (average_ms (cumulative false (snd (evaluate env ea objs)))
                       (decode_calls (snd (evaluate env ea objs)))))) w')
    (fun e w' =>
       e = ZeroDivisionError
       /\ exists ea objs,
           (prefill_calls (snd (evaluate env ea objs)) = 0
            \/ decode_calls (snd (evaluate env ea objs)) = 0)
           /\ instrumented (vlm_model llmc_model) w'
                (prefill_calls (snd (evaluate env ea objs)))
                (cumulative true (snd (evaluate env ea objs)))
                (decode_calls (snd (evaluate env ea objs)))
                (cumulative false (snd (evaluate env ea objs)))
           /\ happened w0 (Ev_evaluate ea) w').
Proof.
  set (S0 := fun w => no_hooks vlm w /\ extends w0 w).
  set (S1 := fun w => instrumented vlm w 0 (Int 0) 0 (Int 0) /\ extends w0 w).
  assert (HS0 : stable S0)
    by (apply stable_and; [apply stable_no_hooks | apply stable_extends]).
  assert (HS1 : stable S1)
    by (apply stable_and; [apply stable_instrumented | apply stable_extends]).
  unfold eval. cbv zeta.
  apply (hoare_bind _ (fun _ => S0)).
  { apply (hoare_pre S0).
    - intros w ->. split; [exact Hnh | apply extends_refl].
    - apply hoare_traces_only; [now apply traces_only_set_seeds | exact HS0]. }
  intros ?; cbv beta.
  destruct (eval_dataset_name self) as [| t ts] eqn:Hts; [contradiction |].
  rewrite <- Hts.
  apply (hoare_bind _ (fun _ => S0));
    [apply hoare_traces_only;
     [now apply traces_only_parse_gen_kwargs | exact HS0] |].
  intros gk; cbv beta.
  apply (hoare_bind _ (fun _ => S0));
    [apply hoare_traces_only; [repeat traces_step | exact HS0] |].
  intros tm; cbv beta.
  apply (hoare_bind _ (fun _ => S0));
    [apply hoare_traces_only; [repeat traces_step | exact HS0] |].
  intros ?; cbv beta. rewrite Hstat.
  apply (hoare_bind _ (fun _ => S1)).
  { intros w [[Hn1 Hn2] Hext].
    destruct (set_statistics_modules_instruments vlm w Hn1 Hn2)
      as (w' & Hset & Hinst & Htr & _).
    rewrite (bind_Ok _ _ _ _ _ Hset).
    rewrite (call_accepted env _ Ev_reset_peak_memory_stats w' Hacc I).
    split.
    - eapply instrumented_transfer; [| | | exact Hinst]; reflexivity.
    - eapply extends_step; [exact Hext |]. cbn [trace emit].
      exists [Ev_reset_peak_memory_stats]. now rewrite Htr. }
  intros ?; cbv beta. rewrite Hreg.
  apply (hoare_bind _ (fun _ => S1));
    [apply hoare_traces_only; [repeat traces_step | exact HS1] |].
  intros ?; cbv beta.
  apply (hoare_bind _ (fun _ => S1)).
  { apply hoare_act. intros w [Hinst Hext]. split; [| exact Hext].
    eapply instrumented_transfer; [| | | exact Hinst]; reflexivity. }
  intros ?; cbv beta.
  apply (hoare_bind _ (fun _ => S1)).
  { apply hoare_adjust_config. intros w [Hinst Hext].
    split.
    - rewrite adjust_config_world.
      match goal with
      | |- context [adjust_leaves ?g ?po ?nf ?sd ?l w] =>
          destruct (adjust_leaves_modules g po nf sd l w) as (Ha & Hp & Hq)
      end.
      eapply instrumented_transfer; eauto.
    - eapply extends_step; [exact Hext | apply adjust_config_extends]. }
  intros d; cbv beta.
  apply (hoare_bind _ (fun _ => S1));
    [apply hoare_traces_only; [repeat traces_step | exact HS1] |].
  intros ?; cbv beta.
  apply (hoare_bind _ (fun _ => S1));
    [apply hoare_traces_only; [repeat traces_step | exact HS1] |].
  intros ?; cbv beta.
  match goal with
  | |- hoare _ (bind (act (emit (Ev_evaluate ?e))) _) _ _ => set (ea := e)
  end.
  apply (hoare_bind _ (fun _ w => S1 w /\ happened w0 (Ev_evaluate ea) w)).
  { apply hoare_act. intros w [Hinst Hext]. split; [split |].
    - eapply instrumented_transfer; [| | | exact Hinst]; reflexivity.
    - eapply extends_step; [exact Hext |]. now exists [Ev_evaluate ea].
    - now apply happened_emit. }
  intros ?; cbv beta.
  apply (hoare_bind _
           (fun out w => (S1 w /\ happened w0 (Ev_evaluate ea) w)
                         /\ exists objs, out = evaluate env ea objs)).
  { apply hoare_read. intros w Hw. split; [exact Hw |]. now eexists. }
  intros out; cbv beta.
  set (S3 := fun w : World =>
         exists objs,
           instrumented vlm w
             (prefill_calls (snd (evaluate env ea objs)))
             (cumulative true (snd (evaluate env ea objs)))
             (decode_calls (snd (evaluate env ea objs)))
             (cumulative false (snd (evaluate env ea objs)))
           /\ happened w0 (Ev_evaluate ea) w).
  assert (HS3 : stable S3).
  { intros w w' (objs & Hinst & Hev) Hw. exists objs.
    split; [eapply stable_instrumented; eauto | eapply stable_happened; eauto]. }
  apply (hoare_bind _ (fun _ => S3)).
  { intros w ([[Hinst Hext] Hev] & objs & ->).
    destruct (run_forward_calls_instrumented vlm (snd (evaluate env ea objs)) w
                0 (Int 0) 0 (Int 0) Hinst (Hpass ea objs))
      as (w' & Hrun & Hinst').
    rewrite Hrun. exists objs. rewrite !Z.add_0_l in Hinst'.
    split; [exact Hinst' |].
    eapply happened_step; [exact Hev |].
    eapply extends_Ok; [| exact Hrun].
    now apply emits_run_forward_calls. }
  intros ?; cbv beta.
  apply (hoare_bind _ (fun _ => S3));
    [apply hoare_traces_only; [repeat traces_step | exact HS3] |].
  intros ?; cbv beta.
  set (S4 := fun w' : World =>
         exists objs,
           prefill_calls (snd (evaluate env ea objs)) <> 0
           /\ decode_calls (snd (evaluate env ea objs)) <> 0
           /\ instrumented vlm w'
                (prefill_calls (snd (evaluate env ea objs)))
                (cumulative true (snd (evaluate env ea objs)))
                (decode_calls (snd (evaluate env ea objs)))
                (cumulative false (snd (evaluate env ea objs)))
           /\ happened w0 (Ev_evaluate ea) w'
           /\ happened w0
                (Ev_log INFO
                   (Msg_prefill_average
                      (average_ms (cumulative true (snd (evaluate env ea objs)))
                         (prefill_calls (snd (evaluate env ea objs)))))) w'
           /\ happened w0
                (Ev_log INFO
                   (Msg_decode_average
                      (average_ms (cumulative false (snd (evaluate env ea objs)))
                         (decode_calls (snd (evaluate env ea objs)))))) w').
  assert (HS4 : stable S4).
  { intros w w' (objs & Hk & Hd & Hinst & He1 & He2 & He3) Hw.
    exists objs. split; [exact Hk |]. split; [exact Hd |].
    split; [eapply stable_instrumented; eauto |].
    split; [| split]; eapply stable_happened; eauto. }
  apply (hoare_bind _ (fun _ => S4)).
  { intros w (objs & Hinst & Hev).
    destruct (log_statistics_run env self llmc_model w _ _ _ _ Hstat Hinst)
      as [Hfail Hok].
    destruct (Z.eq_dec (prefill_calls (snd (evaluate env ea objs))) 0) as [Hk | Hk];
      [| destruct (Z.eq_dec (decode_calls (snd (evaluate env ea objs))) 0)
           as [Hd | Hd]].
    - rewrite Hfail by now left. split; [reflexivity |].
      exists ea, objs. split; [now left |]. split; assumption.
    - rewrite Hfail by now right. split; [reflexivity |].
      exists ea, objs. split; [now right |]. split; assumption.
    - destruct (Hok Hk Hd) as (w' & Hrun & Ha & Hp & Hq & Ht & Htr);
        [intros w1; now apply Hacc |].
      rewrite Hrun. exists objs.
      split; [exact Hk |]. split; [exact Hd |].
      split; [eapply instrumented_transfer; eauto |].
      destruct Hev as (evs & Hevs & Hin).
      split; [| split]; eexists;
        (split; [rewrite Htr, Hevs, <- app_assoc; reflexivity |]);
        rewrite elem_of_app; [now left | right | right];
        repeat first [ apply elem_of_cons; left; reflexivity
                     | apply elem_of_cons; right ]. }
  intros ?; cbv beta.
  apply (hoare_bind _ (fun _ => S4));
    [apply hoare_traces_only; [repeat traces_step | exact HS4] |].
  intros ?; cbv beta.
  apply (hoare_bind _ (fun _ => S4));
    [apply hoare_traces_only; [repeat traces_step | exact HS4] |].
  intros ?; cbv beta.
  apply hoare_ret. intros w (objs & H).
  exists ea, objs. exact H.
Qed.

End StatisticsRun.

(** The collaborators of the examples take the calls of a run with the
    default arguments. *)
Lemma examples_accept :
  accepts Examples.env (own_call Examples.default_args).
Proof.
  intros [] w He; try reflexivity; cbn in He;
    first [ discriminate He | injection He as <-; reflexivity ].
Qed.






Lemma eval_exceptions_witness :
  eval_dataset_name Examples.vqa_eval_statistics <> []
  /\ statistics Examples.vqa_eval_statistics = true.
Proof.
  assert (H : eval Examples.env_prefill_only Examples.vqa_eval_statistics
                Examples.llava Examples.default_args Examples.world
              = Raise ZeroDivisionError
                  (world_of (eval Examples.env_prefill_only
                               Examples.vqa_eval_statistics Examples.llava
                               Examples.default_args Examples.world))).
  { vm_compute. reflexivity. }
  exact (eval_exceptions Examples.env_prefill_only Examples.vqa_eval_statistics
           Examples.llava Examples.default_args Examples.world _ _ H).
Defined.

Lemma assertion_iff_no_names_witness :
  cfg_name (mkConfig (Name_list []) "/data" (PyInt 4) None "/models/x")
  = Name_list []
  /\ accepts Examples.env (seed_call Examples.default_args)
  /\ exists msg w',
       eval Examples.env
         (__init__ (mkConfig (Name_list []) "/data" (PyInt 4) None "/models/x"))
         Examples.llava Examples.default_args Examples.world
       = Raise (AssertionError msg) w'.
Proof.
  assert (Hacc : accepts Examples.env (seed_call Examples.default_args)).
  { intros [] w0 He; try contradiction; cbn in He; injection He as <-;
      reflexivity. }
  split; [reflexivity |]. split; [exact Hacc |].
  apply (proj2 (assertion_iff_no_names Examples.env
                  (mkConfig (Name_list []) "/data" (PyInt 4) None "/models/x")
                  Examples.llava Examples.default_args Examples.world)).
  - reflexivity.
  - exact Hacc.
Defined.

(** ** The report of a completed run *)

(** The value a completed run returns is the report of lines 265-306, on
    the adapter the registry built and on results of the evaluator. *)
Lemma eval_returns_report env self llmc_model a w r w' :
  eval env self llmc_model a w = Ok r w' ->
  exists create results,
    MODEL_REGISTRY env (eval_name llmc_model) = Some create
    /\ r = report env
             (create ("pretrained=" +:+ model_path self +:+ ",device_map=auto")
                (vlm_model llmc_model) (eval_bs self) (Args.device a))
             (eval_name llmc_model)
             ("pretrained=" +:+ model_path self +:+ ",device_map=auto")
             (eval_bs self) (parsed_gen_kwargs env a) a results.
Proof.
  intros H.
  apply eval_Ok_inv in H
    as (create & tm & w7 & d & w8 & we & _ & Hreg & _ & _ & _ & _ & _ & Hr).
  cbv zeta in Hr. eexists create, _. split; [exact Hreg | exact Hr].
Qed.

(** X15: the text a completed run returns is a line feed and the table of
    a mapping whose entry 'config' holds, in this order, the keys model,
    model_args, batch_size, batch_sizes, device, use_cache, limit,
    bootstrap_iters, gen_kwargs, random_seed, numpy_seed, torch_seed and
    fewshot_seed; model_args and batch_size are those of the constructor,
    not the caller's; gen_kwargs is the override as parsed; the others
    named here are the caller's. *)
Theorem report_config env self llmc_model a w text w' :
  eval env self llmc_model a w = Ok (Some text) w' ->
  exists rep cfg,
    text = String "010"%char (make_table env rep)
    /\ dict_get "config" rep = Some (PyDict cfg)
    /\ keys cfg
       = ["model"; "model_args"; "batch_size"; "batch_sizes"; "device";
          "use_cache"; "limit"; "bootstrap_iters"; "gen_kwargs"; "random_seed";
          "numpy_seed"; "torch_seed"; "fewshot_seed"]
    /\ dict_get "model_args" cfg
       = Some (PyStr ("pretrained=" +:+ model_path self +:+ ",device_map=auto"))
    /\ dict_get "batch_size" cfg = Some (eval_bs self)
    /\ dict_get "device" cfg = Some (opt_str (Args.device a))
    /\ dict_get "use_cache" cfg = Some (opt_str (Args.use_cache a))
    /\ dict_get "limit" cfg = Some (opt_val (Args.limit a))
    /\ dict_get "bootstrap_iters" cfg = Some (PyInt (Args.bootstrap_iters a))
    /\ dict_get "gen_kwargs" cfg
       = Some (gen_kwargs_value (parsed_gen_kwargs env a))
    /\ dict_get "random_seed" cfg = Some (opt_int (Args.random_seed a))
    /\ dict_get "numpy_seed" cfg = Some (opt_int (Args.numpy_random_seed a))
    /\ dict_get "torch_seed" cfg = Some (opt_int (Args.torch_random_seed a))
    /\ dict_get "fewshot_seed" cfg
       = Some (PyInt (Args.fewshot_random_seed a)).
Proof.
  intros H. apply eval_returns_report in H as (create & results & _ & Hr).
  unfold report, report_results in Hr.
  destruct (rank _ =? 0); [| discriminate].
  cbv zeta in Hr. rewrite dict_get_set_eq in Hr. injection Hr as ->.
  eexists. eexists. split; [reflexivity |].
  split; [rewrite dict_get_set_ne by discriminate; apply dict_get_set_eq |].
  repeat split.
Qed.

Lemma report_config_witness :
  exists text w' rep cfg,
    eval Examples.env Examples.vqa_eval Examples.llava Examples.default_args
      Examples.world = Ok (Some text) w'
    /\ text = String "010"%char (make_table Examples.env rep)
    /\ dict_get "config" rep = Some (PyDict cfg)
    /\ dict_get "model_args" cfg
       = Some (PyStr "pretrained=/models/x,device_map=auto")
    /\ dict_get "batch_size" cfg = Some (PyInt 4).
Proof.
  assert (H : exists text w',
             eval Examples.env Examples.vqa_eval Examples.llava
               Examples.default_args Examples.world = Ok (Some text) w').
  { eexists. eexists. vm_compute. reflexivity. }
  destruct H as (text & w' & H). exists text, w'.
  destruct (report_config Examples.env Examples.vqa_eval Examples.llava
              Examples.default_args Examples.world text w' H)
    as (rep & cfg & Ht & Hc & _ & Hma & Hbs & _).
  exists rep, cfg. auto.
Defined.

(** ** Parameters that are never read *)

(** X16: [eval_class], [max_batch_size] and [delete_requests_cache] are
    never read: two calls of [eval] that differ in them alone end alike,
    with the same result or exception and the same world. *)
Theorem unread_arguments env self llmc_model a b w :
  same_but_unread a b ->
  eval env self llmc_model a w = eval env self llmc_model b w.
Proof.
  intros Hab. destruct a, b. unfold same_but_unread in Hab. cbn in Hab.
  decompose [and] Hab. subst. reflexivity.
Qed.

Lemma unread_arguments_witness :
  eval Examples.env Examples.vqa_eval Examples.llava Examples.default_args
    Examples.world
  = eval Examples.env Examples.vqa_eval Examples.llava
      (Args.mk (Some "vqa") None None None None (Some 64) None None false false
         true None 100000 false false true None None false false None None
         "INFO" false (Some 0) (Some 1234) (Some 1234) 1234 "2024-01-01" None)
      Examples.world.
Proof.
  apply (unread_arguments Examples.env Examples.vqa_eval Examples.llava
           Examples.default_args).
  repeat split.
Defined.

(** ** What the evaluator is given *)

(** With the few-shot count 0 that [eval] passes, the traversal leaves
    every leaf of the tree zero-shot and seeded, and in predict-only mode
    with the metric 'bypass' alone. *)
Lemma adjust_config_zero_shot gen_kwargs predict_only seed task_dict w o :
  o ∈ leaves task_dict ->
  let objs :=
    task_objs (snd (_adjust_config gen_kwargs predict_only (Some 0) seed
                      task_dict w)) in
  Task.num_fewshot (objs o) = Some 0
  /\ Task.fewshot_seed (objs o) = Some seed
  /\ (predict_only = true -> Task.metric_list (objs o) = ["bypass"]).
Proof.
  intros Ho. cbv zeta. rewrite adjust_config_world.
  apply elem_of_leaves in Ho as [name Hin].
  apply (adjust_leaves_establish gen_kwargs predict_only (Some 0) seed
           (fun w => Task.num_fewshot (task_objs w o) = Some 0
                     /\ Task.fewshot_seed (task_objs w o) = Some seed
                     /\ (predict_only = true ->
                         Task.metric_list (task_objs w o) = ["bypass"]))
           _ name o w Hin).
  - intros w0. rewrite adjust_leaf_objs, decide_True by reflexivity.
    rewrite adjusted_task_num_fewshot, adjusted_task_fewshot_seed,
      adjusted_task_metric_list.
    split; [| split; [reflexivity | now intros ->]].
    now destruct (Task.num_fewshot (task_objs w0 o)) as [[| p | p] |].
  - intros w0 name' o' (Hn & Hs & Hm). rewrite adjust_leaf_objs.
    destruct (decide (o' = o)) as [-> | Hne]; [| now auto].
    rewrite adjusted_task_num_fewshot, adjusted_task_fewshot_seed,
      adjusted_task_metric_list, Hn.
    split; [reflexivity | split; [reflexivity | now intros ->]].
Qed.

(** X17: in a run of [eval] that completes, the evaluator is called once
    the tree is adjusted: the results in the report are the evaluator's on
    task objects of which every one at a leaf of the tree it is given is
    zero-shot, whatever its own configuration said, carries the few-shot
    seed of the call, and in predict-only mode has 'bypass' as its only
    metric. *)
Theorem evaluator_given_zero_shot env self llmc_model a w r w' :
  eval env self llmc_model a w = Ok r w' ->
  exists ea objs,
    Ev_evaluate ea ∈ events_since w w'
    /\ r = report env (ea_lm ea) (eval_name llmc_model)
             ("pretrained=" +:+ model_path self +:+ ",device_map=auto")
             (eval_bs self) (parsed_gen_kwargs env a) a
             (fst (evaluate env ea objs))
    /\ leaves_ready a (ea_task_dict ea) objs.
Proof.
  intros H.
  apply eval_Ok_inv in H
    as (create & tm & w7 & d & w8 & we & _ & _ & _ & Hadj & Hobjs & Hev & Hext
        & Hr).
  cbv zeta in Hev, Hr.
  match type of Hev with
  | happened _ (Ev_evaluate ?ea) _ => exists ea, (task_objs we)
  end.
  split; [apply happened_events_since; eapply happened_step; eassumption |].
  split; [exact Hr |].
  cbn [ea_task_dict evaluate_kwargs]. rewrite Hobjs. intros o Ho.
  pose proof (adjust_config_zero_shot (parsed_gen_kwargs env a)
                (Args.predict_only a) (Args.fewshot_random_seed a)
                (get_task_dict env (eval_dataset_name self) tm) w7 o) as E.
  pose proof (adjust_config_leaves (parsed_gen_kwargs env a)
                (Args.predict_only a) (Some 0) (Args.fewshot_random_seed a)
                (get_task_dict env (eval_dataset_name self) tm) w7 o) as L.
  rewrite Hadj in E, L. cbn [fst snd] in E, L. apply E, L, Ho.
Qed.

Lemma evaluator_given_zero_shot_witness :
  exists r w' ea objs,
    eval Examples.env Examples.vqa_eval Examples.llava Examples.default_args
      Examples.world = Ok r w'
    /\ Ev_evaluate ea ∈ events_since Examples.world w'
    /\ leaves_ready Examples.default_args (ea_task_dict ea) objs.
Proof.
  assert (H : exists r w',
             eval Examples.env Examples.vqa_eval Examples.llava
               Examples.default_args Examples.world = Ok r w').
  { eexists. eexists. vm_compute. reflexivity. }
  destruct H as (r & w' & H). exists r, w'.
  destruct (evaluator_given_zero_shot Examples.env Examples.vqa_eval
              Examples.llava Examples.default_args Examples.world r w' H)
    as (ea & objs & Hev & _ & Hready).
  exists ea, objs. auto.
Defined.

(** ** A model the registry does not know *)

Lemma eval_before_adapter env self llmc_model a :
  MODEL_REGISTRY env (eval_name llmc_model) = None ->
  emits before_adapter (eval env self llmc_model a).
Proof.
  intros Hreg. unfold eval. cbv zeta.
  apply emits_bind; [unfold set_seeds; cbv zeta; repeat emits_step | intros _].
  destruct (eval_dataset_name self) as [| t ts] eqn:Htasks; [apply emits_raise |].
  rewrite <- Htasks.
  apply emits_bind; [unfold parse_gen_kwargs; repeat emits_step | intros gk].
  apply emits_bind; [repeat emits_step | intros tm].
  apply emits_bind; [repeat emits_step | intros _].
  apply emits_bind;
    [unfold set_statistics_modules, register_forward_pre_hook,
       register_forward_hook; repeat emits_step | intros _].
  rewrite Hreg. apply emits_raise.
Qed.


